(** * Stock ledger and room-occupancy reconciliation

    A shallow embedding of the stock handlers of [client/pages/Stock.tsx]
    ([handleAddStockSubmit], [handleConfirmAddition], [handleTransferSubmit],
    [handleConfirmTransfer]) and of the occupancy code of the farms page
    ([syncRoomOccupancy], [getFermeStats]), with the properties of the
    specification stated over them; then the lists the stock page derives
    from what it loads, the figures of its reports, and the creation and
    the deletion of a farm on the farms page.

    Conventions of the embedding:
    - a Firestore collection is a finite map from document id to document
      data ([gmap string _]); the [id] field of the TypeScript interfaces is
      the key of the map;
    - a JavaScript number that holds a quantity is a double with an
      integer value, or [NaN] ([number]): its sums are rounded as doubles
      are; counts and capacities are integers ([Z]), the sums and products
      of the form of a new farm rounded likewise; the two rates computed by
      division are exact rationals ([Q]);
    - what a handler reads from its environment (the server time, the local
      clock, the id Firestore picks for a new document) is passed in as an
      [Env];
    - a handler returns the database it leaves behind and the toast it
      shows. *)

From Stdlib Require Import ZArith QArith Qround String Ascii List Lia.
From stdpp Require Import base option list gmap strings fin_maps pretty sorting.

Local Open Scope string_scope.
Local Open Scope Z_scope.

(** ** JavaScript values *)

(** Quantities: [parseInt] yields an integer or [NaN]; every arithmetic
    operation with [NaN] yields [NaN] and every comparison with [NaN] is
    false. A quantity is a JavaScript number, a double: [Num z] is the
    double that holds the integer [z]. *)
Inductive number : Type :=
| Num (z : Z)
| NaN.

#[global] Instance number_eq_dec : EqDecision number.
Proof. solve_decision. Defined.

(** The integer of the double nearest to the integer [z], a tie going to
    the even significand: a double has 53 significant bits, so every integer
    up to [2 ^ 53] in absolute value is kept, and beyond that an integer of
    [53 + e] bits is rounded to a multiple of [2 ^ e]. (Integers of 1024
    bits and more, which become [Infinity], are not modelled.) *)
Definition round_to_double (z : Z) : Z :=
  let m := Z.abs z in
  if bool_decide (m ≤ 2 ^ 53) then z
  else
    let e := Z.log2 m - 52 in
    let q := m / 2 ^ e in
    let r := m mod 2 ^ e in
    let half := 2 ^ (e - 1) in
    let q' := if bool_decide (r < half) then q
              else if bool_decide (half < r) then q + 1
              else if Z.even q then q else q + 1 in
    Z.sgn z * (q' * 2 ^ e).

(** The integer [z] is held by a double. *)
Definition is_double (z : Z) : bool := bool_decide (round_to_double z = z).

(** [a + b], also the effect of Firestore's [increment(b)] on a field [a]
    as the page reads it back: the sum of two doubles is the double nearest
    to their exact sum. (Firestore adds two of its 64-bit integers exactly,
    and the page reads the result as a double: up to [2 ^ 53] the two
    agree.) An integer that no double holds is no value of the code
    ([parseInt] yields doubles, and so does a sum of doubles); a sum with
    such an operand is left as the exact sum. *)
Definition js_add (a b : number) : number :=
  match a, b with
  | Num x, Num y =>
      Num (if is_double x && is_double y then round_to_double (x + y) else x + y)
  | _, _ => NaN
  end.

(** The integers a double holds without a gap: up to [2 ^ 53] in absolute
    value. A sum in this range is exact. *)
Definition safe_integer (z : Z) : Prop := Z.abs z ≤ 2 ^ 53.

(** Unary minus. *)
Definition js_neg (a : number) : number :=
  match a with
  | Num x => Num (- x)
  | NaN => NaN
  end.

(** [a < b]. *)
Definition js_lt (a b : number) : bool :=
  match a, b with
  | Num x, Num y => bool_decide (x < y)
  | _, _ => false
  end.

(** [a <= b]. *)
Definition js_le (a b : number) : bool :=
  match a, b with
  | Num x, Num y => bool_decide (x ≤ y)
  | _, _ => false
  end.

(** [a > b]. *)
Definition js_gt (a b : number) : bool := js_lt b a.

(** [a || 0] on numbers: [0] and [NaN] are falsy. *)
Definition js_or_zero (a : number) : Z :=
  match a with
  | Num x => x
  | NaN => 0
  end.

(** Truthiness of a string: only the empty string is falsy. *)
Definition truthy (s : string) : bool := negb (bool_decide (s = "")).

(** ** Data model ([shared/types.ts]) *)

Inductive Status : Type := pending | confirmed.

#[global] Instance Status_eq_dec : EqDecision Status.
Proof. solve_decision. Defined.

(** Firestore timestamps, in milliseconds. *)
Definition Timestamp : Type := Z.

Module User.
Record t : Type := mk {
  uid : string;
  fermeId : option string
}.
End User.

(** [user?.fermeId] and [user?.uid] on the possibly absent user. *)
Definition user_fermeId (user : option User.t) : option string :=
  user ≫= User.fermeId.

Definition user_uid (user : option User.t) : option string :=
  User.uid <$> user.

Module StockItem.
Record t : Type := mk {
  secteurId : string;
  item : string;
  quantity : number;
  unit : string;
  lastUpdated : string
}.
End StockItem.

Module StockTransfer.
Record t : Type := mk {
  fromSecteurId : string;
  toSecteurId : string;
  item : string;
  quantity : number;
  unit : string;
  status : Status;
  createdAt : Timestamp;
  confirmedAt : option Timestamp
}.
End StockTransfer.

Module StockAddition.
Record t : Type := mk {
  secteurId : string;
  item : string;
  quantity : number;
  unit : string;
  status : Status;
  addedBy : string;
  createdAt : Timestamp;
  confirmedAt : option Timestamp
}.
End StockAddition.

#[global] Instance StockItem_eq_dec : EqDecision StockItem.t.
Proof. solve_decision. Defined.

#[global] Instance StockTransfer_eq_dec : EqDecision StockTransfer.t.
Proof. solve_decision. Defined.

#[global] Instance StockAddition_eq_dec : EqDecision StockAddition.t.
Proof. solve_decision. Defined.

(** ** The document store *)

(** The three collections of the stock page. *)
Record Db : Type := mkDb {
  stocks : gmap string StockItem.t;
  stock_transfers : gmap string StockTransfer.t;
  stock_additions : gmap string StockAddition.t
}.

Definition emptyDb : Db := mkDb ∅ ∅ ∅.

(** What one run of a handler reads from outside the store. *)
Record Env : Type := mkEnv {
  serverTimestamp : Timestamp;   (* serverTimestamp() *)
  nowISO : string;               (* new Date().toISOString() *)
  autoId : string                (* the id addDoc gives the new document *)
}.

(** The toasts of the stock page. [Erreur] is the destructive toast titled
    "Erreur"; [StockInsuffisant q u] is the destructive toast titled
    "Stock insuffisant" whose description is [Stock disponible: q u];
    [Succes] is a default toast with its title. *)
Inductive Toast : Type :=
| Erreur (description : string)
| StockInsuffisant (disponible : Z) (unit : string)
| Succes (title : string).

(** *** A state monad with exceptions

    The handlers issue their writes one after the other inside a
    [try]/[catch]: a write that throws leaves the earlier writes in place. *)
Definition Action (A : Type) : Type := Db → Db * option A.

Definition throw {A} : Action A := λ db, (db, None).

#[global] Instance Action_ret : MRet Action := λ A a db, (db, Some a).

#[global] Instance Action_bind : MBind Action := λ A B k m db,
  match m db with
  | (db', Some a) => k a db'
  | (db', None) => (db', None)
  end.

(** [try { body; toast(ok) } catch { toast(Erreur ko) }]. *)
Definition try_catch (body : Action ()) (ok ko : string) (db : Db) : Db * Toast :=
  match body db with
  | (db', Some _) => (db', Succes ok)
  | (db', None) => (db', Erreur ko)
  end.

(** *** Firestore primitives

    A call is refused when its document is missing. A refusal for another
    reason (the network, the security rules) is left out: in this model the
    calls of a handler go through whenever their documents exist. *)

(** [updateDoc(doc(db, c, id), patch)]: rejects when the document does not
    exist. *)
Definition updateDoc {A} (c : gmap string A) (id : string) (patch : A → A)
  : option (gmap string A) :=
  match c !! id with
  | Some d => Some (<[id := patch d]> c)
  | None => None
  end.

(** [addDoc(collection(db, c), data)] with the id the store picks. *)
Definition addDoc {A} (c : gmap string A) (id : string) (data : A) : gmap string A :=
  <[id := data]> c.

(** [getDocs(query(collection(db,'stocks'), where('secteurId','==',s),
    where('item','==',i)))]: the documents of the result, [docs]. They come
    in the order of the map; the handlers use [docs[0]] only, and with one
    row per sector and item ([stock_unique] below) the result has one
    document at most. *)
Definition getDocs_stocks (c : gmap string StockItem.t) (s i : string)
  : list (string * StockItem.t) :=
  filter (λ kd, StockItem.secteurId kd.2 = s ∧ StockItem.item kd.2 = i)
         (map_to_list c).

Definition updateStock (id : string) (patch : StockItem.t → StockItem.t) : Action () :=
  λ db, match updateDoc (stocks db) id patch with
        | Some c => (mkDb c (stock_transfers db) (stock_additions db), Some ())
        | None => (db, None)
        end.

Definition addStockDoc (id : string) (data : StockItem.t) : Action () :=
  λ db, (mkDb (addDoc (stocks db) id data) (stock_transfers db) (stock_additions db), Some ()).

Definition updateTransfer (id : string) (patch : StockTransfer.t → StockTransfer.t)
  : Action () :=
  λ db, match updateDoc (stock_transfers db) id patch with
        | Some c => (mkDb (stocks db) c (stock_additions db), Some ())
        | None => (db, None)
        end.

Definition addTransferDoc (id : string) (data : StockTransfer.t) : Action () :=
  λ db, (mkDb (stocks db) (addDoc (stock_transfers db) id data) (stock_additions db), Some ()).

Definition updateAddition (id : string) (patch : StockAddition.t → StockAddition.t)
  : Action () :=
  λ db, match updateDoc (stock_additions db) id patch with
        | Some c => (mkDb (stocks db) (stock_transfers db) c, Some ())
        | None => (db, None)
        end.

Definition addAdditionDoc (id : string) (data : StockAddition.t) : Action () :=
  λ db, (mkDb (stocks db) (stock_transfers db) (addDoc (stock_additions db) id data), Some ()).

Definition queryStocks (s i : string) : Action (list (string * StockItem.t)) :=
  λ db, (db, Some (getDocs_stocks (stocks db) s i)).

(** The patch [{ quantity: increment(n), lastUpdated: now }]. *)
Definition incrementQuantity (n : number) (now : string) (d : StockItem.t) : StockItem.t :=
  StockItem.mk (StockItem.secteurId d) (StockItem.item d)
               (js_add (StockItem.quantity d) n) (StockItem.unit d) now.

(** The patch [{ status: 'confirmed', confirmedAt: serverTimestamp() }]. *)
Definition confirmTransferDoc (ts : Timestamp) (d : StockTransfer.t) : StockTransfer.t :=
  StockTransfer.mk (StockTransfer.fromSecteurId d) (StockTransfer.toSecteurId d)
                   (StockTransfer.item d) (StockTransfer.quantity d)
                   (StockTransfer.unit d) confirmed (StockTransfer.createdAt d) (Some ts).

Definition confirmAdditionDoc (ts : Timestamp) (d : StockAddition.t) : StockAddition.t :=
  StockAddition.mk (StockAddition.secteurId d) (StockAddition.item d)
                   (StockAddition.quantity d) (StockAddition.unit d) confirmed
                   (StockAddition.addedBy d) (StockAddition.createdAt d) (Some ts).

(** ** The handlers of the stock page *)

(** The debit of [handleConfirmTransfer]: decrement the first document of the
    sender's query, and do nothing when the query is empty. *)
Definition debitStock (e : Env) (s i : string) (q : number) : Action () :=
  senderSnapshot ← queryStocks s i;
  match senderSnapshot with
  | senderStockDoc :: _ =>
      updateStock senderStockDoc.1 (incrementQuantity (js_neg q) (nowISO e))
  | [] => mret ()
  end.

(** The block the three crediting paths repeat: query the sector's row for
    the item by [secteurId] and [item]; create the row when the result is
    empty, otherwise increment the first document of the result. *)
Definition creditStock (e : Env) (s i : string) (q : number) (u : string) : Action () :=
  existingSnapshot ← queryStocks s i;
  match existingSnapshot with
  | [] => addStockDoc (autoId e) (StockItem.mk s i q u (nowISO e))
  | existingStockDoc :: _ => updateStock existingStockDoc.1 (incrementQuantity q (nowISO e))
  end.

Module AddStockForm.
Record t : Type := mk {
  item : string;
  quantity : string;
  unit : string;
  secteurId : string
}.
End AddStockForm.

Module TransferForm.
Record t : Type := mk {
  item : string;
  quantity : string;
  unit : string;
  toSecteurId : string;
  fromSecteurId : string
}.
End TransferForm.

Section Forms.

(** JavaScript's [parseInt], from the text of a form field to a number. *)
Variable parseInt : string → number.

Definition handleAddStockSubmit (isSuperAdmin : bool) (user : option User.t)
    (addStockForm : AddStockForm.t) (e : Env) (db : Db) : Db * Toast :=
  if negb (truthy (AddStockForm.item addStockForm))
     || negb (truthy (AddStockForm.quantity addStockForm))
     || (negb isSuperAdmin && negb (truthy (AddStockForm.secteurId addStockForm)))
  then (db, Erreur "Veuillez remplir tous les champs requis")
  else
    let quantity := parseInt (AddStockForm.quantity addStockForm) in
    if js_le quantity (Num 0)
    then (db, Erreur "La quantité doit être supérieure à 0")
    else
      if isSuperAdmin then
        (* Super admin creates pending addition *)
        try_catch
          (match user_uid user with
           | Some uid =>
               addAdditionDoc (autoId e)
                 (StockAddition.mk (AddStockForm.secteurId addStockForm)
                    (AddStockForm.item addStockForm) quantity
                    (AddStockForm.unit addStockForm) pending uid
                    (serverTimestamp e) None)
           | None => throw   (* addedBy: undefined is refused by addDoc *)
           end)
          "Ajout créé" "Impossible d'ajouter le stock" db
      else
        (* Farm admin adds directly to stock *)
        try_catch
          (match user_fermeId user with
           | Some fermeId =>
               creditStock e fermeId (AddStockForm.item addStockForm) quantity
                           (AddStockForm.unit addStockForm)
           | None => throw   (* where('secteurId','==',undefined) is refused *)
           end)
          "Stock ajouté" "Impossible d'ajouter le stock" db.

(** [stocks] is the page's loaded list of stock rows, each with its id. *)
Definition handleTransferSubmit (isSuperAdmin : bool) (user : option User.t)
    (transferForm : TransferForm.t) (stocks : list (string * StockItem.t))
    (e : Env) (db : Db) : Db * Toast :=
  let requiredFields :=
    if isSuperAdmin
    then [TransferForm.item transferForm; TransferForm.quantity transferForm;
          TransferForm.toSecteurId transferForm; TransferForm.fromSecteurId transferForm]
    else [TransferForm.item transferForm; TransferForm.quantity transferForm;
          TransferForm.toSecteurId transferForm] in
  if existsb (λ field, negb (truthy field)) requiredFields
  then (db, Erreur "Veuillez remplir tous les champs requis")
  else
    let fromSecteurId :=
      if isSuperAdmin then Some (TransferForm.fromSecteurId transferForm)
      else user_fermeId user in
    if bool_decide (Some (TransferForm.toSecteurId transferForm) = fromSecteurId)
    then (db, Erreur "Vous ne pouvez pas transférer vers le même secteur")
    else
      let quantity := parseInt (TransferForm.quantity transferForm) in
      if js_le quantity (Num 0)
      then (db, Erreur "La quantité doit être supérieure à 0")
      else
        (* Check if source sector has enough stock *)
        let currentStock :=
          List.find (λ s, bool_decide (Some (StockItem.secteurId s.2) = fromSecteurId)
                          && bool_decide (StockItem.item s.2 = TransferForm.item transferForm))
                    stocks in
        match currentStock, fromSecteurId with
        | Some s, Some from =>
            if js_lt (StockItem.quantity s.2) quantity
            then (db, StockInsuffisant (js_or_zero (StockItem.quantity s.2))
                                       (TransferForm.unit transferForm))
            else
              try_catch
                (addTransferDoc (autoId e)
                   (StockTransfer.mk from (TransferForm.toSecteurId transferForm)
                      (TransferForm.item transferForm) quantity
                      (TransferForm.unit transferForm) pending
                      (serverTimestamp e) None))
                "Transfert créé" "Impossible de créer le transfert" db
        | _, _ => (db, StockInsuffisant 0 (TransferForm.unit transferForm))
        end.

End Forms.

(** [addition] is the object the page holds for the document [id]. *)
Definition handleConfirmAddition (id : string) (addition : StockAddition.t)
    (e : Env) (db : Db) : Db * Toast :=
  try_catch
    ((* Update addition status *)
     updateAddition id (confirmAdditionDoc (serverTimestamp e)) ;;
     (* Add to farm's stock *)
     creditStock e (StockAddition.secteurId addition) (StockAddition.item addition)
                 (StockAddition.quantity addition) (StockAddition.unit addition))
    "Ajout confirmé" "Impossible de confirmer l'ajout" db.

(** [transfer] is the object the page holds for the document [id]. *)
Definition handleConfirmTransfer (id : string) (transfer : StockTransfer.t)
    (e : Env) (db : Db) : Db * Toast :=
  try_catch
    ((* Update transfer status *)
     updateTransfer id (confirmTransferDoc (serverTimestamp e)) ;;
     (* Deduct from sender's stock *)
     debitStock e (StockTransfer.fromSecteurId transfer) (StockTransfer.item transfer)
                (StockTransfer.quantity transfer);;
     (* Add to receiver's stock *)
     creditStock e (StockTransfer.toSecteurId transfer) (StockTransfer.item transfer)
                 (StockTransfer.quantity transfer) (StockTransfer.unit transfer))
    "Transfert confirmé" "Impossible de confirmer le transfert" db.

(** The lists from which the page offers a confirmation. *)
Definition pendingIncomingTransfers (user : option User.t)
    (transfers : list (string * StockTransfer.t)) : list (string * StockTransfer.t) :=
  filter (λ t, StockTransfer.status t.2 = pending
               ∧ Some (StockTransfer.toSecteurId t.2) = user_fermeId user) transfers.

Definition pendingAdditions (stockAdditions : list (string * StockAddition.t))
  : list (string * StockAddition.t) :=
  filter (λ a, StockAddition.status a.2 = pending) stockAdditions.

(** ** Reading the stock collection *)

(** At most one stock row per (secteurId, item). *)
Definition stock_unique (c : gmap string StockItem.t) : Prop :=
  ∀ id1 id2 d1 d2,
    c !! id1 = Some d1 → c !! id2 = Some d2 →
    StockItem.secteurId d1 = StockItem.secteurId d2 →
    StockItem.item d1 = StockItem.item d2 →
    id1 = id2.

(** The sector has no row for the item. *)
Definition no_row (c : gmap string StockItem.t) (s i : string) : Prop :=
  ∀ id d, c !! id = Some d → StockItem.secteurId d = s → StockItem.item d = i → False.

(** The quantity a sector holds of an item, read the way the handlers read
    it: the first document of the query, and 0 when there is none. *)
Definition balance (c : gmap string StockItem.t) (s i : string) : number :=
  match getDocs_stocks c s i with
  | [] => Num 0
  | d :: _ => StockItem.quantity d.2
  end.

(** The sender of a transfer request: the form's source sector for a super
    admin, the user's own sector otherwise ([undefined] when the user has
    none). *)
Definition transferSender (isSuperAdmin : bool) (user : option User.t)
    (transferForm : TransferForm.t) : option string :=
  if isSuperAdmin then Some (TransferForm.fromSecteurId transferForm)
  else user_fermeId user.

(** The toasts with which a form is refused before any call to the store. *)
Definition validationError (t : Toast) : Prop :=
  t = Erreur "Veuillez remplir tous les champs requis" ∨
  t = Erreur "La quantité doit être supérieure à 0" ∨
  t = Erreur "Vous ne pouvez pas transférer vers le même secteur".

(** The loaded list of rows shows, for sector [s] and item [i], exactly the
    rows of the store. *)
Definition loaded_rows_of (loaded : list (string * StockItem.t))
    (c : gmap string StockItem.t) (s i : string) : Prop :=
  ∀ id d, StockItem.secteurId d = s → StockItem.item d = i →
          ((id, d) ∈ loaded ↔ c !! id = Some d).

(** The quantity the page's list shows for the sender's row of the item:
    [currentStock?.quantity || 0] for the first such row of the loaded
    list. *)
Definition loadedQuantity (loaded : list (string * StockItem.t)) (s i : string) : Z :=
  match List.find (λ row : string * StockItem.t,
                     bool_decide (StockItem.secteurId row.2 = s)
                     && bool_decide (StockItem.item row.2 = i)) loaded with
  | Some row => js_or_zero (StockItem.quantity row.2)
  | None => 0
  end.

(** The documents of the query behind the page's [stocks] list: every row
    for a super admin who selected all sectors, the rows of the selected
    sector for a super admin otherwise, the rows of the user's own sector
    for a sector admin. The page then sorts the list by [lastUpdated]. *)
Definition stockQuery (isSuperAdmin : bool) (selectedSecteur : string)
    (user : option User.t) (c : gmap string StockItem.t) : list (string * StockItem.t) :=
  if isSuperAdmin then
    if bool_decide (selectedSecteur = "all") then map_to_list c
    else filter (λ kd, StockItem.secteurId kd.2 = selectedSecteur) (map_to_list c)
  else filter (λ kd, StockItem.secteurId kd.2 = default "" (user_fermeId user))
              (map_to_list c).

(** ** The page as a transition system

    One step is one run of a handler. The page holds lists of documents
    loaded from the store ([stocks], [transfers], [stockAdditions]); whatever
    their filter and order, their entries are documents of the store, and a
    confirmation can only be started from an entry of [pendingIncomingTransfers]
    or [pendingAdditions]. *)

(** Every entry of a loaded list is a document of the collection. *)
Definition loaded_from {A} (l : list (string * A)) (c : gmap string A) : Prop :=
  ∀ id d, (id, d) ∈ l → c !! id = Some d.

(** What a step did, for the conditions under which it is looked at. *)
Inductive Label : Type :=
| AddStock (quantity : number)
| ConfirmAddition (addition : StockAddition.t)
| CreateTransfer (quantity : number)
| ConfirmTransfer (transfer : StockTransfer.t).

Section Page.

Variable parseInt : string → number.

Inductive step : Db → Label → Db → Prop :=
| step_addStock isSuperAdmin user form e db :
    step db (AddStock (parseInt (AddStockForm.quantity form)))
         (handleAddStockSubmit parseInt isSuperAdmin user form e db).1
| step_confirmAddition stockAdditions id addition e db :
    loaded_from stockAdditions (stock_additions db) →
    (id, addition) ∈ pendingAdditions stockAdditions →
    step db (ConfirmAddition addition) (handleConfirmAddition id addition e db).1
| step_createTransfer isSuperAdmin user form loaded e db :
    loaded_from loaded (stocks db) →
    step db (CreateTransfer (parseInt (TransferForm.quantity form)))
         (handleTransferSubmit parseInt isSuperAdmin user form loaded e db).1
| step_confirmTransfer user transfers id transfer e db :
    loaded_from transfers (stock_transfers db) →
    (id, transfer) ∈ pendingIncomingTransfers user transfers →
    step db (ConfirmTransfer transfer) (handleConfirmTransfer id transfer e db).1.

(** The states the page can reach from [db]. *)
Inductive reaches (db : Db) : Db → Prop :=
| reaches_here : reaches db db
| reaches_step l db1 db2 : reaches db db1 → step db1 l db2 → reaches db db2.

(** The condition under which a step keeps the quantities non-negative:
    the text of a form's quantity parses to a number, and a confirmed
    transfer does not exceed what the sender's row holds at that moment
    (or the sender has no row, and nothing is deducted). *)
Definition covered (db : Db) (l : Label) : Prop :=
  match l with
  | AddStock q => q ≠ NaN
  | ConfirmAddition _ => True
  | CreateTransfer q => q ≠ NaN
  | ConfirmTransfer t =>
      no_row (stocks db) (StockTransfer.fromSecteurId t) (StockTransfer.item t) ∨
      js_le (StockTransfer.quantity t)
            (balance (stocks db) (StockTransfer.fromSecteurId t) (StockTransfer.item t))
      = true
  end.

(** The states reached through covered steps only. *)
Inductive reaches_covered (db : Db) : Db → Prop :=
| covered_here : reaches_covered db db
| covered_step l db1 db2 :
    reaches_covered db db1 → step db1 l db2 → covered db1 l →
    reaches_covered db db2.

End Page.

(** Every stock row holds a non-negative integer. *)
Definition stock_nonneg (c : gmap string StockItem.t) : Prop :=
  ∀ id d, c !! id = Some d → ∃ z, StockItem.quantity d = Num z ∧ 0 ≤ z.

(** Every pending or confirmed record moves a positive integer. *)
Definition transfers_positive (c : gmap string StockTransfer.t) : Prop :=
  ∀ id t, c !! id = Some t → ∃ z, StockTransfer.quantity t = Num z ∧ 0 < z.

Definition additions_positive (c : gmap string StockAddition.t) : Prop :=
  ∀ id a, c !! id = Some a → ∃ z, StockAddition.quantity a = Num z ∧ 0 < z.

Definition ledger_inv (db : Db) : Prop :=
  stock_nonneg (stocks db) ∧ transfers_positive (stock_transfers db)
  ∧ additions_positive (stock_additions db).

(** ** JavaScript's [parseInt] on ASCII text, called without a radix

    Leading white space is skipped, a sign is read, a [0x] or [0X] prefix
    selects radix 16, and the longest run of digits of the radix is the
    value; without a digit the result is [NaN]. *)
Definition is_white (c : ascii) : bool :=
  let n := nat_of_ascii c in
  bool_decide (n = 9 ∨ n = 10 ∨ n = 11 ∨ n = 12 ∨ n = 13 ∨ n = 32)%nat.

Fixpoint skip_white (s : string) : string :=
  match s with
  | String c s' => if is_white c then skip_white s' else s
  | EmptyString => s
  end.

Definition digit_value (c : ascii) : option Z :=
  let n := Z.of_nat (nat_of_ascii c) in
  if bool_decide (48 ≤ n ≤ 57) then Some (n - 48)
  else if bool_decide (97 ≤ n ≤ 122) then Some (n - 97 + 10)
  else if bool_decide (65 ≤ n ≤ 90) then Some (n - 65 + 10)
  else None.

(** The digits of radix [R] at the head of [s], read into [acc]; [seen]
    tells whether a digit was read. *)
Fixpoint read_digits (R : Z) (s : string) (acc : Z) (seen : bool) : number :=
  match s with
  | String c s' =>
      match digit_value c with
      | Some d => if bool_decide (d < R) then read_digits R s' (acc * R + d) true
                  else if seen then Num acc else NaN
      | None => if seen then Num acc else NaN
      end
  | EmptyString => if seen then Num acc else NaN
  end.

Definition parseInt_unsigned (s : string) : number :=
  match s with
  | String "0" (String "x" s') | String "0" (String "X" s') => read_digits 16 s' 0 false
  | _ => read_digits 10 s 0 false
  end.

(** The number of a mathematical integer: the nearest double. *)
Definition to_number (a : number) : number :=
  match a with
  | Num z => Num (round_to_double z)
  | NaN => NaN
  end.

Definition js_parseInt (s : string) : number :=
  match skip_white s with
  | String "-" s' => js_neg (to_number (parseInt_unsigned s'))
  | String "+" s' => to_number (parseInt_unsigned s')
  | s' => to_number (parseInt_unsigned s')
  end.

(** * Workers, rooms and occupancy (the farms page) *)

Inductive Sexe : Type := homme | femme.
Inductive Genre : Type := hommes | femmes.
Inductive Statut : Type := actif | inactif.

#[global] Instance Sexe_eq_dec : EqDecision Sexe.
Proof. solve_decision. Defined.
#[global] Instance Genre_eq_dec : EqDecision Genre.
Proof. solve_decision. Defined.
#[global] Instance Statut_eq_dec : EqDecision Statut.
Proof. solve_decision. Defined.

(** The text of a [genre] inside a template string. *)
Definition genre_text (g : Genre) : string :=
  match g with
  | hommes => "hommes"
  | femmes => "femmes"
  end.

Module Worker.
Record t : Type := mk {
  id : string;
  nom : string;
  fermeId : string;
  sexe : Sexe;
  chambre : string;
  statut : Statut
}.
End Worker.

(** A room document; its id is its key in the [rooms] collection.
    [updatedAt] is the field the synchronisation adds to the document. *)
Module Room.
Record t : Type := mk {
  numero : string;
  fermeId : string;
  genre : Genre;
  capaciteTotale : Z;
  occupantsActuels : Z;
  listeOccupants : list string;
  updatedAt : option Timestamp
}.
End Room.

(** The partial data [syncRoomOccupancy] sends for a room. *)
Module RoomPatch.
Record t : Type := mk {
  occupantsActuels : Z;
  listeOccupants : list string;
  updatedAt : Timestamp
}.
End RoomPatch.

#[global] Instance Worker_eq_dec : EqDecision Worker.t.
Proof. solve_decision. Defined.
#[global] Instance Room_eq_dec : EqDecision Room.t.
Proof. solve_decision. Defined.
#[global] Instance RoomPatch_eq_dec : EqDecision RoomPatch.t.
Proof. solve_decision. Defined.

(** [worker.sexe === 'homme' ? 'hommes' : 'femmes']. *)
Definition workerGender (worker : Worker.t) : Genre :=
  if bool_decide (Worker.sexe worker = homme) then hommes else femmes.

(** Overwriting the fields of a patch on a room. *)
Definition applyPatch (partialData : RoomPatch.t) (r : Room.t) : Room.t :=
  Room.mk (Room.numero r) (Room.fermeId r) (Room.genre r) (Room.capaciteTotale r)
          (RoomPatch.occupantsActuels partialData)
          (RoomPatch.listeOccupants partialData)
          (Some (RoomPatch.updatedAt partialData)).

(** Modelled from the spec: the hook [useFirestore], whose [updateDocument]
    the farms page calls as [updateRoom], is not among the sources. As the
    specification describes the store interface
    ([updateDocument(collection, id, partialData)]) and its errors, the call
    overwrites the fields of [partialData] on the document [id] and touches
    nothing else, or fails with a store error and writes nothing. [fails]
    tells for which documents the store refuses the write; a document that
    does not exist is refused too. *)
Definition updateDocument (fails : string → bool) (id : string)
    (partialData : RoomPatch.t) (rooms : gmap string Room.t)
  : option (gmap string Room.t) :=
  if fails id then None
  else match rooms !! id with
       | Some r => Some (<[id := applyPatch partialData r]> rooms)
       | None => None
       end.

(** The type of [updateRoom]. *)
Definition UpdateRoom : Type :=
  string → RoomPatch.t → gmap string Room.t → option (gmap string Room.t).

(** ** [syncRoomOccupancy] *)

(** The key of a worker and of a room: [`${fermeId}-${chambre}-${gender}`]. *)
Definition workerKey (worker : Worker.t) : string :=
  Worker.fermeId worker +:+ "-" +:+ Worker.chambre worker +:+ "-"
  +:+ genre_text (workerGender worker).

Definition roomKey (room : Room.t) : string :=
  Room.fermeId room +:+ "-" +:+ Room.numero room +:+ "-" +:+ genre_text (Room.genre room).

(** Group workers by room using gender-aware keys. *)
Definition workersByRoom (workers : list Worker.t) : gmap string (list Worker.t) :=
  foldl (λ (acc : gmap string (list Worker.t)) worker,
           if bool_decide (Worker.statut worker = actif)
              && truthy (Worker.chambre worker) && truthy (Worker.fermeId worker)
           then
             let key := workerKey worker in
             <[key := (default [] (acc !! key) ++ [worker])%list]> acc
           else acc)
        ∅ workers.

(** The body of the loop over the rooms: the store so far and the calls to
    [updateRoom] made so far. A call that fails is logged and the loop goes
    on. *)
Definition syncRoom (updateRoom : UpdateRoom) (now : Timestamp)
    (groups : gmap string (list Worker.t))
    (state : gmap string Room.t * list (string * RoomPatch.t))
    (room : string * Room.t) : gmap string Room.t * list (string * RoomPatch.t) :=
  let workersInRoom := default [] (groups !! roomKey room.2) in
  let actualOccupants := Z.of_nat (length workersInRoom) in
  (* Only update if there's a discrepancy *)
  if bool_decide (Room.occupantsActuels room.2 ≠ actualOccupants) then
    let partialData :=
      RoomPatch.mk actualOccupants (Worker.id <$> workersInRoom) now in
    (match updateRoom room.1 partialData state.1 with
     | Some store' => store'
     | None => state.1
     end,
     (state.2 ++ [(room.1, partialData)])%list)
  else state.

(** What the loop sends for one room, if anything. *)
Definition correctionFor (now : Timestamp) (groups : gmap string (list Worker.t))
    (room : string * Room.t) : option (string * RoomPatch.t) :=
  let workersInRoom := default [] (groups !! roomKey room.2) in
  let actualOccupants := Z.of_nat (length workersInRoom) in
  if bool_decide (Room.occupantsActuels room.2 ≠ actualOccupants)
  then Some (room.1, RoomPatch.mk actualOccupants (Worker.id <$> workersInRoom) now)
  else None.

(** The room a pass leaves in the store when its write goes through. *)
Definition syncedRoom (now : Timestamp) (groups : gmap string (list Worker.t))
    (id : string) (r : Room.t) : Room.t :=
  match correctionFor now groups (id, r) with
  | Some (_, partialData) => applyPatch partialData r
  | None => r
  end.

(** [rooms] is the page's loaded list of rooms, [store] the collection the
    updates go to, [now] the reading of the clock ([new Date()]) the
    corrections are stamped with. The result is the collection after the
    pass and the corrections sent, in order. Without [updateRoom] nothing is
    done. *)
Definition syncRoomOccupancy (updateRoom : option UpdateRoom) (now : Timestamp)
    (workers : list Worker.t) (rooms : list (string * Room.t))
    (store : gmap string Room.t)
  : gmap string Room.t * list (string * RoomPatch.t) :=
  match updateRoom with
  | None => (store, [])
  | Some updateRoom =>
      foldl (syncRoom updateRoom now (workersByRoom workers)) (store, []) rooms
  end.

(** One pass over the rooms as loaded from the store. *)
Definition reconcile (fails : string → bool) (now : Timestamp)
    (workers : list Worker.t) (store : gmap string Room.t)
  : gmap string Room.t * list (string * RoomPatch.t) :=
  syncRoomOccupancy (Some (updateDocument fails)) now workers (map_to_list store) store.

(** The occupants of a room as the specification states them: the active
    workers whose room number, gender and farm are the room's. *)
Definition trueOccupants (workers : list Worker.t) (room : Room.t) : list Worker.t :=
  filter (λ w, Worker.statut w = actif ∧ Worker.chambre w = Room.numero room
               ∧ workerGender w = Room.genre room
               ∧ Worker.fermeId w = Room.fermeId room) workers.

(** The occupants of a room as the code finds them: the active workers
    with a room number and a farm whose key is the room's key. *)
Definition keyOccupants (workers : list Worker.t) (room : Room.t) : list Worker.t :=
  filter (λ w, (Worker.statut w = actif ∧ Worker.chambre w ≠ "" ∧ Worker.fermeId w ≠ "")
               ∧ workerKey w = roomKey room) workers.

(** The text has no ["-"]. *)
Fixpoint dash_free (s : string) : Prop :=
  match s with
  | EmptyString => True
  | String c s' => c ≠ "-"%char ∧ dash_free s'
  end.

(** ** [getFermeStats] *)

(** [Math.round]: the nearest integer, a half going up. *)
Definition Math_round (x : Q) : Z := Qfloor (x + (1 # 2))%Q.

Module RoomStat.
Record t : Type := mk {
  room : string * Room.t;
  workersCount : Z;
  isOccupied : bool;
  capacityUsed : Z;
  utilizationRate : Q;
  isOvercapacity : bool
}.
End RoomStat.

(** The statistics of a farm. [efficiencyScore], which divides by the
    number of rooms, is left out. *)
Module FermeStats.
Record t : Type := mk {
  totalOuvriers : Z;
  totalChambres : Z;
  chambresOccupees : Z;
  chambresVides : Z;
  totalCapacity : Z;
  totalOccupied : Z;
  placesDisponibles : Z;
  tauxOccupation : Z;
  maleWorkers : Z;
  femaleWorkers : Z;
  maleRooms : Z;
  femaleRooms : Z;
  roomStats : list RoomStat.t;
  workersByRoom : gmap string Z;
  workersWithoutRooms : Z;
  overcapacityRooms : Z;
  hasIssues : bool;
  isWellUtilized : bool;
  needsAttention : bool
}.
End FermeStats.

(** [xs.length] and [xs.filter(p).length]. *)
Definition len {A} (l : list A) : Z := Z.of_nat (length l).

(** [(a / b) * 100] on numbers, as the exact rational: the code computes
    it in doubles, which can differ from it in the last bit. *)
Definition percent (a b : Z) : Q := ((inject_Z a / inject_Z b) * 100)%Q.

Definition statKey (chambre : string) (g : Genre) : string :=
  chambre +:+ "-" +:+ genre_text g.

Definition roomStat (workersByRoom : gmap string Z) (room : string * Room.t) : RoomStat.t :=
  (* Use the same key format: roomNumber-gender *)
  let roomKey := statKey (Room.numero room.2) (Room.genre room.2) in
  let workersInRoom := default 0 (workersByRoom !! roomKey) in
  let isOccupied := bool_decide (workersInRoom > 0) in
  let capacityUsed := Z.min workersInRoom (Room.capaciteTotale room.2) in
  let utilizationRate :=
    if bool_decide (Room.capaciteTotale room.2 > 0)
    then percent capacityUsed (Room.capaciteTotale room.2) else 0%Q in
  RoomStat.mk room workersInRoom isOccupied capacityUsed utilizationRate
              (bool_decide (workersInRoom > Room.capaciteTotale room.2)).

Definition getFermeStats (workers : list Worker.t) (rooms : list (string * Room.t))
    (fermeId : string) : FermeStats.t :=
  let fermeWorkers :=
    filter (λ w, Worker.fermeId w = fermeId ∧ Worker.statut w = actif) workers in
  let fermeRooms :=
    filter (λ r : string * Room.t, Room.fermeId r.2 = fermeId) rooms in
  (* Calculate worker distribution by room *)
  let workersByRoom :=
    foldl (λ (acc : gmap string Z) worker,
             if truthy (Worker.chambre worker) then
               let roomKey := statKey (Worker.chambre worker) (workerGender worker) in
               <[roomKey := default 0 (acc !! roomKey) + 1]> acc
             else acc)
          ∅ fermeWorkers in
  (* Calculate room-based statistics *)
  let roomStats := roomStat workersByRoom <$> fermeRooms in
  (* Aggregate statistics *)
  let occupiedRooms := len (filter (λ stat, RoomStat.isOccupied stat = true) roomStats) in
  let totalCapacity :=
    foldl (λ sum (room : string * Room.t), sum + Room.capaciteTotale room.2) 0 fermeRooms in
  let totalOccupied :=
    foldl (λ sum stat, sum + RoomStat.capacityUsed stat) 0 roomStats in
  let averageUtilization :=
    if bool_decide (totalCapacity > 0) then percent totalOccupied totalCapacity else 0%Q in
  let workersWithoutRooms :=
    len (filter (λ w, truthy (Worker.chambre w) = false ∨ Worker.chambre w = "")
                fermeWorkers) in
  let overcapacityRooms := len (filter (λ stat, RoomStat.isOvercapacity stat = true) roomStats) in
  FermeStats.mk
    (len fermeWorkers) (len fermeRooms) occupiedRooms (len fermeRooms - occupiedRooms)
    totalCapacity totalOccupied (totalCapacity - totalOccupied)
    (Math_round averageUtilization)
    (len (filter (λ w, Worker.sexe w = homme) fermeWorkers))
    (len (filter (λ w, Worker.sexe w = femme) fermeWorkers))
    (len (filter (λ r : string * Room.t, Room.genre r.2 = hommes) fermeRooms))
    (len (filter (λ r : string * Room.t, Room.genre r.2 = femmes) fermeRooms))
    roomStats workersByRoom workersWithoutRooms overcapacityRooms
    (bool_decide (workersWithoutRooms > 0) || bool_decide (overcapacityRooms > 0))
    (Qle_bool 60 averageUtilization && Qle_bool averageUtilization 90)
    (bool_decide (workersWithoutRooms > 0) || bool_decide (overcapacityRooms > 0)
     || negb (Qle_bool averageUtilization 95)).

(** The occupants of a room as [getFermeStats] counts them. *)
Definition statOccupants (workers : list Worker.t) (room : Room.t) : list Worker.t :=
  filter (λ w, Worker.statut w = actif ∧ Worker.chambre w ≠ ""
               ∧ Worker.chambre w = Room.numero room
               ∧ workerGender w = Room.genre room
               ∧ Worker.fermeId w = Room.fermeId room) workers.

(** ** A run of the stock page, used in the examples

    The admin of sector A adds 10 "sac" of "ciment", then requests twice a
    transfer of 10 to sector B; the admin of B confirms both requests. *)
Module Run.

Definition adminA : option User.t := Some (User.mk "uid-A" (Some "A")).
Definition adminB : option User.t := Some (User.mk "uid-B" (Some "B")).

Definition addForm : AddStockForm.t := AddStockForm.mk "ciment" "10" "sac" "A".
Definition transferForm : TransferForm.t := TransferForm.mk "ciment" "10" "sac" "B" "".

Definition env1 : Env := mkEnv 100 "2024-05-01T08:00:00.000Z" "stock-A".
Definition env2 : Env := mkEnv 200 "2024-05-01T09:00:00.000Z" "t1".
Definition env3 : Env := mkEnv 300 "2024-05-01T09:30:00.000Z" "t2".
Definition env4 : Env := mkEnv 400 "2024-05-02T08:00:00.000Z" "stock-B".
Definition env5 : Env := mkEnv 500 "2024-05-02T08:05:00.000Z" "stock-B2".

Definition rowA : StockItem.t :=
  StockItem.mk "A" "ciment" (Num 10) "sac" "2024-05-01T08:00:00.000Z".
Definition transfer1 : StockTransfer.t :=
  StockTransfer.mk "A" "B" "ciment" (Num 10) "sac" pending 200 None.
Definition transfer2 : StockTransfer.t :=
  StockTransfer.mk "A" "B" "ciment" (Num 10) "sac" pending 300 None.

Definition db1 : Db :=
  (handleAddStockSubmit js_parseInt false adminA addForm env1 emptyDb).1.
Definition db2 : Db :=
  (handleTransferSubmit js_parseInt false adminA transferForm
     (stockQuery false "all" adminA (stocks db1)) env2 db1).1.
Definition db3 : Db :=
  (handleTransferSubmit js_parseInt false adminA transferForm
     (stockQuery false "all" adminA (stocks db2)) env3 db2).1.
Definition db4 : Db := (handleConfirmTransfer "t1" transfer1 env4 db3).1.
Definition db5 : Db := (handleConfirmTransfer "t2" transfer2 env5 db4).1.

(** A second run of the confirmation of "t1", from the object the page
    held when the first one was started. *)
Definition db4_again : Db := (handleConfirmTransfer "t1" transfer1 env5 db4).1.

(** A store where sector B holds 10 "kg" of "ciment" and has a pending
    addition of 5 "sac"; the addition is confirmed, and confirmed again. *)
Definition rowB : StockItem.t :=
  StockItem.mk "B" "ciment" (Num 10) "kg" "2024-05-02T08:00:00.000Z".
Definition addition1 : StockAddition.t :=
  StockAddition.mk "B" "ciment" (Num 5) "sac" pending "uid-S" 250 None.
Definition dbB : Db :=
  mkDb {["stock-B" := rowB]} {["t1" := transfer1]} {["a1" := addition1]}.
Definition dbB1 : Db := (handleConfirmAddition "a1" addition1 env4 dbB).1.
Definition dbB2 : Db := (handleConfirmAddition "a1" addition1 env5 dbB1).1.

(** A request for 15 when sector A holds 10. *)
Definition bigForm : TransferForm.t := TransferForm.mk "ciment" "15" "sac" "B" "".
Definition zeroForm : TransferForm.t := TransferForm.mk "ciment" "0" "sac" "B" "".
Definition sameForm : TransferForm.t := TransferForm.mk "ciment" "5" "sac" "A" "".
Definition zeroAddForm : AddStockForm.t := AddStockForm.mk "ciment" "-2" "sac" "A".

(** A super admin who has narrowed the stock list to sector B and asks for
    a transfer of 15 from sector A, which holds 10. *)
Definition superAdmin : option User.t := Some (User.mk "uid-S" None).
Definition fromAForm : TransferForm.t := TransferForm.mk "ciment" "15" "sac" "B" "A".

(** A store where sector B holds [2 ^ 53] "sac" of "ciment" and sector A
    holds 10, with a pending transfer of 1 from A to B. *)
Definition rowBig : StockItem.t :=
  StockItem.mk "B" "ciment" (Num (2 ^ 53)) "sac" "2024-05-01T08:00:00.000Z".
Definition transferOne : StockTransfer.t :=
  StockTransfer.mk "A" "B" "ciment" (Num 1) "sac" pending 200 None.
Definition dbBig : Db :=
  mkDb (<["stock-A" := rowA]> {["stock-B" := rowBig]}) {["t1" := transferOne]} ∅.

End Run.

(** ** A farm, used in the examples

    Farm "F1" has the men's room 101 and the women's room 101, each for 3;
    two men and one woman are assigned to room 101. The men's room is stored
    with one occupant. *)
Module Farm.

Definition ali : Worker.t := Worker.mk "w1" "Ali" "F1" homme "101" actif.
Definition omar : Worker.t := Worker.mk "w2" "Omar" "F1" homme "101" actif.
Definition sara : Worker.t := Worker.mk "w3" "Sara" "F1" femme "101" actif.
Definition workers : list Worker.t := [ali; omar; sara].

Definition roomH : Room.t := Room.mk "101" "F1" hommes 3 1 [] None.
Definition roomF : Room.t := Room.mk "101" "F1" femmes 3 1 ["w3"] None.
Definition store : gmap string Room.t := <["rH" := roomH]> (<["rF" := roomF]> ∅).
Definition rooms : list (string * Room.t) := [("rH", roomH); ("rF", roomF)].

Definition noFailure : string → bool := λ _, false.

(** A farm id with a dash: the worker of farm "a-b" in room "c" has the
    key of room "b-c" of farm "a". *)
Definition nabil : Worker.t := Worker.mk "w9" "Nabil" "a-b" homme "c" actif.
Definition roomDash : Room.t := Room.mk "b-c" "a" hommes 4 0 [] None.
Definition storeDash : gmap string Room.t := {["rD" := roomDash]}.

(** A room without a number, and an active worker without a room. *)
Definition karim : Worker.t := Worker.mk "w0" "Karim" "F1" homme "" actif.
Definition roomBlank : Room.t := Room.mk "" "F1" hommes 4 0 [] None.
Definition storeBlank : gmap string Room.t := {["rB" := roomBlank]}.

End Farm.

(** * The rest of the stock page *)

(** ** The items the transfer dialog offers *)

Module AvailableItem.
Record t : Type := mk {
  item : string;
  unit : string;
  available : number
}.
End AvailableItem.

(** Get available items for transfer (from current sector's stock or
    selected source sector for super admin). *)
Definition availableItems (isSuperAdmin : bool) (user : option User.t)
    (transferForm : TransferForm.t) (stocks : list (string * StockItem.t))
  : list AvailableItem.t :=
  let sourceSecteur :=
    if isSuperAdmin then Some (TransferForm.fromSecteurId transferForm)
    else user_fermeId user in
  (λ s : string * StockItem.t,
     AvailableItem.mk (StockItem.item s.2) (StockItem.unit s.2) (StockItem.quantity s.2))
  <$> filter (λ s : string * StockItem.t,
                Some (StockItem.secteurId s.2) = sourceSecteur
                ∧ js_gt (StockItem.quantity s.2) (Num 0) = true) stocks.

(** The list shows one row at most per sector and item. *)
Definition loaded_unique (loaded : list (string * StockItem.t)) : Prop :=
  ∀ x y, x ∈ loaded → y ∈ loaded →
         StockItem.secteurId x.2 = StockItem.secteurId y.2 →
         StockItem.item x.2 = StockItem.item y.2 → x = y.

(** ** The stock rows after a credit and after a debit *)

(** The rows [creditStock] leaves. *)
Definition creditedStocks (e : Env) (s i : string) (q : number) (u : string)
    (c : gmap string StockItem.t) : gmap string StockItem.t :=
  match getDocs_stocks c s i with
  | [] => <[autoId e := StockItem.mk s i q u (nowISO e)]> c
  | existingStockDoc :: _ =>
      <[existingStockDoc.1 := incrementQuantity q (nowISO e) existingStockDoc.2]> c
  end.

(** The rows [debitStock] leaves. *)
Definition debitedStocks (e : Env) (s i : string) (q : number)
    (c : gmap string StockItem.t) : gmap string StockItem.t :=
  match getDocs_stocks c s i with
  | [] => c
  | senderStockDoc :: _ =>
      <[senderStockDoc.1 := incrementQuantity (js_neg q) (nowISO e) senderStockDoc.2]> c
  end.

(** A row of another sector or of another item than [(s, i)]. *)
Definition other_row (s i : string) (row : StockItem.t) : Prop :=
  StockItem.secteurId row ≠ s ∨ StockItem.item row ≠ i.

(** ** The stock summary of the super admin *)

(** Filter stocks by article. *)
Definition filteredStocks (selectedArticle : string)
    (stocks : list (string * StockItem.t)) : list (string * StockItem.t) :=
  if bool_decide (selectedArticle = "all") then stocks
  else filter (λ stock : string * StockItem.t, StockItem.item stock.2 = selectedArticle)
              stocks.

Module StockTotal.
Record t : Type := mk {
  item : string;
  totalQuantity : number;
  unit : string
}.
End StockTotal.

(** A JavaScript object used as a dictionary with text keys that are not
    array indices: its properties, and their keys in the order they were
    created, which is the order of [Object.values]. *)
Definition Dict (V : Type) : Type := (gmap string V * list string)%type.

Definition Object_values {V} (o : Dict V) : list V := omap (λ key, o.1 !! key) o.2.

(** The key of a stock row in the summary: [`${stock.item}-${stock.unit}`]. *)
Definition totalKey (item unit : string) : string := item +:+ "-" +:+ unit.

(** The body of the [reduce] of [totalStockSummary]. *)
Definition addToTotals (acc : Dict StockTotal.t) (stock : string * StockItem.t)
  : Dict StockTotal.t :=
  let key := totalKey (StockItem.item stock.2) (StockItem.unit stock.2) in
  let acc :=
    match acc.1 !! key with
    | Some _ => acc
    | None =>
        (<[key := StockTotal.mk (StockItem.item stock.2) (Num 0) (StockItem.unit stock.2)]>
           acc.1,
         (acc.2 ++ [key])%list)
    end in
  (alter (λ t, StockTotal.mk (StockTotal.item t)
                 (js_add (StockTotal.totalQuantity t) (StockItem.quantity stock.2))
                 (StockTotal.unit t)) key acc.1,
   acc.2).

(** Calculate total stock summary for super admin. *)
Definition totalStockSummary (isSuperAdmin : bool)
    (filteredStocks : list (string * StockItem.t)) : list StockTotal.t :=
  if negb isSuperAdmin then []
  else Object_values (foldl addToTotals (∅, []) filteredStocks).

(** [xs.reduce((sum, x) => sum + x, 0)] on quantities. *)
Definition js_sum (l : list number) : number := foldl js_add (Num 0) l.

(** The sum of integer quantities as integers, and the sum of their
    absolute values: when the latter is within the safe integers, every sum
    of some of the quantities, in any order, is exact. *)
Definition exact_sum (l : list number) : Z := foldr (λ n s, js_or_zero n + s) 0 l.

Definition magnitude (l : list number) : Z :=
  foldr (λ n s, Z.abs (js_or_zero n) + s) 0 l.

(** The total the PDF report prints:
    [stocks.reduce((sum, stock) => sum + stock.quantity, 0)]. *)
Definition totalItems (stocks : list (string * StockItem.t)) : number :=
  foldl (λ sum (stock : string * StockItem.t), js_add sum (StockItem.quantity stock.2))
        (Num 0) stocks.

(** The dictionary is well formed: its keys are listed once each, and each
    value sits under its own key. *)
Definition totals_ok (o : Dict StockTotal.t) : Prop :=
  NoDup o.2 ∧ (∀ k, k ∈ o.2 ↔ is_Some (o.1 !! k)) ∧
  (∀ k t, o.1 !! k = Some t → totalKey (StockTotal.item t) (StockTotal.unit t) = k).

(** The rows the summary puts under a key. *)
Definition rowsOfKey (k : string) (rows : list (string * StockItem.t))
  : list (string * StockItem.t) :=
  filter (λ row : string * StockItem.t,
            totalKey (StockItem.item row.2) (StockItem.unit row.2) = k) rows.

(** The rows of an item in a unit. *)
Definition rowsOfItemUnit (item unit : string) (rows : list (string * StockItem.t))
  : list (string * StockItem.t) :=
  filter (λ row : string * StockItem.t,
            StockItem.item row.2 = item ∧ StockItem.unit row.2 = unit) rows.

(** ** The transfers a sector admin sees *)

(** [self.findIndex(p)]: the index of the first element that satisfies
    [p], and -1 when there is none. *)
Definition findIndex {A} (P : A → Prop) `{!∀ x, Decision (P x)} (self : list A) : Z :=
  match list_find P self with
  | Some (index, _) => Z.of_nat index
  | None => -1
  end.

(** [xs.filter((x, index) => p(x, index))], the index starting at [i]. *)
Fixpoint filter_from {A} (p : A → nat → bool) (i : nat) (xs : list A) : list A :=
  match xs with
  | [] => []
  | x :: xs' => if p x i then x :: filter_from p (S i) xs' else filter_from p (S i) xs'
  end.

(** Combine and deduplicate transfers. *)
Definition uniqueTransfers (allTransfers : list (string * StockTransfer.t))
  : list (string * StockTransfer.t) :=
  filter_from
    (λ (transfer : string * StockTransfer.t) index,
       bool_decide (Z.of_nat index
                    = findIndex (λ t : string * StockTransfer.t, t.1 = transfer.1)
                                allTransfers))
    0 allTransfers.

(** Load transfers based on user role: [None] when the effect returns
    before subscribing (the list on the page stays as it was), and otherwise
    the list handed to [setTransfers] once both snapshots have arrived, up
    to the order in which the sort by [createdAt] leaves it. *)
Definition loadTransfers (isSuperAdmin : bool) (user : option User.t)
    (c : gmap string StockTransfer.t) : option (list (string * StockTransfer.t)) :=
  if negb (truthy (default "" (user_fermeId user))) && negb isSuperAdmin then None
  else if isSuperAdmin then Some (map_to_list c)
  else
    let fermeId := default "" (user_fermeId user) in
    let incomingTransfers :=
      filter (λ t : string * StockTransfer.t, StockTransfer.toSecteurId t.2 = fermeId)
             (map_to_list c) in
    let outgoingTransfers :=
      filter (λ t : string * StockTransfer.t, StockTransfer.fromSecteurId t.2 = fermeId)
             (map_to_list c) in
    Some (uniqueTransfers (incomingTransfers ++ outgoingTransfers)%list).

(** The elements of a list whose id is not among [seen] nor borne by an
    earlier element. *)
Fixpoint firstOccurrences {A} (seen : list string) (l : list (string * A))
  : list (string * A) :=
  match l with
  | [] => []
  | x :: l' =>
      if bool_decide (x.1 ∈ seen) then firstOccurrences (seen ++ [x.1])%list l'
      else x :: firstOccurrences (seen ++ [x.1])%list l'
  end.

(** ** The sheet names of the Excel report *)

(** The class [[[\]\\\/\?\*:]] of the characters a sheet name may not
    hold: the brackets, the backslash, the slash, the question mark, the
    star and the colon. *)
Definition sheetForbidden (c : ascii) : bool :=
  bool_decide (c ∈ ["["; "]"; ascii_of_nat 92; "/"; "?"; "*"; ":"]%char).

(** [s.replace(/[...]/g, '')] for a class of characters: every character
    of the class is dropped. *)
Fixpoint removeAll (class : ascii → bool) (s : string) : string :=
  match s with
  | EmptyString => EmptyString
  | String c s' => if class c then removeAll class s' else String c (removeAll class s')
  end.

(** Clean farm name for sheet name (max 31 chars, no special chars). A
    character of the text stands for one code unit of the source's string. *)
Definition sheetName (nom : string) : string :=
  substring 0 31 (removeAll sheetForbidden nom).

(** The characters of a text. *)
Fixpoint chars (s : string) : list ascii :=
  match s with
  | EmptyString => []
  | String c s' => c :: chars s'
  end.

(** ** The workers the statistics of a farm account for *)

(** The workers a table of counts by room holds in all. *)
Definition assigned (workersByRoom : gmap string Z) : Z :=
  map_fold (λ _ n sum, n + sum) 0 workersByRoom.

(** The workers counted in the rooms of the statistics. *)
Definition countedInRooms (roomStats : list RoomStat.t) : Z :=
  foldr (λ stat sum, RoomStat.workersCount stat + sum) 0 roomStats.

(** The rooms of a farm among the loaded rooms. *)
Definition roomsOf (fermeId : string) (rooms : list (string * Room.t))
  : list (string * Room.t) :=
  filter (λ r : string * Room.t, Room.fermeId r.2 = fermeId) rooms.

(** * The rest of the farms page *)

(** ** A new farm and its rooms *)

(** A farm as the form holds it. *)
Module Ferme.
Record t : Type := mk {
  nom : string;
  totalChambres : Z;
  totalOuvriers : Z;
  admins : list string
}.
End Ferme.

(** [x + y] and [x * y] on the numbers of the form: the double nearest to
    the exact result. *)
Definition double_add (x y : Z) : Z := round_to_double (x + y).
Definition double_mul (x y : Z) : Z := round_to_double (x * y).

(** The part of the form about the rooms to create. Its numbers are set
    from [parseInt(e.target.value) || 0]: they are integers, held as
    doubles. *)
Module ChamberConfig.
Record t : Type := mk {
  createChambers : bool;
  chambresHommes : Z;
  chambresFemmes : Z;
  capaciteHommes : Z;
  capaciteFemmes : Z;
  startNumberHommes : Z;
  startNumberFemmes : Z
}.
End ChamberConfig.

(** [for (let i = 0; i < count; i++) chambers.push({...})] for one gender;
    the number of a room is [(startNumber + i).toString()], the decimal
    digits of the sum (as [toString] gives them below [10 ^ 21]). *)
Definition pushChambers (fermeId : string) (genre : Genre)
    (count capacite startNumber : Z) : list Room.t :=
  (λ i, Room.mk (pretty (double_add startNumber i)) fermeId genre capacite 0 [] None)
  <$> seqZ 0 count.

(** The rooms [createChambers] hands to [addRoom], in order. *)
Definition createChambers (chamberConfig : ChamberConfig.t) (fermeId : string)
  : list Room.t :=
  ((* Create chambers for men (only if chambresHommes > 0) *)
   if bool_decide (ChamberConfig.chambresHommes chamberConfig > 0)
   then pushChambers fermeId hommes (ChamberConfig.chambresHommes chamberConfig)
          (ChamberConfig.capaciteHommes chamberConfig)
          (ChamberConfig.startNumberHommes chamberConfig)
   else [])
  ++
  ((* Create chambers for women (only if chambresFemmes > 0) *)
   if bool_decide (ChamberConfig.chambresFemmes chamberConfig > 0)
   then pushChambers fermeId femmes (ChamberConfig.chambresFemmes chamberConfig)
          (ChamberConfig.capaciteFemmes chamberConfig)
          (ChamberConfig.startNumberFemmes chamberConfig)
   else [])%list.

(** What submitting the form of a new farm comes to: an alert, and nothing
    is saved; or the farm handed to [addDocument] and the rooms handed to
    [addRoom]. *)
Inductive Submission : Type :=
| Alert (message : string)
| Save (fermeData : Ferme.t) (chambers : list Room.t).

(** [handleSubmit] when no farm is being edited. [fermeId] is the id
    [addDocument] returns for the new farm. *)
Definition handleSubmit (chamberConfig : ChamberConfig.t) (formData : Ferme.t)
    (fermeId : string) : Submission :=
  let createChambers_ := ChamberConfig.createChambers chamberConfig in
  let chambresHommes := ChamberConfig.chambresHommes chamberConfig in
  let chambresFemmes := ChamberConfig.chambresFemmes chamberConfig in
  let capaciteHommes := ChamberConfig.capaciteHommes chamberConfig in
  let capaciteFemmes := ChamberConfig.capaciteFemmes chamberConfig in
  (* Validation for chamber creation *)
  if createChambers_ && bool_decide (double_add chambresHommes chambresFemmes = 0)
  then Alert "Veuillez spécifier au moins une chambre (hommes ou femmes)."
  else if createChambers_ && bool_decide (chambresHommes > 0)
          && bool_decide (capaciteHommes ≤ 0)
  then Alert "Veuillez spécifier une capacité valide pour les chambres hommes."
  else if createChambers_ && bool_decide (chambresFemmes > 0)
          && bool_decide (capaciteFemmes ≤ 0)
  then Alert "Veuillez spécifier une capacité valide pour les chambres femmes."
  else
    (* Calculate total chambers if creating chambers automatically *)
    let totalChambres :=
      if createChambers_ then double_add chambresHommes chambresFemmes
      else Ferme.totalChambres formData in
    let totalCapacity :=
      if createChambers_
      then double_add (double_mul chambresHommes capaciteHommes)
                      (double_mul chambresFemmes capaciteFemmes)
      else Ferme.totalOuvriers formData in
    let fermeData :=
      Ferme.mk (Ferme.nom formData) totalChambres totalCapacity (Ferme.admins formData) in
    (* Create chambers automatically if enabled *)
    Save fermeData
         (if createChambers_ && truthy fermeId
          then createChambers chamberConfig fermeId else []).

(** The places of a list of rooms. *)
Definition places (rooms : list Room.t) : Z :=
  foldr (λ room sum, Room.capaciteTotale room + sum) 0 rooms.

(** ** Deleting a farm *)

(** The farms and the rooms of the store. *)
Module FarmDb.
Record t : Type := mk {
  fermes : gmap string Ferme.t;
  rooms : gmap string Room.t
}.
End FarmDb.

(** What a call throws: an [Error] with its message, or another value. *)
Inductive Thrown : Type :=
| ErrorObject (message : string)
| OtherValue.

(** [error instanceof Error ? error.message : 'Erreur inconnue']. *)
Definition errorText (error : Thrown) : string :=
  match error with
  | ErrorObject message => message
  | OtherValue => "Erreur inconnue"
  end.

Definition quote : string := String (ascii_of_nat 34) "".
Definition newline : string := String (ascii_of_nat 10) "".

Definition confirmMessage (fermeName : string) (roomsCount : Z) : string :=
  if bool_decide (roomsCount > 0)
  then "Êtes-vous sûr de vouloir supprimer la ferme " +:+ quote +:+ fermeName +:+ quote
       +:+ " ?" +:+ newline +:+ newline +:+ "CETTE ACTION VA ÉGALEMENT SUPPRIMER "
       +:+ pretty roomsCount +:+ " CHAMBRE(S) ASSOCIÉE(S)." +:+ newline +:+ newline
       +:+ "Cette action est irréversible."
  else "Êtes-vous sûr de vouloir supprimer la ferme " +:+ quote +:+ fermeName +:+ quote
       +:+ " ?".

Definition deletedMessage (fermeName : string) (roomsCount : Z) : string :=
  "Ferme " +:+ quote +:+ fermeName +:+ quote +:+ " et ses " +:+ pretty roomsCount
  +:+ " chambres ont été supprimées avec succès.".

Definition deleteErrorMessage (error : Thrown) : string :=
  "Erreur lors de la suppression: " +:+ errorText error.

Section Delete.

(** [deleteDocument] of the hook on the farms, whatever it does: the farms
    it leaves, or what it throws. *)
Variable deleteDocument : string → gmap string Ferme.t → Thrown + gmap string Ferme.t.

(** The answer to [window.confirm]. *)
Variable confirm : string → bool.

(** [fails id] is what the store throws when asked to delete the room
    [id], if it refuses. *)
Variable fails : string → option Thrown.

(** [deleteDoc(doc(db, 'rooms', id))]: the document is gone afterwards,
    whether it was there or not. *)
Definition deleteDoc (id : string) (rooms : gmap string Room.t)
  : Thrown + gmap string Room.t :=
  match fails id with
  | Some error => inl error
  | None => inr (delete id rooms)
  end.

(** [for (const room of fermeRooms) await deleteDoc(...)]: the rooms left
    and, when a call throws, what it throws; the loop ends there. *)
Fixpoint deleteRooms (fermeRooms : list (string * Room.t)) (rooms : gmap string Room.t)
  : gmap string Room.t * option Thrown :=
  match fermeRooms with
  | [] => (rooms, None)
  | room :: rest =>
      match deleteDoc room.1 rooms with
      | inl error => (rooms, Some error)
      | inr rooms' => deleteRooms rest rooms'
      end
  end.

(** [rooms] is the page's loaded list of rooms. The result is the store
    afterwards and the alert shown, if any. *)
Definition handleDelete (rooms : list (string * Room.t)) (fermeId fermeName : string)
    (db : FarmDb.t) : FarmDb.t * option string :=
  (* Get rooms count for this ferme *)
  let fermeRooms := filter (λ r : string * Room.t, Room.fermeId r.2 = fermeId) rooms in
  let roomsCount := len fermeRooms in
  if confirm (confirmMessage fermeName roomsCount) then
    (* First, delete all rooms belonging to this ferme *)
    match (if bool_decide (roomsCount > 0) then deleteRooms fermeRooms (FarmDb.rooms db)
           else (FarmDb.rooms db, None)) with
    | (rooms', Some error) =>
        (FarmDb.mk (FarmDb.fermes db) rooms', Some (deleteErrorMessage error))
    | (rooms', None) =>
        (* Then delete the ferme itself *)
        match deleteDocument fermeId (FarmDb.fermes db) with
        | inl error => (FarmDb.mk (FarmDb.fermes db) rooms', Some (deleteErrorMessage error))
        | inr fermes' => (FarmDb.mk fermes' rooms', Some (deletedMessage fermeName roomsCount))
        end
    end
  else (db, None).

End Delete.

(** * The article filter and the summary of the PDF report *)

(** [set.add(x)] on the values of a set in the order of their insertion. *)
Definition Set_add (s : list string) (x : string) : list string :=
  if bool_decide (x ∈ s) then s else (s ++ [x])%list.

(** [Array.from(new Set(xs))]: the values of [xs] in the order in which
    they first occur. *)
Definition Array_from_Set (xs : list string) : list string := foldl Set_add [] xs.

(** [new Set(xs).size]. *)
Definition Set_size (xs : list string) : Z := len (Array_from_Set xs).

(** The order of [sort()] without a comparator, on texts: by code units. *)
Definition code_unit_le (s1 s2 : string) : Prop := String.leb s1 s2 = true.

#[global] Instance code_unit_le_dec : RelDecision code_unit_le.
Proof. intros s1 s2. unfold code_unit_le. apply _. Defined.

#[global] Instance code_unit_le_total : Total code_unit_le := String.leb_total.

(** Get unique articles for filter dropdown. *)
Definition availableArticles (stocks : list (string * StockItem.t)) : list string :=
  let articles :=
    Array_from_Set ((λ stock : string * StockItem.t, StockItem.item stock.2) <$> stocks) in
  merge_sort code_unit_le articles.

(** The summary statistics of the PDF report. *)
Module Summary.
Record t : Type := mk {
  articles : Z;
  totalItems : number;
  uniqueItems : Z;
  activeSectors : Z;
  pendingTransfers : Z;
  completedTransfers : Z;
  pendingAdditions : Z
}.
End Summary.

(** Calculate summary statistics. *)
Definition summaryStatistics (stocks : list (string * StockItem.t))
    (transfers : list (string * StockTransfer.t))
    (stockAdditions : list (string * StockAddition.t)) : Summary.t :=
  Summary.mk
    (len stocks)
    (totalItems stocks)
    (Set_size ((λ s : string * StockItem.t, StockItem.item s.2) <$> stocks))
    (Set_size ((λ s : string * StockItem.t, StockItem.secteurId s.2) <$> stocks))
    (len (filter (λ t : string * StockTransfer.t, StockTransfer.status t.2 = pending)
                 transfers))
    (len (filter (λ t : string * StockTransfer.t, StockTransfer.status t.2 = confirmed)
                 transfers))
    (len (pendingAdditions stockAdditions)).

(** ** The additions a user sees *)

(** Load stock additions based on user role, up to the order in which the
    sort by [createdAt] leaves them. *)
Definition loadAdditions (isSuperAdmin : bool) (user : option User.t)
    (c : gmap string StockAddition.t) : list (string * StockAddition.t) :=
  if isSuperAdmin then
    (* Super admin sees all their pending additions *)
    filter (λ a : string * StockAddition.t,
              StockAddition.addedBy a.2 = default "" (user_uid user))
           (map_to_list c)
  else
    (* Admin secteur sees pending additions for their sector *)
    filter (λ a : string * StockAddition.t,
              StockAddition.secteurId a.2 = default "" (user_fermeId user)
              ∧ StockAddition.status a.2 = pending)
           (map_to_list c).

(** ** More example data

    A super admin who adds 5 "sac" of "ciment" for sector B; a form whose
    quantity cannot be read; three stock rows of two sectors; a transfer
    that occurs in both queries of a sector admin; a new farm "F9" with two
    rooms for men and one for women, the same with two rooms numbered from
    [2 ^ 53] and with six rooms of [2 ^ 53 + 2] places; and the store of the
    farm "F1". *)
Module More.

Definition superS : option User.t := Some (User.mk "uid-S" None).
Definition sForm : AddStockForm.t := AddStockForm.mk "ciment" "5" "sac" "B".
Definition envS : Env := mkEnv 250 "2024-05-01T10:00:00.000Z" "a1".
Definition unreadableForm : AddStockForm.t := AddStockForm.mk "ciment" "beaucoup" "sac" "A".
Definition unreadableTransfer : TransferForm.t :=
  TransferForm.mk "ciment" "beaucoup" "sac" "B" "".

Definition rows : list (string * StockItem.t) :=
  [("s1", StockItem.mk "A" "fer" (Num 3) "kg" "2024-05-01T08:00:00.000Z");
   ("s2", StockItem.mk "A" "ciment" (Num 10) "sac" "2024-05-01T09:00:00.000Z");
   ("s3", StockItem.mk "B" "ciment" (Num 5) "sac" "2024-05-01T10:00:00.000Z")].

Definition offered : AvailableItem.t := AvailableItem.mk "ciment" "sac" (Num 10).

Definition selfTransfer : StockTransfer.t :=
  StockTransfer.mk "A" "A" "fer" (Num 1) "kg" pending 150 None.
Definition twice : list (string * StockTransfer.t) :=
  [("t0", selfTransfer); ("t1", Run.transfer1); ("t0", selfTransfer)].

Definition chamberConfig : ChamberConfig.t := ChamberConfig.mk true 2 1 4 3 101 201.
Definition noChambers : ChamberConfig.t := ChamberConfig.mk true 0 0 4 4 101 201.
Definition bigStart : ChamberConfig.t := ChamberConfig.mk true 2 0 4 4 (2 ^ 53) 201.
Definition bigRooms : ChamberConfig.t := ChamberConfig.mk true 6 0 (2 ^ 53 + 2) 4 101 201.
Definition formData : Ferme.t := Ferme.mk "Ferme Nord" 0 0 ["uid-A"].
Definition fermeData : Ferme.t := Ferme.mk "Ferme Nord" 3 11 ["uid-A"].
Definition chambers : list Room.t := createChambers chamberConfig "F9".
Definition rooms : list (string * Room.t) :=
  (Farm.rooms ++ zip ["r1"; "r2"; "r3"] chambers)%list.

Definition farmDb : FarmDb.t :=
  FarmDb.mk {["F1" := Ferme.mk "Ferme 1" 2 6 []]}
            (<["r1" := Room.mk "101" "F9" hommes 4 0 [] None]> Farm.store).
Definition deleteFerme (id : string) (fermes : gmap string Ferme.t)
  : Thrown + gmap string Ferme.t := inr (delete id fermes).
Definition yes : string → bool := λ _, true.
Definition accepts : string → option Thrown := λ _, None.
Definition refusesF : string → option Thrown :=
  λ id, if bool_decide (id = "rF") then Some (ErrorObject "permission-denied") else None.

End More.

(** * Properties of the stock ledger *)

(** ** Sums of doubles *)

Lemma round_to_double_safe z : safe_integer z → round_to_double z = z.
Proof. intros Hz. unfold round_to_double. by rewrite bool_decide_eq_true_2. Qed.

Lemma is_double_safe z : safe_integer z → is_double z = true.
Proof. intros Hz. unfold is_double. by rewrite round_to_double_safe, bool_decide_eq_true_2. Qed.

(** A sum within the safe integers is exact. *)
Lemma js_add_safe x y : safe_integer (x + y) → js_add (Num x) (Num y) = Num (x + y).
Proof.
  intros Hs. unfold js_add. rewrite round_to_double_safe by done.
  by destruct (is_double x && is_double y).
Qed.

Lemma js_sub_safe x y :
  safe_integer (x - y) → js_add (Num x) (js_neg (Num y)) = Num (x - y).
Proof. intros Hs. simpl js_neg. rewrite js_add_safe; [done|]. by rewrite Z.add_opp_r. Qed.

Lemma round_to_double_nonneg z : 0 ≤ z → 0 ≤ round_to_double z.
Proof.
  intros Hz. unfold round_to_double. case_bool_decide; [done|].
  assert (0 < z) by (unfold Z.abs in *; destruct z; lia).
  rewrite Z.sgn_pos by done. rewrite Z.mul_1_l.
  assert (H2 : 0 < 2 ^ (Z.log2 (Z.abs z) - 52)).
  { apply Z.pow_pos_nonneg; [lia|].
    assert (53 ≤ Z.log2 (Z.abs z)); [|lia].
    apply Z.log2_le_pow2; lia. }
  assert (Hq : 0 ≤ Z.abs z / 2 ^ (Z.log2 (Z.abs z) - 52)) by (apply Z.div_pos; lia).
  apply Z.mul_nonneg_nonneg; [|lia].
  repeat case_bool_decide; try destruct (Z.even _); lia.
Qed.

(** The sign of a sum of doubles is the sign of the exact sum. *)
Lemma js_add_nonneg x y : 0 ≤ x + y → ∃ z, js_add (Num x) (Num y) = Num z ∧ 0 ≤ z.
Proof.
  intros Hs. unfold js_add. eexists. split; [reflexivity|].
  destruct (is_double x && is_double y); [by apply round_to_double_nonneg|done].
Qed.

Lemma js_add_zero_l q : js_add (Num 0) q = q.
Proof.
  destruct q as [y|]; [|done]. unfold js_add.
  destruct (is_double y) eqn:Hy; [|by rewrite andb_false_r].
  rewrite is_double_safe by (unfold safe_integer; simpl; lia). simpl.
  f_equal. by apply bool_decide_eq_true in Hy.
Qed.

Lemma js_add_comm a b : js_add a b = js_add b a.
Proof.
  destruct a as [x|], b as [y|]; try done. unfold js_add.
  by rewrite andb_comm, Z.add_comm.
Qed.

Lemma js_add_zero_r q : js_add q (Num 0) = q.
Proof. rewrite js_add_comm. apply js_add_zero_l. Qed.

(** Above 2^53 a number has 53 significant bits and a remainder. *)
Lemma round_positive m :
  2 ^ 53 < m →
  let e := Z.log2 m - 52 in
  1 ≤ e ∧ 2 ^ 52 ≤ m / 2 ^ e < 2 ^ 53 ∧ 0 ≤ m mod 2 ^ e < 2 ^ e.
Proof.
  intros Hm e.
  assert (Hlog : 53 ≤ Z.log2 m) by (apply Z.log2_le_pow2; lia).
  assert (He : 1 ≤ e) by (subst e; lia).
  destruct (Z.log2_spec m) as [Hlo Hhi]; [lia|].
  assert (Hpow : 0 < 2 ^ e) by (apply Z.pow_pos_nonneg; lia).
  split; [done|]. split; [|apply Z.mod_pos_bound; lia].
  assert (H1 : 2 ^ Z.log2 m = 2 ^ 52 * 2 ^ e).
  { rewrite <- Z.pow_add_r by lia. f_equal. subst e. lia. }
  assert (H2 : 2 ^ Z.succ (Z.log2 m) = 2 ^ 53 * 2 ^ e).
  { rewrite <- Z.pow_add_r by lia. f_equal. subst e. lia. }
  split.
  - apply Z.div_le_lower_bound; lia.
  - apply Z.div_lt_upper_bound; lia.
Qed.

(** 53 bits times a power of two is a double. *)
Lemma round_multiple q e :
  1 ≤ e → 2 ^ 52 ≤ q ≤ 2 ^ 53 → round_to_double (q * 2 ^ e) = q * 2 ^ e.
Proof.
  intros He Hq. unfold round_to_double.
  assert (Hpow : 0 < 2 ^ e) by (apply Z.pow_pos_nonneg; lia).
  assert (Hpos : 0 < q * 2 ^ e) by nia.
  rewrite Z.abs_eq by lia.
  case_bool_decide as Hsafe; [done|].
  rewrite Z.sgn_pos, Z.mul_1_l by done.
  destruct (decide (q = 2 ^ 53)) as [->|Hne].
  - assert (Hlog : Z.log2 (2 ^ 53 * 2 ^ e) = 53 + e).
    { rewrite <- Z.pow_add_r by lia. apply Z.log2_pow2. lia. }
    rewrite Hlog. replace (53 + e - 52) with (e + 1) by lia.
    assert (Hsplit : 2 ^ 53 * 2 ^ e = 2 ^ 52 * 2 ^ (e + 1)).
    { rewrite <- !Z.pow_add_r by lia. f_equal. lia. }
    rewrite Hsplit.
    assert (Hpow' : 0 < 2 ^ (e + 1)) by (apply Z.pow_pos_nonneg; lia).
    rewrite Z.div_mul, Z.mod_mul by lia.
    replace (e + 1 - 1) with e by lia.
    rewrite bool_decide_eq_true_2 by lia. done.
  - assert (Hlog : Z.log2 (q * 2 ^ e) = 52 + e).
    { apply Z.log2_unique; [lia|]. rewrite Z.pow_succ_r, !Z.pow_add_r by lia.
      split; nia. }
    rewrite Hlog. replace (52 + e - 52) with e by lia.
    rewrite Z.div_mul, Z.mod_mul by lia.
    assert (0 < 2 ^ (e - 1)) by (apply Z.pow_pos_nonneg; lia).
    rewrite bool_decide_eq_true_2 by lia. done.
Qed.

Lemma round_to_double_opp z : round_to_double (- z) = - round_to_double z.
Proof.
  unfold round_to_double. rewrite Z.abs_opp, Z.sgn_opp.
  case_bool_decide; [done|]. lia.
Qed.

(** Rounding yields a double. *)
Lemma round_to_double_idem z : round_to_double (round_to_double z) = round_to_double z.
Proof.
  assert (Hpos : ∀ m, 0 ≤ m → round_to_double (round_to_double m) = round_to_double m).
  { intros m Hm. destruct (decide (m ≤ 2 ^ 53)) as [Hsafe|Hsafe].
    - rewrite !(round_to_double_safe m); [done|unfold safe_integer; by rewrite Z.abs_eq..].
    - assert (Hm' : round_to_double m
                    = (let e := Z.log2 m - 52 in
                       let q := m / 2 ^ e in
                       let r := m mod 2 ^ e in
                       let half := 2 ^ (e - 1) in
                       (if bool_decide (r < half) then q
                        else if bool_decide (half < r) then q + 1
                        else if Z.even q then q else q + 1) * 2 ^ e)).
      { unfold round_to_double. rewrite Z.abs_eq by done.
        rewrite bool_decide_eq_false_2 by done.
        rewrite Z.sgn_pos, Z.mul_1_l by lia. done. }
      rewrite Hm'. cbv zeta.
      destruct (round_positive m) as (He & Hq & Hr); [lia|].
      apply round_multiple; [done|].
      set (q := m / 2 ^ (Z.log2 m - 52)) in *. clearbody q. clear Hm' Hr.
      destruct (bool_decide _); [lia|].
      destruct (bool_decide _); [lia|].
      destruct (Z.even q); lia. }
  destruct (Z.le_gt_cases 0 z) as [Hz|Hz]; [by apply Hpos|].
  pose proof (Hpos (- z)) as H. rewrite !round_to_double_opp in H. lia.
Qed.

Lemma is_double_round z : is_double (round_to_double z) = true.
Proof. unfold is_double. apply bool_decide_eq_true, round_to_double_idem. Qed.

(** A sum of doubles is a double. *)
Lemma js_add_double x y :
  is_double x = true → is_double y = true →
  ∃ z, js_add (Num x) (Num y) = Num z ∧ is_double z = true.
Proof.
  intros Hx Hy. unfold js_add. rewrite Hx, Hy. simpl. eexists. split; [done|].
  apply is_double_round.
Qed.

(** Rounding does not reach 0 from elsewhere. *)
Lemma round_to_double_zero z : round_to_double z = 0 ↔ z = 0.
Proof.
  split; [|by intros ->].
  unfold round_to_double. case_bool_decide as Hsafe; [done|].
  destruct (round_positive (Z.abs z)) as (He & Hq & _); [lia|].
  assert (Hpow : 0 < 2 ^ (Z.log2 (Z.abs z) - 52)) by (apply Z.pow_pos_nonneg; lia).
  set (q := Z.abs z / 2 ^ (Z.log2 (Z.abs z) - 52)) in *.
  assert (Hq' : 0 < (if bool_decide (Z.abs z `mod` 2 ^ (Z.log2 (Z.abs z) - 52)
                                     < 2 ^ (Z.log2 (Z.abs z) - 52 - 1)) then q
                     else if bool_decide (2 ^ (Z.log2 (Z.abs z) - 52 - 1)
                                          < Z.abs z `mod` 2 ^ (Z.log2 (Z.abs z) - 52))
                          then q + 1
                          else if Z.even q then q else q + 1)).
  { clearbody q. repeat case_bool_decide; try destruct (Z.even q); lia. }
  intros Hz. apply Z.mul_eq_0 in Hz as [Hz|Hz]; [|nia].
  apply Z.sgn_null_iff in Hz. lia.
Qed.

Lemma elem_of_getDocs_stocks c s i id d :
  (id, d) ∈ getDocs_stocks c s i ↔
  c !! id = Some d ∧ StockItem.secteurId d = s ∧ StockItem.item d = i.
Proof.
  unfold getDocs_stocks. rewrite list_elem_of_filter, elem_of_map_to_list. simpl.
  tauto.
Qed.

Lemma getDocs_stocks_cases c s i :
  (getDocs_stocks c s i = [] ∧ no_row c s i) ∨
  (∃ id d rest, getDocs_stocks c s i = (id, d) :: rest ∧
                c !! id = Some d ∧ StockItem.secteurId d = s ∧ StockItem.item d = i).
Proof.
  destruct (getDocs_stocks c s i) as [|[id d] rest] eqn:E.
  - left. split; [done|]. intros id d Hl Hs Hi.
    assert (H : (id, d) ∈ getDocs_stocks c s i) by (apply elem_of_getDocs_stocks; done).
    rewrite E in H. by apply not_elem_of_nil in H.
  - right. exists id, d, rest. split; [done|].
    apply elem_of_getDocs_stocks. rewrite E. left.
Qed.

Lemma getDocs_stocks_no_row c s i :
  no_row c s i → getDocs_stocks c s i = [].
Proof.
  intros Hno. destruct (getDocs_stocks_cases c s i) as [[E _]|(id & d & rest & _ & Hl & Hs & Hi)].
  - done.
  - destruct (Hno id d Hl Hs Hi).
Qed.

Lemma getDocs_stocks_row c id d :
  stock_unique c → c !! id = Some d →
  ∃ rest, getDocs_stocks c (StockItem.secteurId d) (StockItem.item d) = (id, d) :: rest.
Proof.
  intros Hu Hl.
  destruct (getDocs_stocks_cases c (StockItem.secteurId d) (StockItem.item d))
    as [[_ Hno]|(id' & d' & rest & E & Hl' & Hs & Hi)].
  - destruct (Hno id d Hl eq_refl eq_refl).
  - assert (id' = id) as -> by (eapply Hu; eauto).
    assert (d' = d) as -> by congruence.
    by exists rest.
Qed.

Lemma balance_row c id d :
  stock_unique c → c !! id = Some d →
  balance c (StockItem.secteurId d) (StockItem.item d) = StockItem.quantity d.
Proof.
  intros Hu Hl. unfold balance.
  destruct (getDocs_stocks_row c id d Hu Hl) as [rest ->]. done.
Qed.

Lemma balance_no_row c s i : no_row c s i → balance c s i = Num 0.
Proof. intros Hno. unfold balance. by rewrite getDocs_stocks_no_row. Qed.

Lemma balance_cases c s i :
  (no_row c s i ∧ balance c s i = Num 0) ∨
  (∃ id d, c !! id = Some d ∧ StockItem.secteurId d = s ∧ StockItem.item d = i ∧
           balance c s i = StockItem.quantity d).
Proof.
  unfold balance.
  destruct (getDocs_stocks_cases c s i) as [[-> Hno]|(id & d & rest & -> & Hl & Hs & Hi)].
  - by left.
  - right. by exists id, d.
Qed.

(** Uniqueness of rows is kept by the two writes the handlers make. *)
Lemma stock_unique_update c id d d' :
  stock_unique c → c !! id = Some d →
  StockItem.secteurId d' = StockItem.secteurId d →
  StockItem.item d' = StockItem.item d →
  stock_unique (<[id := d']> c).
Proof.
  intros Hu Hl Hs Hi id1 id2 d1 d2 H1 H2 Hs12 Hi12.
  rewrite lookup_insert in H1, H2.
  destruct (decide (id = id1)) as [<-|]; destruct (decide (id = id2)) as [<-|];
    simplify_eq; try done.
  - eapply Hu; eauto; congruence.
  - eapply Hu; eauto; congruence.
  - eapply Hu; eauto.
Qed.

Lemma stock_unique_add c id s i q u now :
  stock_unique c → no_row c s i →
  stock_unique (<[id := StockItem.mk s i q u now]> c).
Proof.
  intros Hu Hno id1 id2 d1 d2 H1 H2 Hs12 Hi12.
  rewrite lookup_insert in H1, H2.
  destruct (decide (id = id1)) as [<-|]; destruct (decide (id = id2)) as [<-|];
    simplify_eq; simpl in *; try done.
  - destruct (Hno id2 d2 H2); done.
  - destruct (Hno id1 d1 H1); done.
  - eapply Hu; eauto.
Qed.

Lemma no_row_update c id d d' s i :
  no_row c s i → c !! id = Some d →
  StockItem.secteurId d' = StockItem.secteurId d →
  StockItem.item d' = StockItem.item d →
  no_row (<[id := d']> c) s i.
Proof.
  intros Hno Hl Hs Hi id1 d1 H1 Hs1 Hi1.
  rewrite lookup_insert in H1. destruct (decide (id = id1)) as [<-|]; simplify_eq.
  - eapply (Hno id d); eauto; congruence.
  - eapply Hno; eauto.
Qed.

(** ** What the crediting block does *)

Lemma creditStock_new e s i q u db :
  no_row (stocks db) s i →
  creditStock e s i q u db =
  (mkDb (<[autoId e := StockItem.mk s i q u (nowISO e)]> (stocks db))
        (stock_transfers db) (stock_additions db), Some ()).
Proof.
  intros Hno. unfold creditStock, mbind, Action_bind, queryStocks.
  rewrite getDocs_stocks_no_row by done. done.
Qed.

Lemma creditStock_existing e s i q u db id d rest :
  getDocs_stocks (stocks db) s i = (id, d) :: rest →
  creditStock e s i q u db =
  (mkDb (<[id := incrementQuantity q (nowISO e) d]> (stocks db))
        (stock_transfers db) (stock_additions db), Some ()).
Proof.
  intros E. unfold creditStock, mbind, Action_bind, queryStocks. rewrite E. simpl.
  assert (Hl : stocks db !! id = Some d).
  { apply (elem_of_getDocs_stocks _ s i). rewrite E. left. }
  unfold updateStock, updateDoc. by rewrite Hl.
Qed.

Lemma debitStock_existing e s i q db id d rest :
  getDocs_stocks (stocks db) s i = (id, d) :: rest →
  debitStock e s i q db =
  (mkDb (<[id := incrementQuantity (js_neg q) (nowISO e) d]> (stocks db))
        (stock_transfers db) (stock_additions db), Some ()).
Proof.
  intros E. unfold debitStock, mbind, Action_bind, queryStocks. rewrite E. simpl.
  assert (Hl : stocks db !! id = Some d).
  { apply (elem_of_getDocs_stocks _ s i). rewrite E. left. }
  unfold updateStock, updateDoc. by rewrite Hl.
Qed.

Lemma debitStock_no_row e s i q db :
  no_row (stocks db) s i → debitStock e s i q db = (db, Some ()).
Proof.
  intros Hno. unfold debitStock, mbind, Action_bind, queryStocks.
  rewrite getDocs_stocks_no_row by done. done.
Qed.

(** ** Confirming a transfer *)

(** C1, within the safe integers. Confirming a pending transfer of
    quantity [Q] from sector A, whose row for the item holds [a], to sector
    B, whose balance is [b] (0 when B has no row), leaves A with [a - Q] and
    B with [b + Q], when [a - Q], [b + Q] and [a + b] are at most [2 ^ 53]
    in absolute value; B has a row afterwards, the transfer is stored as
    confirmed, and the sum of the two balances is the same before and
    after. *)
Theorem confirmTransfer_moves_quantity id t e db ida da a b Q :
  stock_transfers db !! id = Some t →
  StockTransfer.status t = pending →
  StockTransfer.fromSecteurId t ≠ StockTransfer.toSecteurId t →
  StockTransfer.quantity t = Num Q →
  stock_unique (stocks db) →
  stocks db !! autoId e = None →
  stocks db !! ida = Some da →
  StockItem.secteurId da = StockTransfer.fromSecteurId t →
  StockItem.item da = StockTransfer.item t →
  StockItem.quantity da = Num a →
  balance (stocks db) (StockTransfer.toSecteurId t) (StockTransfer.item t) = Num b →
  safe_integer (a - Q) → safe_integer (b + Q) → safe_integer (a + b) →
  let A := StockTransfer.fromSecteurId t in
  let B := StockTransfer.toSecteurId t in
  let i := StockTransfer.item t in
  let r := handleConfirmTransfer id t e db in
  r.2 = Succes "Transfert confirmé" ∧
  balance (stocks r.1) A i = Num (a - Q) ∧
  balance (stocks r.1) B i = Num (b + Q) ∧
  getDocs_stocks (stocks r.1) B i ≠ [] ∧
  (StockTransfer.status <$> stock_transfers r.1 !! id) = Some confirmed ∧
  js_add (balance (stocks r.1) A i) (balance (stocks r.1) B i) =
  js_add (balance (stocks db) A i) (balance (stocks db) B i).
Proof.
  intros Hst _ Hne HQ Hu Hfresh Hla Hsa Hia Hqa Hb HsA HsB Hsum A B i r.
  assert (HbalA : balance (stocks db) A i = Num a).
  { subst A i. rewrite <- Hsa, <- Hia, <- Hqa. by apply balance_row with ida. }
  destruct (getDocs_stocks_row _ _ _ Hu Hla) as [rest E]. rewrite Hsa, Hia in E.
  set (da' := incrementQuantity (js_neg (StockTransfer.quantity t)) (nowISO e) da).
  assert (Hqa' : StockItem.quantity da' = Num (a - Q)).
  { subst da'. cbn [incrementQuantity StockItem.quantity]. rewrite Hqa, HQ.
    by apply js_sub_safe. }
  assert (Hu1 : stock_unique (<[ida := da']> (stocks db))).
  { by apply stock_unique_update with da. }
  assert (Hstep :
    ∃ c2, r = (mkDb c2 (<[id := confirmTransferDoc (serverTimestamp e) t]> (stock_transfers db))
                    (stock_additions db), Succes "Transfert confirmé") ∧
          stock_unique c2 ∧ c2 !! ida = Some da' ∧
          ∃ idb db', c2 !! idb = Some db' ∧ StockItem.secteurId db' = B ∧
                     StockItem.item db' = i ∧ StockItem.quantity db' = Num (b + Q)).
  { subst r. unfold handleConfirmTransfer, try_catch, mbind, Action_bind.
    unfold updateTransfer, updateDoc. rewrite Hst.
    rewrite (debitStock_existing _ _ _ _ _ ida da rest) by exact E.
    fold da'. cbn [stocks stock_transfers stock_additions].
    destruct (balance_cases (stocks db) B i) as [[Hno Hb0]|(idb & dbb & Hlb & Hsb & Hib & Hbq)].
    - (* B has no row: one is created *)
      assert (b = 0) as -> by (subst B i; congruence).
      rewrite creditStock_new; cbn [stocks stock_transfers stock_additions].
      2:{ by apply no_row_update with da. }
      eexists. split; [reflexivity|]. split; [|split].
      + apply stock_unique_add; [done|]. by apply no_row_update with da.
      + rewrite lookup_insert_ne; [by rewrite lookup_insert_eq|]. congruence.
      + eexists (autoId e), _. rewrite lookup_insert_eq. split; [reflexivity|].
        simpl. rewrite HQ. repeat split; done.
    - (* B has a row: it is incremented *)
      assert (Hneq : ida ≠ idb).
      { intros ->. subst A B. congruence. }
      assert (Hlb1 : <[ida := da']> (stocks db) !! idb = Some dbb)
        by (by rewrite lookup_insert_ne).
      destruct (getDocs_stocks_row _ _ _ Hu1 Hlb1) as [rest' E']. rewrite Hsb, Hib in E'.
      rewrite (creditStock_existing _ _ _ _ _ _ idb dbb rest') by exact E'.
      cbn [stocks stock_transfers stock_additions].
      eexists. split; [reflexivity|]. split; [|split].
      + by apply stock_unique_update with dbb.
      + rewrite lookup_insert_ne by done. by rewrite lookup_insert_eq.
      + eexists idb, _. rewrite lookup_insert_eq. split; [reflexivity|].
        cbn [incrementQuantity StockItem.secteurId StockItem.item StockItem.quantity].
        rewrite HQ. repeat split; try done.
        subst B i. rewrite Hb in Hbq. rewrite <- Hbq. by apply js_add_safe. }
  destruct Hstep as (c2 & -> & Hu2 & Hla2 & idb & db' & Hlb2 & Hsb2 & Hib2 & Hqb2).
  cbn [fst snd stocks stock_transfers].
  assert (HA2 : balance c2 A i = Num (a - Q)).
  { rewrite <- Hqa'. subst A i. rewrite <- Hsa, <- Hia.
    by apply (balance_row c2 ida da'). }
  assert (HB2 : balance c2 B i = Num (b + Q)).
  { rewrite <- Hqb2, <- Hsb2, <- Hib2. by apply (balance_row c2 idb db'). }
  split; [done|]. split; [done|]. split; [done|]. split; [|split].
  - destruct (getDocs_stocks_row _ _ _ Hu2 Hlb2) as [rest2 E2].
    rewrite Hsb2, Hib2 in E2. by rewrite E2.
  - by rewrite lookup_insert_eq.
  - rewrite HA2, HB2, HbalA. subst B i. rewrite Hb.
    rewrite !js_add_safe; [f_equal; lia|done|].
    by replace (a - Q + (b + Q)) with (a + b) by lia.
Qed.

(** ** Crediting an existing row *)

Lemma creditStock_row e q u db id row :
  stock_unique (stocks db) → stocks db !! id = Some row →
  creditStock e (StockItem.secteurId row) (StockItem.item row) q u db =
  (mkDb (<[id := incrementQuantity q (nowISO e) row]> (stocks db))
        (stock_transfers db) (stock_additions db), Some ()).
Proof.
  intros Hu Hl. destruct (getDocs_stocks_row _ _ _ Hu Hl) as [rest E].
  by apply creditStock_existing with rest.
Qed.

(** The debit leaves every row of another sector as it is, and keeps the
    rows unique. *)
Lemma debitStock_other e s i q db id row :
  stocks db !! id = Some row → StockItem.secteurId row ≠ s →
  ∃ c, debitStock e s i q db = (mkDb c (stock_transfers db) (stock_additions db), Some ()) ∧
       c !! id = Some row ∧ (stock_unique (stocks db) → stock_unique c).
Proof.
  intros Hl Hs.
  destruct (getDocs_stocks_cases (stocks db) s i) as [[_ Hno]|(ida & da & rest & E & Hla & Hsa & Hia)].
  - rewrite debitStock_no_row by done. exists (stocks db). by destruct db.
  - rewrite (debitStock_existing _ _ _ _ _ ida da rest) by done.
    eexists. split; [reflexivity|]. split.
    + rewrite lookup_insert_ne; [done|]. intros ->. congruence.
    + intros Hu. by apply stock_unique_update with da.
Qed.

(** C10. When the credited sector already has a row for the item, the row
    is found by sector and item alone: whatever the unit of the transfer or
    of the addition, its quantity is added to that row, whose unit (like its
    sector and item) stays as it was. *)
Theorem credit_matches_row_ignoring_unit e db idb row :
  stock_unique (stocks db) →
  stocks db !! idb = Some row →
  (∀ id t,
     is_Some (stock_transfers db !! id) →
     StockTransfer.fromSecteurId t ≠ StockTransfer.toSecteurId t →
     StockTransfer.toSecteurId t = StockItem.secteurId row →
     StockTransfer.item t = StockItem.item row →
     stocks (handleConfirmTransfer id t e db).1 !! idb =
     Some (StockItem.mk (StockItem.secteurId row) (StockItem.item row)
             (js_add (StockItem.quantity row) (StockTransfer.quantity t))
             (StockItem.unit row) (nowISO e))) ∧
  (∀ id a,
     is_Some (stock_additions db !! id) →
     StockAddition.secteurId a = StockItem.secteurId row →
     StockAddition.item a = StockItem.item row →
     stocks (handleConfirmAddition id a e db).1 !! idb =
     Some (StockItem.mk (StockItem.secteurId row) (StockItem.item row)
             (js_add (StockItem.quantity row) (StockAddition.quantity a))
             (StockItem.unit row) (nowISO e))).
Proof.
  intros Hu Hl. split.
  - intros id t [stored Hst] Hne Hto Hitem.
    unfold handleConfirmTransfer, try_catch, mbind, Action_bind.
    unfold updateTransfer, updateDoc. rewrite Hst.
    set (db1 := mkDb _ _ _).
    destruct (debitStock_other e (StockTransfer.fromSecteurId t) (StockTransfer.item t)
                (StockTransfer.quantity t) db1 idb row) as (c & -> & Hlc & Huc).
    { done. }
    { congruence. }
    rewrite Hto, Hitem.
    rewrite (creditStock_row _ _ _ _ idb row); cbn [stocks]; [|by apply Huc|done].
    cbn [fst stocks]. by rewrite lookup_insert_eq.
  - intros id a [stored Hst] Hs Hitem.
    unfold handleConfirmAddition, try_catch, mbind, Action_bind.
    unfold updateAddition, updateDoc. rewrite Hst.
    rewrite Hs, Hitem.
    rewrite (creditStock_row _ _ _ _ idb row); cbn [stocks]; [|done..].
    cbn [fst stocks]. by rewrite lookup_insert_eq.
Qed.

(** ** Requests refused by the forms *)

Lemma truthy_true s : s ≠ "" → truthy s = true.
Proof. intros H. unfold truthy. by rewrite bool_decide_eq_false_2. Qed.

Lemma js_le_zero q : q ≤ 0 → js_le (Num q) (Num 0) = true.
Proof. intros H. unfold js_le. by rewrite bool_decide_eq_true_2. Qed.

Lemma js_le_pos q : 0 < q → js_le (Num q) (Num 0) = false.
Proof. intros H. unfold js_le. rewrite bool_decide_eq_false_2; [done|lia]. Qed.

(** C8. A stock addition or a transfer request whose quantity is zero or
    negative, and a transfer request whose source and destination sectors
    are the same, is refused with a validation toast and the database is
    left exactly as it was: no pending row, no change of any stock row. *)
Theorem invalid_requests_rejected (parseInt : string → number)
    (isSuperAdmin : bool) (user : option User.t) (e : Env) (db : Db) :
  (∀ form q,
     parseInt (AddStockForm.quantity form) = Num q → q ≤ 0 →
     ∃ t, handleAddStockSubmit parseInt isSuperAdmin user form e db = (db, t)
          ∧ validationError t) ∧
  (∀ form loaded q,
     parseInt (TransferForm.quantity form) = Num q → q ≤ 0 →
     ∃ t, handleTransferSubmit parseInt isSuperAdmin user form loaded e db = (db, t)
          ∧ validationError t) ∧
  (∀ form loaded,
     transferSender isSuperAdmin user form = Some (TransferForm.toSecteurId form) →
     ∃ t, handleTransferSubmit parseInt isSuperAdmin user form loaded e db = (db, t)
          ∧ validationError t).
Proof.
  unfold validationError. split; [|split].
  - intros form q Hq Hle. unfold handleAddStockSubmit.
    destruct (_ || _); [eauto|]. rewrite Hq, js_le_zero by done. eauto 6.
  - intros form loaded q Hq Hle. unfold handleTransferSubmit.
    destruct (existsb _ _); [eauto|].
    destruct (bool_decide _); [eauto 6|]. rewrite Hq, js_le_zero by done. eauto 6.
  - intros form loaded Hsame. unfold handleTransferSubmit.
    destruct (existsb _ _); [eauto|].
    fold (transferSender isSuperAdmin user form). rewrite Hsame.
    rewrite bool_decide_eq_true_2 by done. eauto 6.
Qed.

(** ** Requests beyond the sender's stock *)

Lemma requiredFields_filled isSuperAdmin form :
  TransferForm.item form ≠ "" → TransferForm.quantity form ≠ "" →
  TransferForm.toSecteurId form ≠ "" →
  (isSuperAdmin = true → TransferForm.fromSecteurId form ≠ "") →
  existsb (λ field, negb (truthy field))
    (if isSuperAdmin
     then [TransferForm.item form; TransferForm.quantity form;
           TransferForm.toSecteurId form; TransferForm.fromSecteurId form]
     else [TransferForm.item form; TransferForm.quantity form;
           TransferForm.toSecteurId form]) = false.
Proof.
  intros Hi Hq Ht Hf. destruct isSuperAdmin; simpl;
    rewrite ?truthy_true; auto.
Qed.

Lemma stockQuery_rows_of isSuperAdmin selectedSecteur user c loaded s i :
  loaded ≡ₚ stockQuery isSuperAdmin selectedSecteur user c →
  (if isSuperAdmin then selectedSecteur = "all" ∨ selectedSecteur = s
   else user_fermeId user = Some s) →
  loaded_rows_of loaded c s i.
Proof.
  intros Hperm Hview id d Hs Hi. rewrite Hperm. unfold stockQuery.
  destruct isSuperAdmin.
  - case_bool_decide as Hall; [apply elem_of_map_to_list|].
    destruct Hview as [Hv|Hv]; [done|]. subst selectedSecteur.
    rewrite list_elem_of_filter, elem_of_map_to_list. simpl. tauto.
  - rewrite Hview. simpl.
    rewrite list_elem_of_filter, elem_of_map_to_list. simpl. tauto.
Qed.

Lemma find_sender_row loaded from i :
  List.find (λ s : string * StockItem.t,
               bool_decide (Some (StockItem.secteurId s.2) = Some from)
               && bool_decide (StockItem.item s.2 = i)) loaded
  = List.find (λ row : string * StockItem.t,
                 bool_decide (StockItem.secteurId row.2 = from)
                 && bool_decide (StockItem.item row.2 = i)) loaded.
Proof.
  induction loaded as [|x l IH]; [done|]. cbn [List.find]. rewrite IH.
  assert (Hx : bool_decide (Some (StockItem.secteurId x.2) = Some from)
               = bool_decide (StockItem.secteurId x.2 = from)).
  { apply bool_decide_ext. split; congruence. }
  by rewrite Hx.
Qed.

(** When the list shows the sender's rows of the store, the quantity it
    shows is the sender's balance. *)
Lemma loadedQuantity_balance loaded c s i :
  stock_unique c → loaded_rows_of loaded c s i →
  loadedQuantity loaded s i = js_or_zero (balance c s i).
Proof.
  intros Hu Hload. unfold loadedQuantity.
  set (p := λ row : string * StockItem.t,
         bool_decide (StockItem.secteurId row.2 = s) && bool_decide (StockItem.item row.2 = i)).
  assert (Hp : ∀ x, p x = true ↔ StockItem.secteurId x.2 = s ∧ StockItem.item x.2 = i).
  { intros x. unfold p. by rewrite andb_true_iff, !bool_decide_eq_true. }
  destruct (balance_cases c s i) as [[Hno ->]|(id & d & Hl & Hs & Hit & ->)].
  - (* the sender has no row *)
    destruct (List.find p loaded) as [[id d]|] eqn:E; [|done].
    apply find_some in E as [Hin Hpx]. apply Hp in Hpx as [Hs Hit]. simpl in *.
    apply list_elem_of_In, Hload in Hin; [|done..].
    destruct (Hno id d Hin Hs Hit).
  - (* the sender has a row *)
    destruct (List.find p loaded) as [[id' d']|] eqn:E.
    + apply find_some in E as [Hin Hpx]. apply Hp in Hpx as [Hs' Hit']. simpl in *.
      apply list_elem_of_In, Hload in Hin; [|done..].
      assert (id' = id) as -> by (eapply Hu; eauto; congruence).
      by assert (d' = d) as -> by congruence.
    + exfalso. eapply find_none in E.
      2:{ apply list_elem_of_In, (Hload id d); done. }
      assert (p (id, d) = true) by (apply Hp; done). congruence.
Qed.

(** C3, as the code has it. A transfer request that passes the form's
    validation and asks for more than the page's loaded list shows for the
    sender's row of the item (0 when the list has no such row) is refused
    with the "Stock insuffisant" toast, which reports that loaded quantity,
    and the database is left as it was: no pending transfer is created. The
    loaded quantity is the sender's quantity in the store (0 without a row)
    when the list shows the sender's rows of the store, as the list of a
    sector admin does, and the list of a super admin whose sector filter is
    "all" or the sender's sector. *)
Theorem createTransfer_insufficient_stock (parseInt : string → number)
    isSuperAdmin user form loaded e db from q :
  TransferForm.item form ≠ "" → TransferForm.quantity form ≠ "" →
  TransferForm.toSecteurId form ≠ "" →
  (isSuperAdmin = true → TransferForm.fromSecteurId form ≠ "") →
  transferSender isSuperAdmin user form = Some from →
  TransferForm.toSecteurId form ≠ from →
  parseInt (TransferForm.quantity form) = Num q → 0 < q →
  (∀ row, row ∈ loaded → StockItem.quantity row.2 ≠ NaN) →
  loadedQuantity loaded from (TransferForm.item form) < q →
  handleTransferSubmit parseInt isSuperAdmin user form loaded e db =
  (db, StockInsuffisant (loadedQuantity loaded from (TransferForm.item form))
                        (TransferForm.unit form)) ∧
  (stock_unique (stocks db) →
   loaded_rows_of loaded (stocks db) from (TransferForm.item form) →
   loadedQuantity loaded from (TransferForm.item form)
   = js_or_zero (balance (stocks db) from (TransferForm.item form))) ∧
  (∀ selectedSecteur,
     loaded ≡ₚ stockQuery isSuperAdmin selectedSecteur user (stocks db) →
     (isSuperAdmin = true → selectedSecteur = "all" ∨ selectedSecteur = from) →
     loaded_rows_of loaded (stocks db) from (TransferForm.item form)).
Proof.
  intros Hi Hqs Ht Hf Hfrom Hne Hq Hpos Hnum Hlt. split; [|split].
  - unfold handleTransferSubmit.
    rewrite requiredFields_filled by done.
    fold (transferSender isSuperAdmin user form). rewrite Hfrom.
    rewrite bool_decide_eq_false_2 by congruence.
    rewrite Hq, js_le_pos by done.
    rewrite find_sender_row. unfold loadedQuantity in *.
    destruct (List.find _ loaded) as [row|] eqn:E; [|done].
    apply find_some in E as [Hin _]. apply list_elem_of_In, Hnum in Hin.
    destruct (StockItem.quantity row.2) as [a|]; [|done].
    cbn [js_or_zero] in *. unfold js_lt. by rewrite bool_decide_eq_true_2.
  - apply loadedQuantity_balance.
  - intros selectedSecteur Hperm Hview.
    apply (stockQuery_rows_of isSuperAdmin selectedSecteur user); [done|].
    destruct isSuperAdmin; [by apply Hview|exact Hfrom].
Qed.

(** ** The two stock writes, seen from outside *)

Lemma debitStock_effect e s i q db :
  ∃ c, debitStock e s i q db = (mkDb c (stock_transfers db) (stock_additions db), Some ()) ∧
       ((no_row (stocks db) s i ∧ c = stocks db) ∨
        (∃ id d, stocks db !! id = Some d ∧ StockItem.secteurId d = s ∧
                 StockItem.item d = i ∧ balance (stocks db) s i = StockItem.quantity d ∧
                 c = <[id := incrementQuantity (js_neg q) (nowISO e) d]> (stocks db))).
Proof.
  destruct (getDocs_stocks_cases (stocks db) s i)
    as [[_ Hno]|(id & d & rest & E & Hl & Hs & Hi)].
  - rewrite debitStock_no_row by done. exists (stocks db). split; [by destruct db|].
    by left.
  - rewrite (debitStock_existing _ _ _ _ _ id d rest) by done.
    eexists. split; [reflexivity|]. right. exists id, d.
    unfold balance. rewrite E. done.
Qed.

Lemma creditStock_effect e s i q u db :
  ∃ c, creditStock e s i q u db = (mkDb c (stock_transfers db) (stock_additions db), Some ()) ∧
       ((no_row (stocks db) s i ∧
         c = <[autoId e := StockItem.mk s i q u (nowISO e)]> (stocks db)) ∨
        (∃ id d, stocks db !! id = Some d ∧ StockItem.secteurId d = s ∧
                 StockItem.item d = i ∧
                 c = <[id := incrementQuantity q (nowISO e) d]> (stocks db))).
Proof.
  destruct (getDocs_stocks_cases (stocks db) s i)
    as [[_ Hno]|(id & d & rest & E & Hl & Hs & Hi)].
  - rewrite creditStock_new by done. eexists. split; [reflexivity|]. by left.
  - rewrite (creditStock_existing _ _ _ _ _ _ id d rest) by done.
    eexists. split; [reflexivity|]. right. by exists id, d.
Qed.

(** A confirmation either stops at its first write, the record being absent
    from the store, or marks the record confirmed and goes on to the stock
    rows. *)
Lemma handleConfirmTransfer_cases id t e db :
  (stock_transfers db !! id = None ∧
   handleConfirmTransfer id t e db = (db, Erreur "Impossible de confirmer le transfert")) ∨
  (∃ stored c1 c2,
     stock_transfers db !! id = Some stored ∧
     let db1 := mkDb (stocks db)
                     (<[id := confirmTransferDoc (serverTimestamp e) stored]> (stock_transfers db))
                     (stock_additions db) in
     debitStock e (StockTransfer.fromSecteurId t) (StockTransfer.item t)
                (StockTransfer.quantity t) db1
     = (mkDb c1 (stock_transfers db1) (stock_additions db1), Some ()) ∧
     creditStock e (StockTransfer.toSecteurId t) (StockTransfer.item t)
                 (StockTransfer.quantity t) (StockTransfer.unit t)
                 (mkDb c1 (stock_transfers db1) (stock_additions db1))
     = (mkDb c2 (stock_transfers db1) (stock_additions db1), Some ()) ∧
     handleConfirmTransfer id t e db =
     (mkDb c2 (stock_transfers db1) (stock_additions db1), Succes "Transfert confirmé")).
Proof.
  unfold handleConfirmTransfer, try_catch, mbind, Action_bind.
  unfold updateTransfer, updateDoc.
  destruct (stock_transfers db !! id) as [stored|] eqn:Hst; [right|by left].
  set (db1 := mkDb _ _ _).
  destruct (debitStock_effect e (StockTransfer.fromSecteurId t) (StockTransfer.item t)
              (StockTransfer.quantity t) db1) as (c1 & E1 & _).
  destruct (creditStock_effect e (StockTransfer.toSecteurId t) (StockTransfer.item t)
              (StockTransfer.quantity t) (StockTransfer.unit t)
              (mkDb c1 (stock_transfers db1) (stock_additions db1))) as (c2 & E2 & _).
  exists stored, c1, c2. split; [done|]. cbv zeta. fold db1.
  split; [exact E1|]. split; [exact E2|]. rewrite E1, E2. done.
Qed.

Lemma handleConfirmAddition_cases id a e db :
  (stock_additions db !! id = None ∧
   handleConfirmAddition id a e db = (db, Erreur "Impossible de confirmer l'ajout")) ∨
  (∃ stored c2,
     stock_additions db !! id = Some stored ∧
     let db1 := mkDb (stocks db) (stock_transfers db)
                     (<[id := confirmAdditionDoc (serverTimestamp e) stored]> (stock_additions db)) in
     creditStock e (StockAddition.secteurId a) (StockAddition.item a)
                 (StockAddition.quantity a) (StockAddition.unit a) db1
     = (mkDb c2 (stock_transfers db1) (stock_additions db1), Some ()) ∧
     handleConfirmAddition id a e db =
     (mkDb c2 (stock_transfers db1) (stock_additions db1), Succes "Ajout confirmé")).
Proof.
  unfold handleConfirmAddition, try_catch, mbind, Action_bind.
  unfold updateAddition, updateDoc.
  destruct (stock_additions db !! id) as [stored|] eqn:Hst; [right|by left].
  set (db1 := mkDb _ _ _).
  destruct (creditStock_effect e (StockAddition.secteurId a) (StockAddition.item a)
              (StockAddition.quantity a) (StockAddition.unit a) db1) as (c2 & E2 & _).
  exists stored, c2. split; [done|]. cbv zeta. fold db1.
  split; [exact E2|]. rewrite E2. done.
Qed.

(** ** Records already confirmed *)

(** C2, as the code has it. A record in the confirmed state is not offered
    for confirmation: [pendingIncomingTransfers] and [pendingAdditions] list
    pending records only; a confirmation that goes through stores the
    record as confirmed, with its time, so that no list loaded from the
    store afterwards offers it again. *)
Theorem confirmed_records_not_offered :
  (∀ user transfers id t,
     (id, t) ∈ pendingIncomingTransfers user transfers →
     StockTransfer.status t = pending) ∧
  (∀ stockAdditions id a,
     (id, a) ∈ pendingAdditions stockAdditions →
     StockAddition.status a = pending) ∧
  (∀ id t e db user transfers t',
     is_Some (stock_transfers db !! id) →
     let db' := (handleConfirmTransfer id t e db).1 in
     (StockTransfer.status <$> stock_transfers db' !! id) = Some confirmed ∧
     (StockTransfer.confirmedAt <$> stock_transfers db' !! id) = Some (Some (serverTimestamp e)) ∧
     (loaded_from transfers (stock_transfers db') →
      (id, t') ∉ pendingIncomingTransfers user transfers)) ∧
  (∀ id a e db stockAdditions a',
     is_Some (stock_additions db !! id) →
     let db' := (handleConfirmAddition id a e db).1 in
     (StockAddition.status <$> stock_additions db' !! id) = Some confirmed ∧
     (StockAddition.confirmedAt <$> stock_additions db' !! id) = Some (Some (serverTimestamp e)) ∧
     (loaded_from stockAdditions (stock_additions db') →
      (id, a') ∉ pendingAdditions stockAdditions)).
Proof.
  split; [|split; [|split]].
  - intros user transfers id t Hin.
    unfold pendingIncomingTransfers in Hin. apply list_elem_of_filter in Hin. tauto.
  - intros stockAdditions id a Hin.
    unfold pendingAdditions in Hin. by apply list_elem_of_filter in Hin as [? _].
  - intros id t e db user transfers t' [stored Hst] db'.
    destruct (handleConfirmTransfer_cases id t e db)
      as [[Hnone _]|(stored' & c1 & c2 & Hst' & _ & _ & Hrun)]; [congruence|].
    subst db'. rewrite Hrun. cbn [fst stock_transfers].
    rewrite lookup_insert_eq. split; [done|]. split; [done|].
    intros Hload Hin. unfold pendingIncomingTransfers in Hin.
    apply list_elem_of_filter in Hin as [[Hp _] Hin]. apply Hload in Hin.
    cbn [fst stock_transfers] in Hin.
    rewrite lookup_insert_eq in Hin. by simplify_eq.
  - intros id a e db stockAdditions a' [stored Hst] db'.
    destruct (handleConfirmAddition_cases id a e db)
      as [[Hnone _]|(stored' & c2 & Hst' & _ & Hrun)]; [congruence|].
    subst db'. rewrite Hrun. cbn [fst stock_additions].
    rewrite lookup_insert_eq. split; [done|]. split; [done|].
    intros Hload Hin. unfold pendingAdditions in Hin.
    apply list_elem_of_filter in Hin as [Hp Hin]. apply Hload in Hin.
    cbn [fst stock_additions] in Hin.
    rewrite lookup_insert_eq in Hin. by simplify_eq.
Qed.

(** ** Non-negative quantities *)

Lemma stock_nonneg_insert c id d z :
  stock_nonneg c → StockItem.quantity d = Num z → 0 ≤ z →
  stock_nonneg (<[id := d]> c).
Proof.
  intros Hc Hq Hz id' d' Hl. rewrite lookup_insert in Hl.
  destruct (decide (id = id')); simplify_eq; eauto.
Qed.

Lemma transfers_positive_insert c id t z :
  transfers_positive c → StockTransfer.quantity t = Num z → 0 < z →
  transfers_positive (<[id := t]> c).
Proof.
  intros Hc Hq Hz id' d' Hl. rewrite lookup_insert in Hl.
  destruct (decide (id = id')); simplify_eq; eauto.
Qed.

Lemma additions_positive_insert c id a z :
  additions_positive c → StockAddition.quantity a = Num z → 0 < z →
  additions_positive (<[id := a]> c).
Proof.
  intros Hc Hq Hz id' d' Hl. rewrite lookup_insert in Hl.
  destruct (decide (id = id')); simplify_eq; eauto.
Qed.

(** Crediting a non-negative amount keeps the rows non-negative. *)
Lemma creditStock_nonneg e s i z u db c :
  stock_nonneg (stocks db) → 0 ≤ z →
  creditStock e s i (Num z) u db = (mkDb c (stock_transfers db) (stock_additions db), Some ()) →
  stock_nonneg c.
Proof.
  intros Hc Hz Hrun.
  destruct (creditStock_effect e s i (Num z) u db) as (c' & E & Hc').
  rewrite E in Hrun. injection Hrun as <-.
  destruct Hc' as [[_ ->]|(id & d & Hl & _ & _ & ->)].
  - by apply stock_nonneg_insert with z.
  - destruct (Hc id d Hl) as (a & Ha & Hapos).
    destruct (js_add_nonneg a z) as (w & Hw & Hwpos); [lia|].
    apply stock_nonneg_insert with w; [done| |done].
    cbn [incrementQuantity StockItem.quantity]. by rewrite Ha.
Qed.

(** Debiting an amount the sender's row covers keeps the rows non-negative. *)
Lemma debitStock_nonneg e s i z db c :
  stock_nonneg (stocks db) → 0 ≤ z →
  no_row (stocks db) s i ∨ js_le (Num z) (balance (stocks db) s i) = true →
  debitStock e s i (Num z) db = (mkDb c (stock_transfers db) (stock_additions db), Some ()) →
  stock_nonneg c.
Proof.
  intros Hc Hz Hcov Hrun.
  destruct (debitStock_effect e s i (Num z) db) as (c' & E & Hc').
  rewrite E in Hrun. injection Hrun as <-.
  destruct Hc' as [[_ ->]|(id & d & Hl & Hs & Hi & Hbal & ->)]; [done|].
  destruct Hcov as [Hno|Hle]; [destruct (Hno id d Hl Hs Hi)|].
  destruct (Hc id d Hl) as (a & Ha & Hapos).
  rewrite Hbal, Ha in Hle. unfold js_le in Hle. apply bool_decide_eq_true in Hle.
  destruct (js_add_nonneg a (- z)) as (w & Hw & Hwpos); [lia|].
  apply stock_nonneg_insert with w; [done| |done].
  cbn [incrementQuantity StockItem.quantity js_neg]. by rewrite Ha.
Qed.

Lemma js_le_zero_false q : q ≠ NaN → js_le q (Num 0) = false → ∃ z, q = Num z ∧ 0 < z.
Proof.
  intros Hq Hle. destruct q as [z|]; [|done]. exists z. split; [done|].
  unfold js_le in Hle. apply bool_decide_eq_false in Hle. lia.
Qed.

Section Steps.

Variable parseInt : string → number.

(** A covered step keeps the invariant of the ledger. *)
Lemma step_keeps_ledger_inv db l db' :
  step parseInt db l db' → covered db l → ledger_inv db → ledger_inv db'.
Proof.
  intros Hstep Hcov (Hs & Ht & Ha). destruct Hstep; simpl in Hcov.
  - (* handleAddStockSubmit *)
    unfold handleAddStockSubmit.
    destruct (_ || _); [done|].
    destruct (js_le _ _) eqn:Hle; [done|].
    destruct (js_le_zero_false _ Hcov Hle) as (z & -> & Hz).
    destruct isSuperAdmin.
    + unfold try_catch. destruct (user_uid user) as [uid|]; [|done].
      unfold addAdditionDoc, addDoc. cbn [fst].
      split; [done|]. split; [done|]. cbn [stock_additions].
      by apply additions_positive_insert with z.
    + unfold try_catch. destruct (user_fermeId user) as [fermeId|]; [|done].
      destruct (creditStock_effect e fermeId (AddStockForm.item form) (Num z)
                  (AddStockForm.unit form) db) as (c & E & _).
      rewrite E. cbn [fst]. split; [|done]. cbn [stocks].
      eapply creditStock_nonneg; [exact Hs| |exact E]. lia.
  - (* handleConfirmAddition *)
    assert (Hstored : stock_additions db !! id = Some addition).
    { apply H. unfold pendingAdditions in H0. by apply list_elem_of_filter in H0 as [_ ?]. }
    destruct (Ha id addition Hstored) as (z & Hq & Hz).
    destruct (handleConfirmAddition_cases id addition e db)
      as [[_ ->]|(stored & c2 & Hst & E & ->)]; [done|].
    cbv zeta in E. cbn [fst stocks stock_transfers stock_additions] in *.
    rewrite Hq in E. split; [|split; [done|]].
    + eapply creditStock_nonneg; [| |exact E]; [done|lia].
    + simplify_eq. apply additions_positive_insert with z; done.
  - (* handleTransferSubmit *)
    unfold handleTransferSubmit.
    destruct (existsb _ _); [done|].
    destruct (bool_decide _); [done|].
    destruct (js_le _ _) eqn:Hle; [done|].
    destruct (js_le_zero_false _ Hcov Hle) as (z & -> & Hz).
    destruct (List.find _ _) as [s|]; [|done].
    destruct (if isSuperAdmin then _ else _) as [from|]; [|done].
    destruct (js_lt _ _); [done|].
    unfold try_catch, addTransferDoc, addDoc. cbn [fst].
    split; [done|]. split; [|done]. cbn [stock_transfers].
    by apply transfers_positive_insert with z.
  - (* handleConfirmTransfer *)
    assert (Hstored : stock_transfers db !! id = Some transfer).
    { apply H. unfold pendingIncomingTransfers in H0.
      by apply list_elem_of_filter in H0 as [_ ?]. }
    destruct (Ht id transfer Hstored) as (z & Hq & Hz).
    destruct (handleConfirmTransfer_cases id transfer e db)
      as [[_ ->]|(stored & c1 & c2 & Hst & E1 & E2 & ->)]; [done|].
    cbv zeta in E1, E2. cbn [fst stocks stock_transfers stock_additions] in *.
    rewrite Hq in E1, E2, Hcov.
    assert (Hc1 : stock_nonneg c1).
    { eapply debitStock_nonneg; [| | |exact E1]; [done|lia|done]. }
    split; [|split; [|done]].
    + eapply creditStock_nonneg; [| |exact E2]; [done|lia].
    + simplify_eq. apply transfers_positive_insert with z; done.
Qed.

Lemma reaches_covered_ledger_inv db0 db :
  ledger_inv db0 → reaches_covered parseInt db0 db → ledger_inv db.
Proof.
  intros H0 Hr. induction Hr as [|l db1 db2 _ IH Hstep Hcov]; [done|].
  by apply (step_keeps_ledger_inv db1 l db2).
Qed.

(** C4, as the code has it. From a store whose stock rows hold
    non-negative integers and whose transfers and additions hold positive
    ones (the empty store is one), every stock row holds a non-negative
    integer after any sequence of stock additions, confirmed additions,
    transfer requests and confirmed transfers in which each form's
    quantity parses to a number and each confirmed transfer finds its
    quantity covered by the sender's row, or finds no sender row. *)
Theorem quantities_stay_nonneg db0 db :
  ledger_inv db0 → reaches_covered parseInt db0 db → stock_nonneg (stocks db).
Proof.
  intros H0 Hr. by destruct (reaches_covered_ledger_inv db0 db H0 Hr) as [? _].
Qed.

End Steps.

(** ** One row per sector and item

    The uniqueness the properties above assume is kept by every step of the
    page, so it holds in every state reached from the empty store. *)

Lemma creditStock_unique e s i q u db c :
  stock_unique (stocks db) →
  creditStock e s i q u db = (mkDb c (stock_transfers db) (stock_additions db), Some ()) →
  stock_unique c.
Proof.
  intros Hu Hrun.
  destruct (creditStock_effect e s i q u db) as (c' & E & Hc').
  rewrite E in Hrun. injection Hrun as <-.
  destruct Hc' as [[Hno ->]|(id & d & Hl & _ & _ & ->)].
  - by apply stock_unique_add.
  - by apply stock_unique_update with d.
Qed.

Lemma debitStock_unique e s i q db c :
  stock_unique (stocks db) →
  debitStock e s i q db = (mkDb c (stock_transfers db) (stock_additions db), Some ()) →
  stock_unique c.
Proof.
  intros Hu Hrun.
  destruct (debitStock_effect e s i q db) as (c' & E & Hc').
  rewrite E in Hrun. injection Hrun as <-.
  destruct Hc' as [[_ ->]|(id & d & Hl & _ & _ & _ & ->)]; [done|].
  by apply stock_unique_update with d.
Qed.

Lemma step_keeps_stock_unique parseInt db l db' :
  step parseInt db l db' → stock_unique (stocks db) → stock_unique (stocks db').
Proof.
  intros Hstep Hu. destruct Hstep.
  - unfold handleAddStockSubmit.
    destruct (_ || _); [done|]. destruct (js_le _ _); [done|].
    destruct isSuperAdmin; unfold try_catch.
    + by destruct (user_uid user).
    + destruct (user_fermeId user) as [fermeId|]; [|done].
      destruct (creditStock_effect e fermeId (AddStockForm.item form)
                  (parseInt (AddStockForm.quantity form))
                  (AddStockForm.unit form) db) as (c & E & _).
      rewrite E. cbn [fst stocks]. eapply creditStock_unique; [|exact E]. exact Hu.
  - destruct (handleConfirmAddition_cases id addition e db)
      as [[_ ->]|(stored & c2 & _ & E & ->)]; [done|].
    cbv zeta in E. cbn [fst stocks].
    eapply creditStock_unique; [|exact E]. exact Hu.
  - unfold handleTransferSubmit.
    destruct (existsb _ _); [done|]. destruct (bool_decide _); [done|].
    destruct (js_le _ _); [done|]. destruct (List.find _ _) as [s|]; [|done].
    destruct (if isSuperAdmin then _ else _) as [from|]; [|done].
    by destruct (js_lt _ _).
  - destruct (handleConfirmTransfer_cases id transfer e db)
      as [[_ ->]|(stored & c1 & c2 & _ & E1 & E2 & ->)]; [done|].
    cbv zeta in E1, E2. cbn [fst stocks].
    assert (Hc1 : stock_unique c1).
    { eapply debitStock_unique; [|exact E1]. exact Hu. }
    eapply creditStock_unique; [|exact E2]. exact Hc1.
Qed.

Lemma reaches_stock_unique parseInt db :
  reaches parseInt emptyDb db → stock_unique (stocks db).
Proof.
  induction 1 as [|l db1 db2 _ IH Hstep].
  - intros id1 id2 d1 d2 H1. cbn in H1. by rewrite lookup_empty in H1.
  - by apply (step_keeps_stock_unique parseInt db1 l db2).
Qed.

Lemma ledger_inv_empty : ledger_inv emptyDb.
Proof. repeat split; intros id d Hl; cbn in Hl; by rewrite lookup_empty in Hl. Qed.

(** Rows whose (sector, item) pairs are pairwise different are unique. *)
Lemma stock_unique_NoDup c :
  NoDup ((λ kd : string * StockItem.t, (StockItem.secteurId kd.2, StockItem.item kd.2))
           <$> map_to_list c) →
  stock_unique c.
Proof.
  intros Hnd id1 id2 d1 d2 H1 H2 Hs Hi.
  apply elem_of_map_to_list in H1, H2.
  apply list_elem_of_lookup in H1 as [n1 H1], H2 as [n2 H2].
  assert (n1 = n2) as ->.
  { eapply NoDup_lookup; [exact Hnd| |].
    - rewrite list_lookup_fmap, H1. reflexivity.
    - rewrite list_lookup_fmap, H2. simpl. by rewrite Hs, Hi. }
  congruence.
Qed.

(** The page's list shows the sender's rows when the page is that of the
    sender's admin, or that of a super admin looking at all sectors or at
    the sender's. *)
Lemma loaded_from_stockQuery isSuperAdmin selectedSecteur user c :
  loaded_from (stockQuery isSuperAdmin selectedSecteur user c) c.
Proof.
  intros id d. unfold stockQuery. destruct isSuperAdmin; [case_bool_decide|];
    rewrite ?list_elem_of_filter, elem_of_map_to_list; tauto.
Qed.

Lemma loaded_from_map_to_list {A} (c : gmap string A) : loaded_from (map_to_list c) c.
Proof. intros id d. apply elem_of_map_to_list. Qed.


(** * Properties of the occupancy code *)

Lemma filter_iff_elem {A} (P1 P2 : A → Prop)
    `{!∀ x, Decision (P1 x), !∀ x, Decision (P2 x)} (l : list A) :
  (∀ x, x ∈ l → P1 x ↔ P2 x) → filter P1 l = filter P2 l.
Proof.
  induction l as [|a l IH]; intros Hiff; [done|].
  assert (Ha : P1 a ↔ P2 a) by (apply Hiff; left).
  assert (Hl : filter P1 l = filter P2 l).
  { apply IH. intros x Hx. apply Hiff. by right. }
  destruct (decide (P1 a)).
  - rewrite !filter_cons_True by tauto. by rewrite Hl.
  - rewrite !filter_cons_False by tauto. done.
Qed.

Lemma omap_all_None {A B} (f : A → option B) (l : list A) :
  (∀ x, x ∈ l → f x = None) → omap f l = [].
Proof.
  induction l as [|a l IH]; intros Hall; [done|]. simpl.
  rewrite (Hall a) by left. apply IH. intros x Hx. apply Hall. by right.
Qed.

(** ** Keys built from template strings *)

Lemma string_length_app s t :
  String.length (s +:+ t) = (String.length s + String.length t)%nat.
Proof. induction s as [|c s IH]; simpl; [done|]. by rewrite IH. Qed.

Lemma string_app_cons c s t : String c s +:+ t = String c (s +:+ t).
Proof. reflexivity. Qed.

Lemma string_app_empty t : "" +:+ t = t.
Proof. reflexivity. Qed.

(** Two texts that end in tails of the same length are equal part by part. *)
Lemma string_app_inj_tail s1 s2 t1 t2 :
  String.length t1 = String.length t2 →
  s1 +:+ t1 = s2 +:+ t2 → s1 = s2 ∧ t1 = t2.
Proof.
  intros Hlen. revert s2. induction s1 as [|c s1 IH]; intros [|c' s2] E.
  - done.
  - exfalso. apply (f_equal String.length) in E.
    rewrite !string_length_app in E. simpl in E. lia.
  - exfalso. apply (f_equal String.length) in E.
    rewrite !string_length_app in E. simpl in E. lia.
  - rewrite !string_app_cons in E. injection E as -> E.
    destruct (IH _ E) as [-> ->]. done.
Qed.

(** Two texts that start with dash-free heads closed by a dash are equal
    part by part. *)
Lemma string_app_inj_dash f1 f2 r1 r2 :
  dash_free f1 → dash_free f2 →
  f1 +:+ "-" +:+ r1 = f2 +:+ "-" +:+ r2 → f1 = f2 ∧ r1 = r2.
Proof.
  revert f2. induction f1 as [|c f1 IH]; intros [|c' f2] H1 H2 E;
    rewrite ?string_app_cons, ?string_app_empty in E; simpl in H1, H2.
  - by injection E as ->.
  - injection E as <- _. by destruct H2.
  - injection E as -> _. by destruct H1.
  - injection E as -> E. destruct H1 as [_ H1], H2 as [_ H2].
    destruct (IH _ H1 H2 E) as [-> ->]. done.
Qed.

Lemma genre_text_length g : String.length (genre_text g) = 6%nat.
Proof. by destruct g. Qed.

Lemma genre_text_inj g1 g2 : genre_text g1 = genre_text g2 → g1 = g2.
Proof. by destruct g1, g2. Qed.

Lemma statKey_inj c1 g1 c2 g2 :
  statKey c1 g1 = statKey c2 g2 ↔ c1 = c2 ∧ g1 = g2.
Proof.
  split; [|by intros [-> ->]]. unfold statKey. intros E.
  apply string_app_inj_tail in E as [-> E].
  - rewrite !string_app_cons, !string_app_empty in E.
    injection E as E. by apply genre_text_inj in E as ->.
  - rewrite !string_length_app, !genre_text_length. done.
Qed.

(** With dash-free farm ids, equal keys are equal farm, room number and
    gender. *)
Lemma workerKey_roomKey w r :
  dash_free (Worker.fermeId w) → dash_free (Room.fermeId r) →
  workerKey w = roomKey r ↔
  Worker.fermeId w = Room.fermeId r ∧ Worker.chambre w = Room.numero r
  ∧ workerGender w = Room.genre r.
Proof.
  intros Hw Hr. unfold workerKey, roomKey. split.
  - intros E. apply string_app_inj_dash in E as [-> E]; [|done..].
    apply (statKey_inj (Worker.chambre w) _ (Room.numero r)) in E as [-> ->]. done.
  - by intros (-> & -> & ->).
Qed.

(** ** The groups of workers *)

Lemma eligible_spec w :
  bool_decide (Worker.statut w = actif) && truthy (Worker.chambre w)
  && truthy (Worker.fermeId w) = true ↔
  Worker.statut w = actif ∧ Worker.chambre w ≠ "" ∧ Worker.fermeId w ≠ "".
Proof.
  unfold truthy. rewrite !andb_true_iff, !negb_true_iff, bool_decide_eq_true,
    !bool_decide_eq_false. tauto.
Qed.

Lemma workersByRoom_fold workers (acc : gmap string (list Worker.t)) key :
  default [] (foldl (λ (acc : gmap string (list Worker.t)) worker,
                       if bool_decide (Worker.statut worker = actif)
                          && truthy (Worker.chambre worker) && truthy (Worker.fermeId worker)
                       then
                         let key := workerKey worker in
                         <[key := (default [] (acc !! key) ++ [worker])%list]> acc
                       else acc) acc workers !! key)
  = (default [] (acc !! key)
     ++ filter (λ w, (Worker.statut w = actif ∧ Worker.chambre w ≠ "" ∧ Worker.fermeId w ≠ "")
                     ∧ workerKey w = key) workers)%list.
Proof.
  revert acc. induction workers as [|w ws IH]; intros acc; simpl.
  - by rewrite app_nil_r.
  - rewrite IH. destruct (_ && _) eqn:Hel.
    + apply eligible_spec in Hel. cbv zeta.
      destruct (decide (workerKey w = key)) as [<-|Hne].
      * rewrite lookup_insert_eq. simpl. rewrite filter_cons_True by done.
        by rewrite <- app_assoc.
      * rewrite lookup_insert_ne by done. rewrite filter_cons_False; [done|]. tauto.
    + rewrite filter_cons_False; [done|]. intros [Hel' _].
      apply eligible_spec in Hel'. congruence.
Qed.

Lemma workersByRoom_room workers r :
  default [] (workersByRoom workers !! roomKey r) = keyOccupants workers r.
Proof. unfold workersByRoom. rewrite workersByRoom_fold, lookup_empty. done. Qed.

(** For a room with a number and a farm, and dash-free farm ids, the code
    finds the occupants the specification states. *)
Lemma keyOccupants_true workers r :
  dash_free (Room.fermeId r) →
  Forall (λ w, dash_free (Worker.fermeId w)) workers →
  Room.numero r ≠ "" → Room.fermeId r ≠ "" →
  keyOccupants workers r = trueOccupants workers r.
Proof.
  intros Hr Hws Hn Hf. unfold keyOccupants, trueOccupants.
  rewrite Forall_forall in Hws.
  apply filter_iff_elem. intros w Hw. simpl.
  rewrite (workerKey_roomKey w r) by auto.
  split.
  - intros [(? & ? & ?) (? & ? & ?)]. done.
  - intros (? & Hc & ? & Hfw). rewrite Hc, Hfw. done.
Qed.

(** ** One pass of the synchronisation *)

Lemma correctionFor_id now groups room id p :
  correctionFor now groups room = Some (id, p) → id = room.1.
Proof. unfold correctionFor. case_bool_decide; [|done]. by intros [= <- _]. Qed.

Lemma correctionFor_Some now groups room :
  is_Some (correctionFor now groups room) ↔
  Room.occupantsActuels room.2 ≠ Z.of_nat (length (default [] (groups !! roomKey room.2))).
Proof.
  unfold correctionFor. case_bool_decide as Hd.
  - split; [done|]. by eexists.
  - split; [by intros [? ?]|done].
Qed.

Lemma syncRoom_eq updateRoom now groups state room :
  syncRoom updateRoom now groups state room =
  match correctionFor now groups room with
  | Some (id, partialData) =>
      (match updateRoom id partialData state.1 with
       | Some store' => store'
       | None => state.1
       end, (state.2 ++ [(id, partialData)])%list)
  | None => state
  end.
Proof. unfold syncRoom, correctionFor. by case_bool_decide. Qed.

(** The corrections of a pass are those of its rooms, in order. *)
Lemma syncRoom_fold_corrections updateRoom now groups rooms state :
  (foldl (syncRoom updateRoom now groups) state rooms).2
  = (state.2 ++ omap (correctionFor now groups) rooms)%list.
Proof.
  revert state. induction rooms as [|room rooms IH]; intros state; simpl.
  - by rewrite app_nil_r.
  - rewrite IH, syncRoom_eq.
    destruct (correctionFor now groups room) as [[id p]|]; simpl; [|done].
    by rewrite <- app_assoc.
Qed.

(** The synced room has the count of its group, and keeps its key. *)
Lemma syncedRoom_occupants now groups id r :
  Room.occupantsActuels (syncedRoom now groups id r)
  = Z.of_nat (length (default [] (groups !! roomKey r))).
Proof.
  unfold syncedRoom, correctionFor. simpl. case_bool_decide as Hd; simpl; [done|].
  exact Hd.
Qed.

Lemma syncedRoom_frame now groups id r :
  Room.numero (syncedRoom now groups id r) = Room.numero r ∧
  Room.fermeId (syncedRoom now groups id r) = Room.fermeId r ∧
  Room.genre (syncedRoom now groups id r) = Room.genre r ∧
  Room.capaciteTotale (syncedRoom now groups id r) = Room.capaciteTotale r.
Proof.
  unfold syncedRoom. by destruct (correctionFor now groups (id, r)) as [[? ?]|].
Qed.

Lemma roomKey_syncedRoom now groups id r :
  roomKey (syncedRoom now groups id r) = roomKey r.
Proof.
  unfold roomKey. destruct (syncedRoom_frame now groups id r) as (-> & -> & -> & _). done.
Qed.

(** One turn of the loop changes the document of its room only: into the
    synced room when the write goes through, not at all when it fails. *)
Lemma syncRoom_store fails now groups store cs id r :
  store !! id = Some r →
  let store' := (syncRoom (updateDocument fails) now groups (store, cs) (id, r)).1 in
  store' !! id = Some (if fails id then r else syncedRoom now groups id r) ∧
  ∀ id', id' ≠ id → store' !! id' = store !! id'.
Proof.
  intros Hl. rewrite syncRoom_eq. unfold syncedRoom.
  destruct (correctionFor now groups (id, r)) as [[id0 p]|] eqn:E; simpl.
  - apply correctionFor_id in E as E'. simpl in E'. subst id0.
    unfold updateDocument. destruct (fails id); [done|]. rewrite Hl.
    split; [by rewrite lookup_insert_eq|]. intros id' Hne. by rewrite lookup_insert_ne.
  - split; [by destruct (fails id)|done].
Qed.

Lemma syncRoom_fold_store fails now groups rooms store cs :
  NoDup rooms.*1 →
  (∀ id r, (id, r) ∈ rooms → store !! id = Some r) →
  let store' := (foldl (syncRoom (updateDocument fails) now groups) (store, cs) rooms).1 in
  (∀ id r, (id, r) ∈ rooms →
           store' !! id = Some (if fails id then r else syncedRoom now groups id r)) ∧
  (∀ id, id ∉ rooms.*1 → store' !! id = store !! id).
Proof.
  revert store cs. induction rooms as [|[id0 r0] rooms IH]; intros store cs Hnd Hin; simpl.
  - split; [|done]. intros id r H. by apply not_elem_of_nil in H.
  - apply NoDup_cons in Hnd as [Hnotin Hnd]. simpl in Hnotin.
    destruct (syncRoom_store fails now groups store cs id0 r0) as [H0 Hother].
    { apply Hin. left. }
    destruct (syncRoom (updateDocument fails) now groups (store, cs) (id0, r0))
      as [store1 cs1] eqn:E1. simpl in H0, Hother.
    destruct (IH store1 cs1 Hnd) as [IH1 IH2].
    { intros id r Hr. rewrite Hother.
      - apply Hin. by right.
      - intros ->. apply Hnotin. apply list_elem_of_fmap. by exists (id0, r). }
    split.
    + intros id r Hr. apply elem_of_cons in Hr as [[= -> ->]|Hr].
      * by rewrite IH2.
      * by apply IH1.
    + intros id Hid. apply not_elem_of_cons in Hid as [Hne Hid].
      rewrite IH2 by done. by apply Hother.
Qed.

(** The store after a pass, document by document. *)
Lemma reconcile_lookup fails now workers store id :
  (reconcile fails now workers store).1 !! id
  = (λ r, if fails id then r else syncedRoom now (workersByRoom workers) id r)
    <$> store !! id.
Proof.
  unfold reconcile, syncRoomOccupancy.
  destruct (syncRoom_fold_store fails now (workersByRoom workers)
              (map_to_list store) store []) as [H1 H2].
  { apply NoDup_fst_map_to_list. }
  { intros id' r. apply elem_of_map_to_list. }
  destruct (store !! id) as [r|] eqn:Hl; simpl.
  - apply H1. by apply elem_of_map_to_list.
  - rewrite H2; [done|]. intros Hin. apply list_elem_of_fmap in Hin as [[id' r] [-> Hin]].
    apply elem_of_map_to_list in Hin. simpl in Hl. congruence.
Qed.

Lemma reconcile_corrections fails now workers store :
  (reconcile fails now workers store).2
  = omap (correctionFor now (workersByRoom workers)) (map_to_list store).
Proof. unfold reconcile, syncRoomOccupancy. by rewrite syncRoom_fold_corrections. Qed.

Lemma reconcile_corrected_iff fails now workers store id r :
  store !! id = Some r →
  (∃ p, (id, p) ∈ (reconcile fails now workers store).2) ↔
  Room.occupantsActuels r ≠ len (keyOccupants workers r).
Proof.
  intros Hl. rewrite reconcile_corrections. unfold len.
  rewrite <- workersByRoom_room.
  rewrite <- (correctionFor_Some now (workersByRoom workers) (id, r)). split.
  - intros [p Hp]. apply list_elem_of_omap in Hp as [[id' r'] [Hin E]].
    apply correctionFor_id in E as E'. simpl in E'. subst id'.
    apply elem_of_map_to_list in Hin. assert (r' = r) as -> by congruence.
    by eexists.
  - intros [[id' p] E]. apply correctionFor_id in E as E'. simpl in E'. subst id'.
    exists p. apply list_elem_of_omap. exists (id, r). split; [|done].
    by apply elem_of_map_to_list.
Qed.

(** C5, as the code has it. After a pass whose write for the room goes
    through, the room's [occupantsActuels] is the number of active workers
    with a room number and a farm whose key [farm-room-gender] is the key of
    the room; a correction is sent for the room exactly when the stored
    count differs from that number; and for a room with a number and a farm,
    when no farm id contains a dash, these workers are the active workers
    whose room number, gender and farm are the room's. *)
Theorem reconcile_counts_by_key fails now workers store id r :
  store !! id = Some r →
  fails id = false →
  let after := reconcile fails now workers store in
  (Room.occupantsActuels <$> after.1 !! id) = Some (len (keyOccupants workers r)) ∧
  ((∃ p, (id, p) ∈ after.2) ↔ Room.occupantsActuels r ≠ len (keyOccupants workers r)) ∧
  (dash_free (Room.fermeId r) →
   Forall (λ w, dash_free (Worker.fermeId w)) workers →
   Room.numero r ≠ "" → Room.fermeId r ≠ "" →
   keyOccupants workers r = trueOccupants workers r).
Proof.
  intros Hl Hok after. split; [|split].
  - subst after. rewrite reconcile_lookup, Hl, Hok. simpl.
    rewrite syncedRoom_occupants, workersByRoom_room. done.
  - by apply reconcile_corrected_iff.
  - apply keyOccupants_true.
Qed.

(** C6. When the writes of a pass go through, a second pass over the store
    it leaves, with the same workers, sends no correction. *)
Theorem reconcile_idempotent fails fails' now now' workers store :
  (∀ id, is_Some (store !! id) → fails id = false) →
  (reconcile fails' now' workers (reconcile fails now workers store).1).2 = [].
Proof.
  intros Hok. rewrite reconcile_corrections.
  apply omap_all_None. intros [id r1] Hin. apply elem_of_map_to_list in Hin.
  rewrite reconcile_lookup in Hin.
  destruct (store !! id) as [r0|] eqn:Hl0; [|done]. simpl in Hin.
  rewrite Hok in Hin by eauto. injection Hin as <-.
  apply eq_None_not_Some. rewrite correctionFor_Some. simpl. intros Hne. apply Hne.
  rewrite roomKey_syncedRoom. apply syncedRoom_occupants.
Qed.

(** ** What a correction touches *)

Lemma updateDocument_Some fails id p store store' :
  updateDocument fails id p store = Some store' →
  ∃ r, store !! id = Some r ∧ store' = <[id := applyPatch p r]> store.
Proof.
  unfold updateDocument. destruct (fails id); [done|].
  destruct (store !! id) as [r|]; [|done]. intros [= <-]. by exists r.
Qed.

(** C9. A correction that is applied overwrites [occupantsActuels],
    [listeOccupants] and [updatedAt] on the document of its room: the
    room's number, farm, gender and capacity stay, and so does every other
    document. Over a whole pass, every room keeps these four fields, a room
    for which no correction is sent is left as it was, and no document
    appears or disappears. *)
Theorem correction_writes_three_fields fails now workers store :
  (∀ id p store',
     updateDocument fails id p store = Some store' →
     (∃ r, store !! id = Some r ∧
           store' !! id =
           Some (Room.mk (Room.numero r) (Room.fermeId r) (Room.genre r)
                   (Room.capaciteTotale r) (RoomPatch.occupantsActuels p)
                   (RoomPatch.listeOccupants p) (Some (RoomPatch.updatedAt p)))) ∧
     (∀ id', id' ≠ id → store' !! id' = store !! id')) ∧
  (let after := reconcile fails now workers store in
   (∀ id r, store !! id = Some r →
      ∃ r', after.1 !! id = Some r' ∧
            Room.numero r' = Room.numero r ∧ Room.fermeId r' = Room.fermeId r ∧
            Room.genre r' = Room.genre r ∧
            Room.capaciteTotale r' = Room.capaciteTotale r ∧
            ((∀ p, (id, p) ∉ after.2) → r' = r)) ∧
   (∀ id, store !! id = None → after.1 !! id = None)).
Proof.
  split.
  - intros id p store' Hup.
    apply updateDocument_Some in Hup as (r & Hl & ->). split.
    + exists r. split; [done|]. by rewrite lookup_insert_eq.
    + intros id' Hne. by rewrite lookup_insert_ne.
  - cbv zeta. split.
    + intros id r Hl. rewrite reconcile_lookup, Hl. simpl. eexists. split; [reflexivity|].
      destruct (fails id).
      { repeat split; done. }
      destruct (syncedRoom_frame now (workersByRoom workers) id r) as (-> & -> & -> & ->).
      repeat split; try done.
      intros Hnone. unfold syncedRoom.
      destruct (correctionFor now (workersByRoom workers) (id, r)) as [[id0 p]|] eqn:E;
        [|done].
      exfalso. apply correctionFor_id in E as E'. simpl in E'. subst id0.
      apply (Hnone p). rewrite reconcile_corrections. apply list_elem_of_omap.
      exists (id, r). split; [|done]. by apply elem_of_map_to_list.
    + intros id Hl. by rewrite reconcile_lookup, Hl.
Qed.

(** ** The statistics of a farm *)

Lemma percent_le_100 a b : 0 < b → a ≤ b → (percent a b <= 100)%Q.
Proof.
  intros Hb Hab. unfold percent.
  assert (H1 : (inject_Z a / inject_Z b <= 1)%Q).
  { apply Qle_shift_div_r.
    - replace 0%Q with (inject_Z 0) by done. by rewrite <- Zlt_Qlt.
    - rewrite Qmult_1_l. by rewrite <- Zle_Qle. }
  eapply Qle_trans; [apply (Qmult_le_compat_r _ _ 100 H1); done|]. done.
Qed.

Lemma statCount_fold workers (acc : gmap string Z) key :
  default 0 (foldl (λ (acc : gmap string Z) worker,
                      if truthy (Worker.chambre worker) then
                        let roomKey := statKey (Worker.chambre worker) (workerGender worker) in
                        <[roomKey := default 0 (acc !! roomKey) + 1]> acc
                      else acc) acc workers !! key)
  = default 0 (acc !! key)
    + len (filter (λ w, Worker.chambre w ≠ ""
                        ∧ statKey (Worker.chambre w) (workerGender w) = key) workers).
Proof.
  unfold len. revert acc. induction workers as [|w ws IH]; intros acc; simpl.
  - lia.
  - rewrite IH. unfold truthy. case_bool_decide as Hc; simpl.
    + rewrite filter_cons_False by tauto. done.
    + destruct (decide (statKey (Worker.chambre w) (workerGender w) = key)) as [<-|Hne].
      * rewrite lookup_insert_eq. simpl. rewrite filter_cons_True by done.
        simpl. lia.
      * rewrite lookup_insert_ne by done. rewrite filter_cons_False by tauto. done.
Qed.

(** The count [getFermeStats] gives a room of the farm. *)
Lemma statCount_room workers fermeId r :
  Room.fermeId r = fermeId →
  default 0 (FermeStats.workersByRoom (getFermeStats workers [] fermeId)
             !! statKey (Room.numero r) (Room.genre r))
  = len (statOccupants workers r).
Proof.
  intros Hf. unfold getFermeStats. cbn [FermeStats.workersByRoom].
  rewrite statCount_fold, lookup_empty. simpl. unfold len, statOccupants.
  rewrite list_filter_filter.
  rewrite (list_filter_iff _
             (λ w, Worker.statut w = actif ∧ Worker.chambre w ≠ ""
                   ∧ Worker.chambre w = Room.numero r
                   ∧ workerGender w = Room.genre r
                   ∧ Worker.fermeId w = Room.fermeId r)); [done|].
  intros w. rewrite statKey_inj. rewrite Hf. tauto.
Qed.

Lemma getFermeStats_workersByRoom workers rooms rooms' fermeId :
  FermeStats.workersByRoom (getFermeStats workers rooms fermeId)
  = FermeStats.workersByRoom (getFermeStats workers rooms' fermeId).
Proof. done. Qed.

Lemma getFermeStats_roomStats workers rooms fermeId :
  FermeStats.roomStats (getFermeStats workers rooms fermeId)
  = roomStat (FermeStats.workersByRoom (getFermeStats workers rooms fermeId))
    <$> filter (λ r : string * Room.t, Room.fermeId r.2 = fermeId) rooms.
Proof. done. Qed.

Lemma foldl_sum {A} (f : A → Z) (l : list A) (z : Z) :
  foldl (λ sum x, sum + f x) z l = z + foldr (λ x sum, f x + sum) 0 l.
Proof.
  revert z. induction l as [|a l IH]; intros z; simpl; [lia|]. rewrite IH. lia.
Qed.


(** * The properties on the example run *)

(** A closed fact about the example data, by evaluation. *)
Ltac by_evaluation := vm_compute; reflexivity.

(** The rows of a given store are one per sector and item. *)
Ltac unique_rows := apply stock_unique_NoDup, (bool_decide_unpack _); vm_compute; exact I.

(** A given integer is within the safe integers. *)
Ltac in_safe_range := unfold safe_integer; apply (bool_decide_unpack _); vm_compute; exact I.

Lemma Run_db3_unique : stock_unique (stocks Run.db3).
Proof. unique_rows. Qed.

Lemma confirmTransfer_moves_quantity_witness :
  let r := handleConfirmTransfer "t1" Run.transfer1 Run.env4 Run.db3 in
  r.2 = Succes "Transfert confirmé" ∧
  balance (stocks r.1) "A" "ciment" = Num (10 - 10) ∧
  balance (stocks r.1) "B" "ciment" = Num (0 + 10) ∧
  getDocs_stocks (stocks r.1) "B" "ciment" ≠ [] ∧
  (StockTransfer.status <$> stock_transfers r.1 !! "t1") = Some confirmed ∧
  js_add (balance (stocks r.1) "A" "ciment") (balance (stocks r.1) "B" "ciment") =
  js_add (balance (stocks Run.db3) "A" "ciment") (balance (stocks Run.db3) "B" "ciment").
Proof.
  apply (confirmTransfer_moves_quantity "t1" Run.transfer1 Run.env4 Run.db3
           "stock-A" Run.rowA 10 0 10).
  - by_evaluation.
  - reflexivity.
  - discriminate.
  - reflexivity.
  - apply Run_db3_unique.
  - by_evaluation.
  - by_evaluation.
  - reflexivity.
  - reflexivity.
  - reflexivity.
  - by_evaluation.
  - in_safe_range.
  - in_safe_range.
  - in_safe_range.
Defined.

(** C1 fails on the code beyond the safe integers: when sector B holds
    [2 ^ 53], the confirmation of a transfer of 1 from sector A, which
    holds 10, leaves A with 9 and B with [2 ^ 53], the double nearest to
    [2 ^ 53 + 1]: the two balances have lost a unit. *)
Lemma receiver_balance_stays_at_2_53 :
  let r := handleConfirmTransfer "t1" Run.transferOne Run.env5 Run.dbBig in
  stock_transfers Run.dbBig !! "t1" = Some Run.transferOne ∧
  balance (stocks Run.dbBig) "A" "ciment" = Num 10 ∧
  balance (stocks Run.dbBig) "B" "ciment" = Num (2 ^ 53) ∧
  r.2 = Succes "Transfert confirmé" ∧
  balance (stocks r.1) "A" "ciment" = Num (10 - 1) ∧
  balance (stocks r.1) "B" "ciment" = Num (2 ^ 53) ∧
  balance (stocks r.1) "B" "ciment" ≠ Num (2 ^ 53 + 1) ∧
  js_add (balance (stocks r.1) "A" "ciment") (balance (stocks r.1) "B" "ciment")
  ≠ js_add (balance (stocks Run.dbBig) "A" "ciment")
           (balance (stocks Run.dbBig) "B" "ciment").
Proof.
  cbv zeta. repeat split; try by_evaluation.
  - intros H. vm_compute in H. discriminate.
  - intros H. vm_compute in H. discriminate.
Qed.

Lemma Run_reaches_db3 : reaches_covered js_parseInt emptyDb Run.db3.
Proof.
  eapply covered_step with (l := CreateTransfer (Num 10)).
  eapply covered_step with (l := CreateTransfer (Num 10)).
  eapply covered_step with (l := AddStock (Num 10)).
  - apply covered_here.
  - apply (step_addStock js_parseInt false Run.adminA Run.addForm Run.env1 emptyDb).
  - discriminate.
  - apply (step_createTransfer js_parseInt false Run.adminA Run.transferForm
             (stockQuery false "all" Run.adminA (stocks Run.db1)) Run.env2 Run.db1).
    apply loaded_from_stockQuery.
  - discriminate.
  - apply (step_createTransfer js_parseInt false Run.adminA Run.transferForm
             (stockQuery false "all" Run.adminA (stocks Run.db2)) Run.env3 Run.db2).
    apply loaded_from_stockQuery.
  - discriminate.
Qed.

Lemma reaches_covered_reaches parseInt db0 db :
  reaches_covered parseInt db0 db → reaches parseInt db0 db.
Proof.
  induction 1 as [|l db1 db2 _ IH Hstep _]; [apply reaches_here|].
  by apply reaches_step with l db1.
Qed.

Lemma Run_offers_transfer1 :
  ("t1", Run.transfer1)
  ∈ pendingIncomingTransfers Run.adminB (map_to_list (stock_transfers Run.db3)).
Proof.
  unfold pendingIncomingTransfers. apply list_elem_of_filter. split.
  - by split.
  - apply elem_of_map_to_list. by_evaluation.
Qed.

Lemma Run_offers_transfer2 :
  ("t2", Run.transfer2)
  ∈ pendingIncomingTransfers Run.adminB (map_to_list (stock_transfers Run.db4)).
Proof.
  unfold pendingIncomingTransfers. apply list_elem_of_filter. split.
  - by split.
  - apply elem_of_map_to_list. by_evaluation.
Qed.

Lemma Run_step4 : step js_parseInt Run.db3 (ConfirmTransfer Run.transfer1) Run.db4.
Proof.
  apply (step_confirmTransfer js_parseInt Run.adminB
           (map_to_list (stock_transfers Run.db3)) "t1" Run.transfer1 Run.env4 Run.db3).
  - apply loaded_from_map_to_list.
  - apply Run_offers_transfer1.
Qed.

Lemma Run_step5 : step js_parseInt Run.db4 (ConfirmTransfer Run.transfer2) Run.db5.
Proof.
  apply (step_confirmTransfer js_parseInt Run.adminB
           (map_to_list (stock_transfers Run.db4)) "t2" Run.transfer2 Run.env5 Run.db4).
  - apply loaded_from_map_to_list.
  - apply Run_offers_transfer2.
Qed.

(** C4 fails on the code: two requests of 10 are accepted against the same
    10 held by sector A, both are pending and offered to sector B, and the
    second confirmation takes A's row to -10. *)
Lemma overdrawn_after_two_confirmations :
  reaches js_parseInt emptyDb Run.db5 ∧
  stocks Run.db5 !! "stock-A" =
    Some (StockItem.mk "A" "ciment" (Num (-10)) "sac" "2024-05-02T08:05:00.000Z") ∧
  ¬ stock_nonneg (stocks Run.db5).
Proof.
  assert (Hrow : stocks Run.db5 !! "stock-A" =
    Some (StockItem.mk "A" "ciment" (Num (-10)) "sac" "2024-05-02T08:05:00.000Z")).
  { by_evaluation. }
  split; [|split; [exact Hrow|]].
  - eapply reaches_step; [|apply Run_step5].
    eapply reaches_step; [|apply Run_step4].
    apply reaches_covered_reaches, Run_reaches_db3.
  - intros Hnn. destruct (Hnn _ _ Hrow) as (z & Hz & Hpos).
    simpl in Hz. injection Hz as <-. lia.
Qed.

Lemma quantities_stay_nonneg_witness : stock_nonneg (stocks Run.db4).
Proof.
  apply (quantities_stay_nonneg js_parseInt emptyDb Run.db4).
  - apply ledger_inv_empty.
  - eapply covered_step; [apply Run_reaches_db3|apply Run_step4|].
    right. by_evaluation.
Defined.

(** C2 fails on the code: the transfer "t1" is stored as confirmed, and a
    second run of the handler on it succeeds and moves the 10 units once
    more; likewise for the addition "a1" and its 5 units. *)
Lemma second_confirmation_applies_again :
  ((StockTransfer.status <$> stock_transfers Run.db4 !! "t1") = Some confirmed ∧
   (handleConfirmTransfer "t1" Run.transfer1 Run.env5 Run.db4).2
     = Succes "Transfert confirmé" ∧
   balance (stocks Run.db4) "A" "ciment" = Num 0 ∧
   balance (stocks Run.db4) "B" "ciment" = Num 10 ∧
   balance (stocks Run.db4_again) "A" "ciment" = Num (-10) ∧
   balance (stocks Run.db4_again) "B" "ciment" = Num 20) ∧
  ((StockAddition.status <$> stock_additions Run.dbB1 !! "a1") = Some confirmed ∧
   (handleConfirmAddition "a1" Run.addition1 Run.env5 Run.dbB1).2
     = Succes "Ajout confirmé" ∧
   balance (stocks Run.dbB1) "B" "ciment" = Num 15 ∧
   balance (stocks Run.dbB2) "B" "ciment" = Num 20).
Proof. vm_compute. repeat split; reflexivity. Qed.

Lemma confirmed_records_not_offered_witness :
  (StockTransfer.status <$> stock_transfers Run.db4 !! "t1") = Some confirmed ∧
  (("t1", Run.transfer1)
   ∉ pendingIncomingTransfers Run.adminB (map_to_list (stock_transfers Run.db4))) ∧
  (StockAddition.status <$>
     stock_additions (handleConfirmAddition "a1" Run.addition1 Run.env5 Run.dbB).1 !! "a1")
  = Some confirmed.
Proof.
  destruct confirmed_records_not_offered as (_ & _ & Ht & Ha).
  destruct (Ht "t1" Run.transfer1 Run.env4 Run.db3 Run.adminB
              (map_to_list (stock_transfers Run.db4)) Run.transfer1) as (H1 & _ & H3).
  { exists Run.transfer1. by_evaluation. }
  destruct (Ha "a1" Run.addition1 Run.env5 Run.dbB [] Run.addition1) as (H4 & _ & _).
  { exists Run.addition1. by_evaluation. }
  split; [exact H1|]. split; [|exact H4].
  apply H3. apply loaded_from_map_to_list.
Defined.

(** The rows of a given list hold numbers. *)
Ltac rows_hold_numbers :=
  let row := fresh "row" in let Hin := fresh "Hin" in
  intros row Hin; vm_compute in Hin;
  repeat (apply elem_of_cons in Hin as [->|Hin]; [discriminate|]);
  by apply not_elem_of_nil in Hin.

Lemma createTransfer_insufficient_stock_witness :
  let loaded := stockQuery false "all" Run.adminA (stocks Run.db1) in
  handleTransferSubmit js_parseInt false Run.adminA Run.bigForm loaded Run.env2 Run.db1
  = (Run.db1, StockInsuffisant 10 "sac") ∧
  loadedQuantity loaded "A" "ciment" = js_or_zero (balance (stocks Run.db1) "A" "ciment").
Proof.
  intros loaded.
  destruct (createTransfer_insufficient_stock js_parseInt false Run.adminA Run.bigForm
              loaded Run.env2 Run.db1 "A" 15) as (Hrefused & Hbalance & Hshown).
  - discriminate.
  - discriminate.
  - discriminate.
  - discriminate.
  - reflexivity.
  - discriminate.
  - by_evaluation.
  - lia.
  - rows_hold_numbers.
  - by_evaluation.
  - split; [exact Hrefused|]. apply Hbalance; [unique_rows|].
    apply (Hshown "all"); [reflexivity|discriminate].
Defined.

(** C3 fails on the code: with the stock list narrowed to sector B, a super
    admin's request for 15 from sector A, which holds 10, is refused with
    an available quantity of 0. *)
Lemma insufficient_stock_reports_the_loaded_quantity :
  let loaded := stockQuery true "B" Run.superAdmin (stocks Run.db1) in
  balance (stocks Run.db1) "A" "ciment" = Num 10 ∧
  js_parseInt (TransferForm.quantity Run.fromAForm) = Num 15 ∧
  handleTransferSubmit js_parseInt true Run.superAdmin Run.fromAForm loaded
    Run.env2 Run.db1
  = (Run.db1, StockInsuffisant 0 "sac").
Proof. split; [by_evaluation|]. split; by_evaluation. Qed.

Lemma invalid_requests_rejected_witness :
  (∃ t, handleAddStockSubmit js_parseInt false Run.adminA Run.zeroAddForm Run.env1 Run.db1
        = (Run.db1, t) ∧ validationError t) ∧
  (∃ t, handleTransferSubmit js_parseInt false Run.adminA Run.zeroForm
          (stockQuery false "all" Run.adminA (stocks Run.db1)) Run.env2 Run.db1 = (Run.db1, t)
        ∧ validationError t) ∧
  (∃ t, handleTransferSubmit js_parseInt false Run.adminA Run.sameForm
          (stockQuery false "all" Run.adminA (stocks Run.db1)) Run.env2 Run.db1 = (Run.db1, t)
        ∧ validationError t).
Proof.
  destruct (invalid_requests_rejected js_parseInt false Run.adminA Run.env1 Run.db1)
    as (Hadd & _ & _).
  destruct (invalid_requests_rejected js_parseInt false Run.adminA Run.env2 Run.db1)
    as (_ & Hqty & Hsame).
  split; [|split].
  - apply (Hadd Run.zeroAddForm (-2)); [by_evaluation|lia].
  - apply (Hqty Run.zeroForm (stockQuery false "all" Run.adminA (stocks Run.db1)) 0); [by_evaluation|lia].
  - apply (Hsame Run.sameForm (stockQuery false "all" Run.adminA (stocks Run.db1))). reflexivity.
Defined.

Lemma credit_matches_row_ignoring_unit_witness :
  stocks (handleConfirmTransfer "t1" Run.transfer1 Run.env5 Run.dbB).1 !! "stock-B" =
    Some (StockItem.mk "B" "ciment" (Num 20) "kg" "2024-05-02T08:05:00.000Z") ∧
  stocks (handleConfirmAddition "a1" Run.addition1 Run.env5 Run.dbB).1 !! "stock-B" =
    Some (StockItem.mk "B" "ciment" (Num 15) "kg" "2024-05-02T08:05:00.000Z").
Proof.
  destruct (credit_matches_row_ignoring_unit Run.env5 Run.dbB "stock-B" Run.rowB)
    as [Ht Ha].
  - unique_rows.
  - by_evaluation.
  - split.
    + apply (Ht "t1" Run.transfer1).
      * exists Run.transfer1. by_evaluation.
      * discriminate.
      * reflexivity.
      * reflexivity.
    + apply (Ha "a1" Run.addition1).
      * exists Run.addition1. by_evaluation.
      * reflexivity.
      * reflexivity.
Defined.

(** ** The farm of the examples *)

(** The example of the specification: room 101 of the men, for 4, stored
    with 1 occupant, and two active men in room 101 of the same farm; the
    pass sends one correction, to 2 occupants. *)
Lemma Farm_spec_example :
  reconcile Farm.noFailure 77 [Farm.ali; Farm.omar]
            {["r101" := Room.mk "101" "F1" hommes 4 1 [] None]}
  = ({["r101" := Room.mk "101" "F1" hommes 4 2 ["w1"; "w2"] (Some 77)]},
     [("r101", RoomPatch.mk 2 ["w1"; "w2"] 77)]).
Proof. by_evaluation. Qed.

(** C5 fails on the code. With a dash in a farm id, the room "b-c" of farm
    "a", stored with 0 occupants and with no worker of its own, receives a
    correction to 1 occupant: the worker of farm "a-b" in room "c". And a
    room without a number, stored with 0 occupants, receives no correction
    although an active worker of its farm has the same (empty) room number
    and gender. *)
Lemma reconcile_counts_keys_not_fields :
  (trueOccupants [Farm.nabil] Farm.roomDash = [] ∧
   Room.occupantsActuels Farm.roomDash = 0 ∧
   (reconcile Farm.noFailure 77 [Farm.nabil] Farm.storeDash).2
     = [("rD", RoomPatch.mk 1 ["w9"] 77)] ∧
   (Room.occupantsActuels
      <$> (reconcile Farm.noFailure 77 [Farm.nabil] Farm.storeDash).1 !! "rD") = Some 1) ∧
  (trueOccupants [Farm.karim] Farm.roomBlank = [Farm.karim] ∧
   Room.occupantsActuels Farm.roomBlank = 0 ∧
   (reconcile Farm.noFailure 77 [Farm.karim] Farm.storeBlank).2 = [] ∧
   (Room.occupantsActuels
      <$> (reconcile Farm.noFailure 77 [Farm.karim] Farm.storeBlank).1 !! "rB") = Some 0).
Proof. vm_compute. repeat split; reflexivity. Qed.

Lemma Farm_dash_free : Forall (λ w, dash_free (Worker.fermeId w)) Farm.workers.
Proof. repeat constructor; discriminate. Qed.

Lemma reconcile_counts_by_key_witness :
  let after := reconcile Farm.noFailure 77 Farm.workers Farm.store in
  (Room.occupantsActuels <$> after.1 !! "rH")
    = Some (len (keyOccupants Farm.workers Farm.roomH)) ∧
  ((∃ p, ("rH", p) ∈ after.2) ↔
   Room.occupantsActuels Farm.roomH ≠ len (keyOccupants Farm.workers Farm.roomH)) ∧
  keyOccupants Farm.workers Farm.roomH = trueOccupants Farm.workers Farm.roomH.
Proof.
  destruct (reconcile_counts_by_key Farm.noFailure 77 Farm.workers Farm.store
              "rH" Farm.roomH) as (H1 & H2 & H3).
  - by_evaluation.
  - reflexivity.
  - split; [exact H1|]. split; [exact H2|].
    apply H3.
    + repeat split; discriminate.
    + apply Farm_dash_free.
    + discriminate.
    + discriminate.
Defined.

Lemma reconcile_idempotent_witness :
  (reconcile Farm.noFailure 78 Farm.workers
     (reconcile Farm.noFailure 77 Farm.workers Farm.store).1).2 = [].
Proof.
  apply (reconcile_idempotent Farm.noFailure Farm.noFailure 77 78 Farm.workers Farm.store).
  intros id _. reflexivity.
Defined.

Lemma correction_writes_three_fields_witness :
  let after := reconcile Farm.noFailure 77 Farm.workers Farm.store in
  (∃ r', after.1 !! "rH" = Some r' ∧
         Room.numero r' = "101" ∧ Room.fermeId r' = "F1" ∧
         Room.genre r' = hommes ∧ Room.capaciteTotale r' = 3) ∧
  after.1 !! "rF" = Some Farm.roomF.
Proof.
  destruct (correction_writes_three_fields Farm.noFailure 77 Farm.workers Farm.store)
    as [_ [Hkeep _]].
  destruct (Hkeep "rH" Farm.roomH) as (r' & Hl & Hn & Hf & Hg & Hc & _).
  { by_evaluation. }
  destruct (Hkeep "rF" Farm.roomF) as (r'' & Hl' & _ & _ & _ & _ & Hsame).
  { by_evaluation. }
  split.
  - exists r'. repeat split; assumption.
  - rewrite Hl'. f_equal. apply Hsame. intros p Hp.
    vm_compute in Hp. apply list_elem_of_singleton in Hp. discriminate.
Defined.



(** * Further properties of the stock page *)

Lemma creditStock_run e s i q u db :
  creditStock e s i q u db =
  (mkDb (creditedStocks e s i q u (stocks db)) (stock_transfers db) (stock_additions db),
   Some ()).
Proof.
  unfold creditedStocks.
  destruct (getDocs_stocks_cases (stocks db) s i)
    as [[E Hno]|(id & d & rest & E & _)]; rewrite E.
  - by apply creditStock_new.
  - by apply creditStock_existing with rest.
Qed.

Lemma debitStock_run e s i q db :
  debitStock e s i q db =
  (mkDb (debitedStocks e s i q (stocks db)) (stock_transfers db) (stock_additions db),
   Some ()).
Proof.
  unfold debitedStocks.
  destruct (getDocs_stocks_cases (stocks db) s i)
    as [[E Hno]|(id & d & rest & E & _)]; rewrite E.
  - rewrite debitStock_no_row by done. by destruct db.
  - by apply debitStock_existing with rest.
Qed.

(** A credit leaves the rows of other sectors and items alone, as long as
    the id of a new row is not theirs. *)
Lemma creditedStocks_other e s i q u c id row :
  c !! id = Some row → other_row s i row → id ≠ autoId e →
  creditedStocks e s i q u c !! id = Some row.
Proof.
  intros Hl Hother Hid. unfold creditedStocks.
  destruct (getDocs_stocks_cases c s i) as [[E _]|(id' & d & rest & E & Hl' & Hs & Hi)];
    rewrite E.
  - by rewrite lookup_insert_ne.
  - simpl. rewrite lookup_insert_ne; [done|]. intros ->.
    assert (d = row) as -> by congruence. destruct Hother; congruence.
Qed.

Lemma debitedStocks_other e s i q c id row :
  c !! id = Some row → other_row s i row →
  debitedStocks e s i q c !! id = Some row.
Proof.
  intros Hl Hother. unfold debitedStocks.
  destruct (getDocs_stocks_cases c s i) as [[E _]|(id' & d & rest & E & Hl' & Hs & Hi)];
    rewrite E; [done|].
  simpl. rewrite lookup_insert_ne; [done|]. intros ->.
  assert (d = row) as -> by congruence. destruct Hother; congruence.
Qed.

Lemma debitedStocks_fresh e s i q c id :
  c !! id = None → debitedStocks e s i q c !! id = None.
Proof.
  intros Hl. unfold debitedStocks.
  destruct (getDocs_stocks_cases c s i) as [[E _]|(id' & d & rest & E & Hl' & Hs & Hi)];
    rewrite E; [done|].
  simpl. rewrite lookup_insert_ne; [done|]. congruence.
Qed.

Lemma debitedStocks_unique e s i q c :
  stock_unique c → stock_unique (debitedStocks e s i q c).
Proof.
  intros Hu. unfold debitedStocks.
  destruct (getDocs_stocks_cases c s i) as [[E _]|(id' & d & rest & E & Hl' & Hs & Hi)];
    rewrite E; [done|].
  by apply stock_unique_update with d.
Qed.

Lemma creditedStocks_unique e s i q u c :
  stock_unique c → stock_unique (creditedStocks e s i q u c).
Proof.
  intros Hu. unfold creditedStocks.
  destruct (getDocs_stocks_cases c s i) as [[E Hno]|(id' & d & rest & E & Hl' & Hs & Hi)];
    rewrite E.
  - by apply stock_unique_add.
  - by apply stock_unique_update with d.
Qed.


(** With one row per sector and item, a credit adds to the balance. *)
Lemma creditedStocks_balance e s i q u c :
  stock_unique c →
  balance (creditedStocks e s i q u c) s i = js_add (balance c s i) q.
Proof.
  intros Hu.
  pose proof (creditedStocks_unique e s i q u c Hu) as Hu'.
  unfold creditedStocks in *.
  destruct (getDocs_stocks_cases c s i) as [[E Hno]|(id' & d & rest & E & Hl' & Hs & Hi)];
    rewrite E in *.
  - rewrite (balance_no_row c) by done. rewrite js_add_zero_l.
    pose proof (balance_row _ (autoId e) (StockItem.mk s i q u (nowISO e)) Hu') as Hb.
    simpl in Hb. apply Hb. by rewrite lookup_insert_eq.
  - simpl in *.
    assert (Hb : balance c s i = StockItem.quantity d).
    { rewrite <- Hs, <- Hi. by apply balance_row with id'. }
    rewrite Hb.
    pose proof (balance_row _ id' (incrementQuantity q (nowISO e) d) Hu') as Hb'.
    simpl in Hb'. rewrite Hs, Hi in Hb'. apply Hb'. by rewrite lookup_insert_eq.
Qed.

(** ** The handlers, when nothing is refused *)

Lemma handleConfirmTransfer_run id t e db stored :
  stock_transfers db !! id = Some stored →
  handleConfirmTransfer id t e db =
  (mkDb (creditedStocks e (StockTransfer.toSecteurId t) (StockTransfer.item t)
           (StockTransfer.quantity t) (StockTransfer.unit t)
           (debitedStocks e (StockTransfer.fromSecteurId t) (StockTransfer.item t)
              (StockTransfer.quantity t) (stocks db)))
        (<[id := confirmTransferDoc (serverTimestamp e) stored]> (stock_transfers db))
        (stock_additions db),
   Succes "Transfert confirmé").
Proof.
  intros Hst. unfold handleConfirmTransfer, try_catch, mbind, Action_bind.
  unfold updateTransfer, updateDoc. rewrite Hst.
  by rewrite debitStock_run, creditStock_run.
Qed.

Lemma handleConfirmAddition_run id a e db stored :
  stock_additions db !! id = Some stored →
  handleConfirmAddition id a e db =
  (mkDb (creditedStocks e (StockAddition.secteurId a) (StockAddition.item a)
           (StockAddition.quantity a) (StockAddition.unit a) (stocks db))
        (stock_transfers db)
        (<[id := confirmAdditionDoc (serverTimestamp e) stored]> (stock_additions db)),
   Succes "Ajout confirmé").
Proof.
  intros Hst. unfold handleConfirmAddition, try_catch, mbind, Action_bind.
  unfold updateAddition, updateDoc. rewrite Hst.
  by rewrite creditStock_run.
Qed.

Lemma addStockForm_filled isSuperAdmin form :
  AddStockForm.item form ≠ "" → AddStockForm.quantity form ≠ "" →
  (isSuperAdmin = false → AddStockForm.secteurId form ≠ "") →
  negb (truthy (AddStockForm.item form))
  || negb (truthy (AddStockForm.quantity form))
  || (negb isSuperAdmin && negb (truthy (AddStockForm.secteurId form))) = false.
Proof.
  intros Hi Hq Hs. rewrite !truthy_true by done. simpl.
  destruct isSuperAdmin; [done|]. simpl. by rewrite truthy_true by auto.
Qed.

(** What a stock addition that passes the form does, whatever the number
    its quantity parses to, as long as it is not refused as zero or
    negative. *)
Lemma handleAddStockSubmit_run (parseInt : string → number) isSuperAdmin user form e db :
  AddStockForm.item form ≠ "" → AddStockForm.quantity form ≠ "" →
  (isSuperAdmin = false → AddStockForm.secteurId form ≠ "") →
  js_le (parseInt (AddStockForm.quantity form)) (Num 0) = false →
  handleAddStockSubmit parseInt isSuperAdmin user form e db =
  if isSuperAdmin then
    match user_uid user with
    | Some uid =>
        (mkDb (stocks db) (stock_transfers db)
              (<[autoId e := StockAddition.mk (AddStockForm.secteurId form)
                               (AddStockForm.item form)
                               (parseInt (AddStockForm.quantity form))
                               (AddStockForm.unit form) pending uid
                               (serverTimestamp e) None]> (stock_additions db)),
         Succes "Ajout créé")
    | None => (db, Erreur "Impossible d'ajouter le stock")
    end
  else
    match user_fermeId user with
    | Some fermeId =>
        (mkDb (creditedStocks e fermeId (AddStockForm.item form)
                 (parseInt (AddStockForm.quantity form)) (AddStockForm.unit form)
                 (stocks db))
              (stock_transfers db) (stock_additions db),
         Succes "Stock ajouté")
    | None => (db, Erreur "Impossible d'ajouter le stock")
    end.
Proof.
  intros Hi Hq Hs Hle. unfold handleAddStockSubmit.
  rewrite addStockForm_filled by done. rewrite Hle.
  destruct isSuperAdmin; unfold try_catch.
  - by destruct (user_uid user).
  - destruct (user_fermeId user); [|done]. by rewrite creditStock_run.
Qed.

(** A transfer request that passes the form and finds the sender's row
    holding enough. *)
Lemma handleTransferSubmit_accepts (parseInt : string → number)
    isSuperAdmin user form loaded e db from q row a :
  TransferForm.item form ≠ "" → TransferForm.quantity form ≠ "" →
  TransferForm.toSecteurId form ≠ "" →
  (isSuperAdmin = true → TransferForm.fromSecteurId form ≠ "") →
  transferSender isSuperAdmin user form = Some from →
  TransferForm.toSecteurId form ≠ from →
  parseInt (TransferForm.quantity form) = Num q → 0 < q →
  loaded_unique loaded →
  row ∈ loaded →
  StockItem.secteurId row.2 = from →
  StockItem.item row.2 = TransferForm.item form →
  StockItem.quantity row.2 = Num a → q ≤ a →
  handleTransferSubmit parseInt isSuperAdmin user form loaded e db =
  (mkDb (stocks db)
        (<[autoId e := StockTransfer.mk from (TransferForm.toSecteurId form)
                         (TransferForm.item form) (Num q) (TransferForm.unit form)
                         pending (serverTimestamp e) None]> (stock_transfers db))
        (stock_additions db),
   Succes "Transfert créé").
Proof.
  intros Hi Hqs Ht Hf Hfrom Hne Hq Hpos Hu Hin Hs Hit Hqa Hle.
  unfold handleTransferSubmit.
  rewrite requiredFields_filled by done.
  fold (transferSender isSuperAdmin user form). rewrite Hfrom.
  rewrite bool_decide_eq_false_2 by congruence.
  rewrite Hq, js_le_pos by done.
  set (p := λ s : string * StockItem.t,
         bool_decide (Some (StockItem.secteurId s.2) = Some from)
         && bool_decide (StockItem.item s.2 = TransferForm.item form)).
  assert (Hp : ∀ x, p x = true ↔
            StockItem.secteurId x.2 = from ∧ StockItem.item x.2 = TransferForm.item form).
  { intros x. unfold p. rewrite andb_true_iff, !bool_decide_eq_true.
    split; intros [H1 H2]; split; congruence. }
  destruct (List.find p loaded) as [row'|] eqn:E.
  - apply find_some in E as [Hin' Hpx]. apply Hp in Hpx as [Hs' Hit'].
    apply list_elem_of_In in Hin'.
    assert (row' = row) as -> by (apply Hu; [done..|congruence|congruence]).
    rewrite Hqa. unfold js_lt. rewrite bool_decide_eq_false_2 by lia. done.
  - exfalso. eapply find_none in E; [|apply list_elem_of_In; exact Hin].
    assert (p row = true) by (by apply Hp). congruence.
Qed.

Lemma debitedStocks_dom e s i q c id :
  is_Some (debitedStocks e s i q c !! id) ↔ is_Some (c !! id).
Proof.
  unfold debitedStocks.
  destruct (getDocs_stocks_cases c s i) as [[E _]|(id' & d & rest & E & Hl' & _)];
    rewrite E; [done|].
  simpl. rewrite lookup_insert. case_decide; [|done]. subst. split; eauto.
Qed.

Lemma creditedStocks_dom e s i q u c id :
  is_Some (creditedStocks e s i q u c !! id) ↔ id = autoId e ∧ no_row c s i ∨ is_Some (c !! id).
Proof.
  unfold creditedStocks.
  destruct (getDocs_stocks_cases c s i) as [[E Hno]|(id' & d & rest & E & Hl' & Hs & Hi)];
    rewrite E.
  - rewrite lookup_insert. case_decide; subst; split; eauto.
    + intros [[? _]|?]; [done|done].
  - simpl. rewrite lookup_insert. case_decide; subst; split; eauto.
    intros [[_ Hno]|?]; [|done]. destruct (Hno id' d); done.
Qed.

Lemma creditedStocks_no_row_other e s i q u c s' i' :
  no_row c s' i' → s' ≠ s ∨ i' ≠ i → no_row (creditedStocks e s i q u c) s' i'.
Proof.
  intros Hno Hne id row Hl Hs Hi. unfold creditedStocks in Hl.
  destruct (getDocs_stocks_cases c s i) as [[E _]|(id' & d & rest & E & Hl' & Hs' & Hi')];
    rewrite E in Hl; simpl in Hl; rewrite lookup_insert in Hl; case_decide; simplify_eq.
  - simpl in Hne. by destruct Hne.
  - by apply (Hno id row).
  - simpl in Hne. by destruct Hne.
  - by apply (Hno id row).
Qed.

(** ** Confirmations *)

(** X1. A confirmation whose record is not in the store shows its error
    toast and writes nothing: the update of the record is the first call of
    the handler, and it is refused. When the record is in the store, and the
    store carries out the calls of the handler (as the store of this model
    does for every document that exists), the confirmation goes through,
    whatever the status of the record and whatever the sender holds: the
    handlers read neither. *)
Theorem confirmation_without_record_writes_nothing id e db :
  (∀ t,
     (stock_transfers db !! id = None →
      handleConfirmTransfer id t e db = (db, Erreur "Impossible de confirmer le transfert")) ∧
     (is_Some (stock_transfers db !! id) →
      (handleConfirmTransfer id t e db).2 = Succes "Transfert confirmé")) ∧
  (∀ a,
     (stock_additions db !! id = None →
      handleConfirmAddition id a e db = (db, Erreur "Impossible de confirmer l'ajout")) ∧
     (is_Some (stock_additions db !! id) →
      (handleConfirmAddition id a e db).2 = Succes "Ajout confirmé")).
Proof.
  split.
  - intros t. split.
    + intros Hnone. destruct (handleConfirmTransfer_cases id t e db)
        as [[_ ->]|(stored & ? & ? & Hst & _)]; [done|congruence].
    + intros [stored Hst]. by rewrite (handleConfirmTransfer_run id t e db stored).
  - intros a. split.
    + intros Hnone. destruct (handleConfirmAddition_cases id a e db)
        as [[_ ->]|(stored & ? & Hst & _)]; [done|congruence].
    + intros [stored Hst]. by rewrite (handleConfirmAddition_run id a e db stored).
Qed.

(** X2. Confirming a transfer touches the sender's row and the receiver's
    row for the item and nothing else: every row of another sector or of
    another item is left as it was, no row disappears, the only row that
    can appear is the receiver's new one, the additions and the other
    transfers stay as they were. *)
Theorem confirmTransfer_touches_only_its_rows id t e db :
  stocks db !! autoId e = None →
  let db' := (handleConfirmTransfer id t e db).1 in
  (∀ id' row,
     stocks db !! id' = Some row →
     other_row (StockTransfer.fromSecteurId t) (StockTransfer.item t) row →
     other_row (StockTransfer.toSecteurId t) (StockTransfer.item t) row →
     stocks db' !! id' = Some row) ∧
  (∀ id', is_Some (stocks db !! id') → is_Some (stocks db' !! id')) ∧
  (∀ id', is_Some (stocks db' !! id') → id' = autoId e ∨ is_Some (stocks db !! id')) ∧
  stock_additions db' = stock_additions db ∧
  (∀ id', id' ≠ id → stock_transfers db' !! id' = stock_transfers db !! id').
Proof.
  intros Hfresh db'. subst db'.
  destruct (stock_transfers db !! id) as [stored|] eqn:Hst.
  - rewrite (handleConfirmTransfer_run id t e db stored Hst).
    cbn [fst stocks stock_transfers stock_additions].
    split; [|split; [|split; [|split]]].
    + intros id' row Hl Hfrom Hto. apply creditedStocks_other; [|done|congruence].
      by apply debitedStocks_other.
    + intros id' Hl. apply creditedStocks_dom. right. by apply debitedStocks_dom.
    + intros id' Hl. apply creditedStocks_dom in Hl as [[-> _]|Hl]; [by left|].
      right. by apply debitedStocks_dom in Hl.
    + done.
    + intros id' Hne. by rewrite lookup_insert_ne.
  - destruct (handleConfirmTransfer_cases id t e db)
      as [[_ ->]|(stored & ? & ? & Hst' & _)]; [|congruence].
    cbn [fst]. repeat split; eauto.
Qed.

(** X3. When the sender has no row for the item, nothing is deducted, and
    the transfer is confirmed all the same: the receiver is credited with
    the quantity, and the sender (another sector) still has no row. *)
Theorem confirmTransfer_without_sender_row id t e db :
  is_Some (stock_transfers db !! id) →
  stock_unique (stocks db) →
  no_row (stocks db) (StockTransfer.fromSecteurId t) (StockTransfer.item t) →
  let r := handleConfirmTransfer id t e db in
  r.2 = Succes "Transfert confirmé" ∧
  (StockTransfer.status <$> stock_transfers r.1 !! id) = Some confirmed ∧
  balance (stocks r.1) (StockTransfer.toSecteurId t) (StockTransfer.item t)
  = js_add (balance (stocks db) (StockTransfer.toSecteurId t) (StockTransfer.item t))
           (StockTransfer.quantity t) ∧
  (StockTransfer.fromSecteurId t ≠ StockTransfer.toSecteurId t →
   no_row (stocks r.1) (StockTransfer.fromSecteurId t) (StockTransfer.item t)).
Proof.
  intros [stored Hst] Hu Hno r. subst r.
  rewrite (handleConfirmTransfer_run id t e db stored Hst).
  cbn [fst snd stocks stock_transfers].
  assert (Hdeb : debitedStocks e (StockTransfer.fromSecteurId t) (StockTransfer.item t)
                   (StockTransfer.quantity t) (stocks db) = stocks db).
  { unfold debitedStocks. by rewrite getDocs_stocks_no_row. }
  rewrite Hdeb. split; [done|]. split; [by rewrite lookup_insert_eq|]. split.
  - by apply creditedStocks_balance.
  - intros Hne. apply creditedStocks_no_row_other; [done|]. by left.
Qed.

(** ** Requests and additions that are accepted *)

(** X4. A transfer request that passes the form and finds the sender's row
    holding at least the quantity adds exactly one document: a pending
    transfer with the form's item, quantity, unit and sectors, under the id
    the store picks. No stock row changes, and the new transfer is offered
    for confirmation to the users of the destination sector and to no
    others. *)
Theorem createTransfer_adds_one_pending_transfer (parseInt : string → number)
    isSuperAdmin user form loaded e db from q row a :
  TransferForm.item form ≠ "" → TransferForm.quantity form ≠ "" →
  TransferForm.toSecteurId form ≠ "" →
  (isSuperAdmin = true → TransferForm.fromSecteurId form ≠ "") →
  transferSender isSuperAdmin user form = Some from →
  TransferForm.toSecteurId form ≠ from →
  parseInt (TransferForm.quantity form) = Num q → 0 < q →
  loaded_unique loaded →
  row ∈ loaded →
  StockItem.secteurId row.2 = from →
  StockItem.item row.2 = TransferForm.item form →
  StockItem.quantity row.2 = Num a → q ≤ a →
  let r := handleTransferSubmit parseInt isSuperAdmin user form loaded e db in
  let t := StockTransfer.mk from (TransferForm.toSecteurId form) (TransferForm.item form)
             (Num q) (TransferForm.unit form) pending (serverTimestamp e) None in
  r.2 = Succes "Transfert créé" ∧
  stocks r.1 = stocks db ∧ stock_additions r.1 = stock_additions db ∧
  stock_transfers r.1 !! autoId e = Some t ∧
  (∀ id, id ≠ autoId e → stock_transfers r.1 !! id = stock_transfers db !! id) ∧
  (∀ u, (autoId e, t) ∈ pendingIncomingTransfers u (map_to_list (stock_transfers r.1))
        ↔ user_fermeId u = Some (TransferForm.toSecteurId form)).
Proof.
  intros Hi Hqs Ht Hf Hfrom Hne Hq Hpos Hu Hin Hs Hit Hqa Hle r t. subst r.
  rewrite (handleTransferSubmit_accepts parseInt isSuperAdmin user form loaded e db
             from q row a) by done.
  cbn [fst snd stocks stock_transfers stock_additions]. fold t.
  split; [done|]. split; [done|]. split; [done|].
  split; [by rewrite lookup_insert_eq|]. split.
  - intros id Hid. by rewrite lookup_insert_ne.
  - intros u. unfold pendingIncomingTransfers.
    rewrite list_elem_of_filter, elem_of_map_to_list, lookup_insert_eq. simpl.
    split; [by intros [[_ ->] _]|]. intros ->. done.
Qed.

Lemma elem_of_availableItems isSuperAdmin user form loaded a :
  a ∈ availableItems isSuperAdmin user form loaded ↔
  ∃ row, row ∈ loaded ∧
         Some (StockItem.secteurId row.2) = transferSender isSuperAdmin user form ∧
         js_gt (StockItem.quantity row.2) (Num 0) = true ∧
         a = AvailableItem.mk (StockItem.item row.2) (StockItem.unit row.2)
                              (StockItem.quantity row.2).
Proof.
  unfold availableItems, transferSender. rewrite list_elem_of_fmap. split.
  - intros (row & -> & Hrow). apply list_elem_of_filter in Hrow as [[? ?] ?].
    by exists row.
  - intros (row & Hin & Hs & Hq & ->). exists row. split; [done|].
    by apply list_elem_of_filter.
Qed.

(** X5. Every item the transfer dialog offers is held by the sender in a
    positive quantity, and a request for that item of any quantity from 1 up
    to the quantity shown, to another sector, is accepted. *)
Theorem offered_items_can_be_requested (parseInt : string → number)
    isSuperAdmin user form loaded e db from q a :
  a ∈ availableItems isSuperAdmin user form loaded →
  loaded_unique loaded →
  transferSender isSuperAdmin user form = Some from →
  TransferForm.item form = AvailableItem.item a →
  TransferForm.item form ≠ "" → TransferForm.quantity form ≠ "" →
  TransferForm.toSecteurId form ≠ "" →
  (isSuperAdmin = true → TransferForm.fromSecteurId form ≠ "") →
  TransferForm.toSecteurId form ≠ from →
  parseInt (TransferForm.quantity form) = Num q → 0 < q →
  js_le (Num q) (AvailableItem.available a) = true →
  js_gt (AvailableItem.available a) (Num 0) = true ∧
  (handleTransferSubmit parseInt isSuperAdmin user form loaded e db).2
  = Succes "Transfert créé".
Proof.
  intros Ha Hu Hfrom Hitem Hi Hqs Ht Hf Hne Hq Hpos Hle.
  apply elem_of_availableItems in Ha as (row & Hin & Hs & Hgt & ->).
  simpl in *. split; [done|].
  destruct (StockItem.quantity row.2) as [n|] eqn:Hn; [|done].
  unfold js_le in Hle. apply bool_decide_eq_true in Hle.
  rewrite (handleTransferSubmit_accepts parseInt isSuperAdmin user form loaded e db
             from q row n); try done.
  congruence.
Qed.

(** X6. A stock addition by a sector admin goes to the admin's own sector,
    whatever sector the form names: that sector's balance of the item grows
    by the quantity (a row is created when there is none), every row of
    another sector or item stays as it was, and no transfer or addition is
    written. *)
Theorem addStock_by_sector_admin (parseInt : string → number) user form e db fermeId q :
  AddStockForm.item form ≠ "" → AddStockForm.quantity form ≠ "" →
  AddStockForm.secteurId form ≠ "" →
  user_fermeId user = Some fermeId →
  parseInt (AddStockForm.quantity form) = Num q → 0 < q →
  stock_unique (stocks db) →
  let r := handleAddStockSubmit parseInt false user form e db in
  r.2 = Succes "Stock ajouté" ∧
  balance (stocks r.1) fermeId (AddStockForm.item form)
  = js_add (balance (stocks db) fermeId (AddStockForm.item form)) (Num q) ∧
  (∀ id row, stocks db !! id = Some row →
             other_row fermeId (AddStockForm.item form) row → id ≠ autoId e →
             stocks r.1 !! id = Some row) ∧
  stock_transfers r.1 = stock_transfers db ∧ stock_additions r.1 = stock_additions db.
Proof.
  intros Hi Hqs Hs Hf Hq Hpos Hu r. subst r.
  rewrite handleAddStockSubmit_run; [|done..| |].
  - rewrite Hf, Hq. cbn [fst snd stocks stock_transfers stock_additions].
    split; [done|]. split; [by apply creditedStocks_balance|]. split; [|done].
    intros id row Hl Hother Hid. by apply creditedStocks_other.
  - done.
  - rewrite Hq. by apply js_le_pos.
Qed.

(** X7. An addition made in two steps has the effect of a direct one: when
    a super admin creates an addition for a sector, no stock row changes and
    the addition is pending and offered; once it is confirmed, the stock
    rows are those a direct addition of the same item, quantity and unit by
    the sector's own admin would have left. *)
Theorem addition_in_two_steps_equals_direct (parseInt : string → number)
    superAdmin sectorAdmin uid form e1 e2 db :
  AddStockForm.item form ≠ "" → AddStockForm.quantity form ≠ "" →
  AddStockForm.secteurId form ≠ "" →
  js_le (parseInt (AddStockForm.quantity form)) (Num 0) = false →
  user_uid superAdmin = Some uid →
  user_fermeId sectorAdmin = Some (AddStockForm.secteurId form) →
  let db1 := (handleAddStockSubmit parseInt true superAdmin form e1 db).1 in
  let addition :=
    StockAddition.mk (AddStockForm.secteurId form) (AddStockForm.item form)
      (parseInt (AddStockForm.quantity form)) (AddStockForm.unit form) pending uid
      (serverTimestamp e1) None in
  stocks db1 = stocks db ∧
  (autoId e1, addition) ∈ pendingAdditions (map_to_list (stock_additions db1)) ∧
  stocks (handleConfirmAddition (autoId e1) addition e2 db1).1
  = stocks (handleAddStockSubmit parseInt false sectorAdmin form e2 db).1.
Proof.
  intros Hi Hqs Hs Hle Huid Hf db1 addition. subst db1.
  rewrite !handleAddStockSubmit_run by done. rewrite Huid, Hf.
  cbn [fst stocks stock_additions]. fold addition.
  split; [done|]. split.
  - unfold pendingAdditions. apply list_elem_of_filter. split; [done|].
    apply elem_of_map_to_list. by rewrite lookup_insert_eq.
  - rewrite (handleConfirmAddition_run _ _ _ _ addition)
      by (cbn [stock_additions]; by rewrite lookup_insert_eq).
    done.
Qed.

(** X8. A quantity text that [parseInt] cannot read is not refused. With
    the other fields filled, the addition of a sector admin goes through
    and leaves the sector's balance of the item at [NaN]; and a transfer
    request for an item the sender has a row for is accepted, as a pending
    transfer whose quantity is [NaN]. *)
Theorem unreadable_quantity_is_not_refused (parseInt : string → number) e db :
  (∀ user form fermeId,
     AddStockForm.item form ≠ "" → AddStockForm.quantity form ≠ "" →
     AddStockForm.secteurId form ≠ "" →
     user_fermeId user = Some fermeId →
     parseInt (AddStockForm.quantity form) = NaN →
     stock_unique (stocks db) →
     let r := handleAddStockSubmit parseInt false user form e db in
     r.2 = Succes "Stock ajouté" ∧
     balance (stocks r.1) fermeId (AddStockForm.item form) = NaN) ∧
  (∀ isSuperAdmin user form loaded from row,
     TransferForm.item form ≠ "" → TransferForm.quantity form ≠ "" →
     TransferForm.toSecteurId form ≠ "" →
     (isSuperAdmin = true → TransferForm.fromSecteurId form ≠ "") →
     transferSender isSuperAdmin user form = Some from →
     TransferForm.toSecteurId form ≠ from →
     parseInt (TransferForm.quantity form) = NaN →
     row ∈ loaded →
     StockItem.secteurId row.2 = from →
     StockItem.item row.2 = TransferForm.item form →
     let r := handleTransferSubmit parseInt isSuperAdmin user form loaded e db in
     r.2 = Succes "Transfert créé" ∧
     (StockTransfer.quantity <$> stock_transfers r.1 !! autoId e) = Some NaN).
Proof.
  split.
  - intros user form fermeId Hi Hqs Hs Hf Hq Hu r. subst r.
    rewrite handleAddStockSubmit_run; [|done..| |].
    + rewrite Hf, Hq. cbn [fst snd stocks]. split; [done|].
      rewrite creditedStocks_balance by done. by destruct (balance _ _ _).
    + done.
    + by rewrite Hq.
  - intros isSuperAdmin user form loaded from row Hi Hqs Ht Hf Hfrom Hne Hq Hin Hs Hit r.
    subst r. unfold handleTransferSubmit.
    rewrite requiredFields_filled by done.
    fold (transferSender isSuperAdmin user form). rewrite Hfrom.
    rewrite bool_decide_eq_false_2 by congruence. rewrite Hq. simpl js_le. cbv iota.
    destruct (List.find _ loaded) as [row'|] eqn:E.
    + assert (Hlt : js_lt (StockItem.quantity row'.2) NaN = false)
        by (by destruct (StockItem.quantity row'.2)).
      rewrite Hlt. cbn [fst snd stock_transfers]. unfold try_catch, addTransferDoc, addDoc.
      cbn [fst snd stock_transfers]. split; [done|]. by rewrite lookup_insert_eq.
    + exfalso. eapply find_none in E; [|apply list_elem_of_In; exact Hin].
      simpl in E. rewrite Hs, Hit in E.
      rewrite !bool_decide_eq_true_2 in E by done. done.
Qed.

(** ** The stock summary *)


Lemma js_sum_snoc l x : js_sum (l ++ [x]) = js_add (js_sum l) x.
Proof. unfold js_sum. by rewrite foldl_app. Qed.

Lemma js_sum_head x l : js_sum (x :: l) = foldl js_add x l.
Proof. unfold js_sum. cbn [foldl]. by rewrite js_add_zero_l. Qed.

(** *** Sums within the safe integers *)

Lemma magnitude_nonneg l : 0 ≤ magnitude l.
Proof. induction l as [|n l IH]; simpl; lia. Qed.

Lemma exact_sum_le_magnitude l : Z.abs (exact_sum l) ≤ magnitude l.
Proof. induction l as [|n l IH]; simpl; lia. Qed.

Lemma exact_sum_app l1 l2 : exact_sum (l1 ++ l2) = exact_sum l1 + exact_sum l2.
Proof. induction l1 as [|n l1 IH]; simpl; lia. Qed.

Lemma magnitude_app l1 l2 : magnitude (l1 ++ l2) = magnitude l1 + magnitude l2.
Proof. induction l1 as [|n l1 IH]; simpl; lia. Qed.

(** A running sum whose operands stay within the safe integers is the
    exact sum. *)
Lemma foldl_js_add_exact a l :
  Forall (λ n, n ≠ NaN) l → Z.abs a + magnitude l ≤ 2 ^ 53 →
  foldl js_add (Num a) l = Num (a + exact_sum l).
Proof.
  revert a. induction l as [|n l IH]; intros a Hl Hb.
  - simpl. f_equal. lia.
  - apply Forall_cons in Hl as [Hn Hl]. destruct n as [q|]; [|done].
    cbn [foldl]. cbn [magnitude exact_sum foldr js_or_zero] in *.
    fold (magnitude l) in Hb. fold (exact_sum l).
    pose proof (magnitude_nonneg l).
    rewrite js_add_safe by (unfold safe_integer; lia).
    rewrite IH; [f_equal; lia|done|lia].
Qed.

Lemma js_sum_exact l :
  Forall (λ n, n ≠ NaN) l → safe_integer (magnitude l) → js_sum l = Num (exact_sum l).
Proof.
  intros Hl Hb. unfold js_sum, safe_integer in *. pose proof (magnitude_nonneg l).
  rewrite foldl_js_add_exact; [done|done|simpl; lia].
Qed.

Lemma totalItems_js_sum stocks :
  totalItems stocks = js_sum ((λ s : string * StockItem.t, StockItem.quantity s.2) <$> stocks).
Proof.
  unfold totalItems, js_sum. generalize (Num 0).
  induction stocks as [|s l IH]; intros a; simpl; [done|]. apply IH.
Qed.

(** The property of a key after one row. *)
Lemma addToTotals_lookup o row k :
  (addToTotals o row).1 !! k =
  if decide (k = totalKey (StockItem.item row.2) (StockItem.unit row.2)) then
    Some (match o.1 !! k with
          | Some t => StockTotal.mk (StockTotal.item t)
                        (js_add (StockTotal.totalQuantity t) (StockItem.quantity row.2))
                        (StockTotal.unit t)
          | None => StockTotal.mk (StockItem.item row.2) (StockItem.quantity row.2)
                      (StockItem.unit row.2)
          end)
  else o.1 !! k.
Proof.
  unfold addToTotals. cbv zeta.
  set (kr := totalKey (StockItem.item row.2) (StockItem.unit row.2)).
  case_decide as Hk.
  - subst k. destruct (o.1 !! kr) as [t|] eqn:E; simpl.
    + by rewrite lookup_alter_eq, E.
    + rewrite lookup_alter_eq, lookup_insert_eq.
      cbn [fmap option_fmap option_map StockTotal.item StockTotal.unit
           StockTotal.totalQuantity]. by rewrite js_add_zero_l.
  - destruct (o.1 !! kr) as [t|] eqn:E; simpl.
    + by rewrite lookup_alter_ne.
    + rewrite lookup_alter_ne by done. by rewrite lookup_insert_ne.
Qed.

Lemma addToTotals_keys o row :
  (addToTotals o row).2 =
  match o.1 !! totalKey (StockItem.item row.2) (StockItem.unit row.2) with
  | Some _ => o.2
  | None => (o.2 ++ [totalKey (StockItem.item row.2) (StockItem.unit row.2)])%list
  end.
Proof. unfold addToTotals. cbv zeta. by destruct (o.1 !! _). Qed.

Lemma addToTotals_ok o row : totals_ok o → totals_ok (addToTotals o row).
Proof.
  intros (Hnd & Hdom & Hkey).
  set (kr := totalKey (StockItem.item row.2) (StockItem.unit row.2)).
  split; [|split].
  - rewrite addToTotals_keys. fold kr. destruct (o.1 !! kr) eqn:E; [done|].
    apply NoDup_app. split; [done|]. split; [|apply NoDup_singleton].
    intros k Hk Hk'. apply list_elem_of_singleton in Hk'. subst k.
    apply Hdom in Hk. rewrite E in Hk. by destruct Hk.
  - intros k. rewrite addToTotals_keys, addToTotals_lookup. fold kr.
    case_decide as Hk.
    + subst k. split; [by eauto|]. intros _.
      destruct (o.1 !! kr) eqn:E.
      * apply Hdom. by rewrite E.
      * apply elem_of_app. right. left.
    + destruct (o.1 !! kr) eqn:E; [apply Hdom|].
      rewrite elem_of_app, list_elem_of_singleton, Hdom. split; [|by left].
      by intros [?|?].
  - intros k t. rewrite addToTotals_lookup. fold kr. case_decide as Hk.
    + subst k. destruct (o.1 !! kr) as [t0|] eqn:E; intros [= <-]; simpl.
      * by apply Hkey.
      * done.
    + apply Hkey.
Qed.

Lemma foldl_addToTotals_ok o rows : totals_ok o → totals_ok (foldl addToTotals o rows).
Proof.
  revert o. induction rows as [|row rows IH]; intros o Ho; simpl; [done|].
  by apply IH, addToTotals_ok.
Qed.

Lemma totals_ok_empty : totals_ok (∅, []).
Proof.
  split; [constructor|]. split.
  - intros k. simpl. rewrite lookup_empty. split; [by intros ?%not_elem_of_nil|].
    by intros [? ?].
  - intros k t. simpl. by rewrite lookup_empty.
Qed.

Lemma elem_of_Object_values o t :
  totals_ok o → t ∈ Object_values o ↔ ∃ k, o.1 !! k = Some t.
Proof.
  intros (Hnd & Hdom & Hkey). unfold Object_values. rewrite list_elem_of_omap. split.
  - intros (k & _ & Hl). by exists k.
  - intros (k & Hl). exists k. split; [|done]. apply Hdom. by rewrite Hl.
Qed.

Lemma Object_values_keys o :
  totals_ok o →
  (λ t, totalKey (StockTotal.item t) (StockTotal.unit t)) <$> Object_values o = o.2.
Proof.
  intros (Hnd & Hdom & Hkey). unfold Object_values.
  assert (Hall : ∀ k, k ∈ o.2 → is_Some (o.1 !! k)) by (intros k; apply Hdom).
  clear Hnd Hdom. induction o.2 as [|k l IH]; [done|]. simpl.
  destruct (Hall k) as [t Ht]; [left|]. rewrite Ht. simpl. rewrite (Hkey k t Ht).
  f_equal. apply IH. intros k' Hk'. apply Hall. by right.
Qed.

(** The entry of a key after the rows: the total of the rows of the key,
    under the item and unit of the first of them. *)
Lemma foldl_addToTotals_lookup rows o k :
  (foldl addToTotals o rows).1 !! k =
  match o.1 !! k, rowsOfKey k rows with
  | Some t, rs =>
      Some (StockTotal.mk (StockTotal.item t)
              (foldl js_add (StockTotal.totalQuantity t)
                 ((λ s : string * StockItem.t, StockItem.quantity s.2) <$> rs))
              (StockTotal.unit t))
  | None, [] => None
  | None, r :: rs =>
      Some (StockTotal.mk (StockItem.item r.2)
              (foldl js_add (StockItem.quantity r.2)
                 ((λ s : string * StockItem.t, StockItem.quantity s.2) <$> rs))
              (StockItem.unit r.2))
  end.
Proof.
  revert o. induction rows as [|row rows IH]; intros o; simpl.
  - unfold rowsOfKey. simpl. by destruct (o.1 !! k) as [[]|].
  - rewrite IH, addToTotals_lookup. unfold rowsOfKey.
    case_decide as Hk.
    + rewrite filter_cons_True by done. fold (rowsOfKey k rows).
      by destruct (o.1 !! k) as [t|].
    + rewrite filter_cons_False by done. done.
Qed.

Lemma omap_ext_elem {A B} (f g : A → option B) (l : list A) :
  (∀ x, x ∈ l → f x = g x) → omap f l = omap g l.
Proof.
  induction l as [|a l IH]; intros H; [done|].
  assert (Hl : omap f l = omap g l).
  { apply IH. intros x Hx. apply H. by right. }
  change (omap f (a :: l)) with (match f a with Some y => y :: omap f l | None => omap f l end).
  change (omap g (a :: l)) with (match g a with Some y => y :: omap g l | None => omap g l end).
  rewrite (H a) by left. by rewrite Hl.
Qed.

Lemma omap_cons_eq {A B} (f : A → option B) (a : A) (l : list A) :
  omap f (a :: l) = match f a with Some y => y :: omap f l | None => omap f l end.
Proof. reflexivity. Qed.

(** Adding [q] to the entry of one key adds [q] to the sum of the entries. *)
Lemma totals_bump (f g : string → option StockTotal.t) l kr t0 t q :
  NoDup l → kr ∈ l → f kr = Some t0 → StockTotal.totalQuantity t0 = Num t →
  g kr = Some (StockTotal.mk (StockTotal.item t0) (Num (t + q)) (StockTotal.unit t0)) →
  (∀ k, k ≠ kr → g k = f k) →
  let F := StockTotal.totalQuantity <$> omap f l in
  let G := StockTotal.totalQuantity <$> omap g l in
  exact_sum G = exact_sum F + q ∧ magnitude G ≤ magnitude F + Z.abs q ∧
  (Forall (λ n, n ≠ NaN) F → Forall (λ n, n ≠ NaN) G).
Proof.
  intros Hnd Hin Hf Ht Hg Hother. cbv zeta.
  induction l as [|k l IH]; [by apply not_elem_of_nil in Hin|].
  apply NoDup_cons in Hnd as [Hk Hnd]. rewrite !omap_cons_eq.
  destruct (decide (k = kr)) as [->|Hne].
  - rewrite Hf, Hg.
    rewrite (omap_ext_elem g f l).
    2:{ intros x Hx. apply Hother. intros ->. done. }
    rewrite !fmap_cons. cbn [StockTotal.totalQuantity exact_sum magnitude foldr].
    rewrite Ht. cbn [js_or_zero]. split; [lia|]. split; [lia|].
    intros [_ Hrest]%Forall_cons. by apply Forall_cons.
  - apply elem_of_cons in Hin as [Hin|Hin]; [congruence|].
    destruct (IH Hnd Hin) as (IH1 & IH2 & IH3).
    rewrite (Hother k Hne). destruct (f k) as [v|]; [|done].
    rewrite !fmap_cons. cbn [exact_sum magnitude foldr].
    fold (exact_sum (StockTotal.totalQuantity <$> omap g l)).
    fold (exact_sum (StockTotal.totalQuantity <$> omap f l)).
    fold (magnitude (StockTotal.totalQuantity <$> omap g l)).
    fold (magnitude (StockTotal.totalQuantity <$> omap f l)).
    split; [lia|]. split; [lia|].
    intros [Hv Hrest]%Forall_cons. apply Forall_cons. split; [done|by apply IH3].
Qed.

Lemma magnitude_entry (f : string → option StockTotal.t) l k t0 t :
  k ∈ l → f k = Some t0 → StockTotal.totalQuantity t0 = Num t →
  Z.abs t ≤ magnitude (StockTotal.totalQuantity <$> omap f l).
Proof.
  intros Hin Hf Ht. induction l as [|k' l IH]; [by apply not_elem_of_nil in Hin|].
  rewrite omap_cons_eq.
  pose proof (magnitude_nonneg (StockTotal.totalQuantity <$> omap f l)) as Hpos.
  destruct (decide (k' = k)) as [->|Hne].
  - rewrite Hf, fmap_cons. cbn [magnitude foldr].
    fold (magnitude (StockTotal.totalQuantity <$> omap f l)).
    rewrite Ht. cbn [js_or_zero]. lia.
  - apply elem_of_cons in Hin as [?|Hin]; [congruence|].
    assert (IH' := IH Hin). destruct (f k'); [|done].
    rewrite fmap_cons. cbn [magnitude foldr].
    fold (magnitude (StockTotal.totalQuantity <$> omap f l)). lia.
Qed.

Lemma NoNaN_lookup (o : Dict StockTotal.t) k t0 :
  Forall (λ n, n ≠ NaN) (StockTotal.totalQuantity <$> Object_values o) →
  k ∈ o.2 → o.1 !! k = Some t0 → ∃ t, StockTotal.totalQuantity t0 = Num t.
Proof.
  intros Hall Hk Hl. rewrite Forall_forall in Hall.
  destruct (StockTotal.totalQuantity t0) as [t|] eqn:E; [by exists t|].
  exfalso. apply (Hall NaN); [|done].
  apply list_elem_of_fmap. exists t0. split; [done|].
  unfold Object_values. apply list_elem_of_omap. by exists k.
Qed.

(** One row more, within the safe integers. *)
Lemma Object_values_total_add o row q :
  totals_ok o → StockItem.quantity row.2 = Num q →
  let F := StockTotal.totalQuantity <$> Object_values o in
  let G := StockTotal.totalQuantity <$> Object_values (addToTotals o row) in
  Forall (λ n, n ≠ NaN) F → magnitude F + Z.abs q ≤ 2 ^ 53 →
  exact_sum G = exact_sum F + q ∧ magnitude G ≤ magnitude F + Z.abs q ∧
  Forall (λ n, n ≠ NaN) G.
Proof.
  intros (Hnd & Hdom & Hkey) Hq F G HF Hb. subst F G. unfold Object_values in *.
  rewrite addToTotals_keys.
  set (kr := totalKey (StockItem.item row.2) (StockItem.unit row.2)).
  destruct (o.1 !! kr) as [t0|] eqn:E.
  - assert (Hin : kr ∈ o.2) by (apply Hdom; by rewrite E).
    destruct (NoNaN_lookup o kr t0 HF Hin E) as [t Ht].
    pose proof (magnitude_entry (λ key, o.1 !! key) o.2 kr t0 t Hin E Ht) as Hmag.
    cbv beta in Hmag.
    destruct (totals_bump (λ key, o.1 !! key) (λ key, (addToTotals o row).1 !! key)
                o.2 kr t0 t q) as (H1 & H2 & H3); try done.
    + rewrite addToTotals_lookup. fold kr. rewrite decide_True by done. rewrite E.
      rewrite Ht, Hq. rewrite js_add_safe; [done|]. unfold safe_integer. lia.
    + intros k Hk. rewrite addToTotals_lookup. fold kr. by rewrite decide_False.
    + split; [done|]. split; [done|by apply H3].
  - rewrite omap_app, fmap_app, (omap_cons_eq _ kr []). cbv beta.
    rewrite addToTotals_lookup. fold kr. rewrite decide_True by done. rewrite E.
    change (omap _ []) with (@nil StockTotal.t).
    rewrite fmap_cons, fmap_nil. cbn [StockTotal.totalQuantity].
    assert (Hsame : omap (λ key, (addToTotals o row).1 !! key) o.2
                    = omap (λ key, o.1 !! key) o.2).
    { apply omap_ext_elem. intros k Hk. rewrite addToTotals_lookup. fold kr.
      rewrite decide_False; [done|]. intros ->. apply Hdom in Hk. rewrite E in Hk.
      by destruct Hk. }
    rewrite Hsame, exact_sum_app, magnitude_app, Hq. simpl.
    split; [lia|]. split; [lia|].
    apply Forall_app. split; [done|]. by repeat constructor.
Qed.

Lemma foldl_addToTotals_sum rows o :
  totals_ok o →
  let quantities := (λ s : string * StockItem.t, StockItem.quantity s.2) <$> rows in
  let F := StockTotal.totalQuantity <$> Object_values o in
  let G := StockTotal.totalQuantity <$> Object_values (foldl addToTotals o rows) in
  Forall (λ n, n ≠ NaN) quantities → Forall (λ n, n ≠ NaN) F →
  magnitude F + magnitude quantities ≤ 2 ^ 53 →
  exact_sum G = exact_sum F + exact_sum quantities ∧
  magnitude G ≤ magnitude F + magnitude quantities ∧
  Forall (λ n, n ≠ NaN) G.
Proof.
  revert o. induction rows as [|row rows IH]; intros o Ho; cbv zeta.
  - simpl. intros _ HF _. split; [lia|]. split; [lia|done].
  - rewrite fmap_cons. intros [Hrow Hrows]%Forall_cons HF Hb.
    destruct (StockItem.quantity row.2) as [q|] eqn:Hq; [|done].
    cbn [magnitude exact_sum foldr js_or_zero] in *.
    fold (magnitude ((λ s : string * StockItem.t, StockItem.quantity s.2) <$> rows)) in *.
    fold (exact_sum ((λ s : string * StockItem.t, StockItem.quantity s.2) <$> rows)).
    pose proof (magnitude_nonneg
                  ((λ s : string * StockItem.t, StockItem.quantity s.2) <$> rows)).
    destruct (Object_values_total_add o row q Ho Hq HF) as (H1 & H2 & H3); [lia|].
    cbn [foldl].
    destruct (IH (addToTotals o row)) as (IH1 & IH2 & IH3);
      [by apply addToTotals_ok|done|done|lia|].
    split; [lia|]. split; [lia|done].
Qed.

Lemma totalKey_inj item1 unit1 item2 unit2 :
  dash_free item1 → dash_free item2 →
  totalKey item1 unit1 = totalKey item2 unit2 ↔ item1 = item2 ∧ unit1 = unit2.
Proof.
  intros H1 H2. unfold totalKey. split; [|by intros [-> ->]].
  by apply string_app_inj_dash.
Qed.

(** X9. The summary of the super admin has one entry per key [item-unit]
    among the rows: the entries have different keys, every row has its
    entry, and the total of an entry is the sum of the quantities of the
    rows under its key, named after one of them. When no item name contains
    a dash, the rows under the key of an entry are exactly the rows of its
    item in its unit. *)
Theorem stock_summary_totals rows :
  let summary := totalStockSummary true rows in
  NoDup ((λ t, totalKey (StockTotal.item t) (StockTotal.unit t)) <$> summary) ∧
  (∀ row, row ∈ rows →
     ∃ t, t ∈ summary ∧
          totalKey (StockTotal.item t) (StockTotal.unit t)
          = totalKey (StockItem.item row.2) (StockItem.unit row.2)) ∧
  (∀ t, t ∈ summary →
     let rs := rowsOfKey (totalKey (StockTotal.item t) (StockTotal.unit t)) rows in
     StockTotal.totalQuantity t
     = js_sum ((λ s : string * StockItem.t, StockItem.quantity s.2) <$> rs) ∧
     (∃ row, row ∈ rs ∧ StockTotal.item t = StockItem.item row.2
             ∧ StockTotal.unit t = StockItem.unit row.2) ∧
     (Forall (λ row : string * StockItem.t, dash_free (StockItem.item row.2)) rows →
      rs = rowsOfItemUnit (StockTotal.item t) (StockTotal.unit t) rows)).
Proof.
  intros summary. subst summary. unfold totalStockSummary. simpl negb. cbv iota.
  pose proof (foldl_addToTotals_ok (∅, []) rows totals_ok_empty) as Hok.
  split; [|split].
  - rewrite Object_values_keys by done. by destruct Hok.
  - intros row Hrow.
    set (k := totalKey (StockItem.item row.2) (StockItem.unit row.2)).
    pose proof (foldl_addToTotals_lookup rows (∅, []) k) as Hl.
    simpl in Hl. rewrite lookup_empty in Hl.
    destruct (rowsOfKey k rows) as [|r rs] eqn:E.
    { exfalso. assert (Hin : row ∈ rowsOfKey k rows)
        by (by apply list_elem_of_filter).
      rewrite E in Hin. by apply not_elem_of_nil in Hin. }
    eexists. split; [apply elem_of_Object_values; [done|]; by exists k|].
    destruct Hok as (_ & _ & Hkey). by apply (Hkey k _ Hl).
  - intros t Ht. apply elem_of_Object_values in Ht as [k Hk]; [|done].
    destruct Hok as (_ & _ & Hkey). rewrite (Hkey k t Hk). cbv zeta.
    rewrite foldl_addToTotals_lookup in Hk. simpl in Hk. rewrite lookup_empty in Hk.
    destruct (rowsOfKey k rows) as [|r rs] eqn:E; [done|]. injection Hk as <-. simpl.
    assert (Hr : r ∈ rowsOfKey k rows) by (rewrite E; left).
    split; [|split].
    + exact (eq_sym (js_sum_head _ _)).
    + exists r. split; [left|done].
    + intros Hdash. rewrite <- E. unfold rowsOfKey, rowsOfItemUnit.
      rewrite Forall_forall in Hdash.
      apply list_elem_of_filter in Hr as [Hkr Hrin].
      apply filter_iff_elem. intros row Hrow. rewrite <- Hkr.
      apply totalKey_inj; by apply Hdash.
Qed.

(** X10. The summary keeps the grand total as long as the sums are exact:
    when the quantities of the rows are integers whose absolute values add
    up to at most [2 ^ 53], the totals of the entries of the summary add up
    to the sum of the quantities of the rows, the total the PDF report
    prints for the same rows. For a user who is not a super admin the
    summary is empty. *)
Theorem stock_summary_keeps_grand_total rows :
  let quantities := (λ s : string * StockItem.t, StockItem.quantity s.2) <$> rows in
  Forall (λ n, n ≠ NaN) quantities →
  safe_integer (magnitude quantities) →
  js_sum (StockTotal.totalQuantity <$> totalStockSummary true rows) = totalItems rows ∧
  totalItems rows = Num (exact_sum quantities) ∧
  totalStockSummary false rows = [].
Proof.
  intros quantities Hnum Hsafe. unfold safe_integer in Hsafe.
  pose proof (magnitude_nonneg quantities) as Hpos.
  assert (Htotal : totalItems rows = Num (exact_sum quantities)).
  { rewrite totalItems_js_sum. by apply js_sum_exact. }
  split; [|split; [exact Htotal|done]].
  rewrite Htotal. unfold totalStockSummary. simpl negb. cbv iota.
  destruct (foldl_addToTotals_sum rows (∅, []) totals_ok_empty) as (Hsum & Hmag & Hnan).
  { done. }
  { constructor. }
  { change (0 + magnitude quantities ≤ 2 ^ 53). lia. }
  rewrite js_sum_exact; [|done|].
  - f_equal. rewrite Hsum. fold quantities.
    change (exact_sum (StockTotal.totalQuantity <$> Object_values (∅, []))) with 0. lia.
  - unfold safe_integer. fold quantities in Hmag.
    pose proof (magnitude_nonneg
                  (StockTotal.totalQuantity
                     <$> Object_values (foldl addToTotals (∅, []) rows))).
    change (magnitude (StockTotal.totalQuantity <$> Object_values (∅, []))) with 0 in Hmag.
    lia.
Qed.

(** ** Transfers listed once *)

Lemma findIndex_first {A} (pre l : list (string * A)) x :
  findIndex (λ t : string * A, t.1 = x.1) (pre ++ x :: l)%list = Z.of_nat (length pre)
  ↔ x.1 ∉ pre.*1.
Proof.
  unfold findIndex.
  destruct (list_find _ (pre ++ x :: l)%list) as [[i y]|] eqn:E.
  - apply list_find_Some in E as (Hi & Hy & Hmin). split.
    + intros Heq. apply Nat2Z.inj in Heq. subst i.
      intros Hin. apply list_elem_of_fmap in Hin as (z & Hz & Hin).
      apply list_elem_of_lookup in Hin as [j Hj].
      apply (Hmin j z); [by rewrite lookup_app_l by (by eapply lookup_lt_Some)| |done].
      by eapply lookup_lt_Some.
    + intros Hnotin. f_equal.
      destruct (Nat.lt_trichotomy i (length pre)) as [Hlt|[->|Hgt]]; [|done|].
      * exfalso. apply Hnotin. rewrite lookup_app_l in Hi by done.
        apply list_elem_of_fmap. exists y. split; [done|]. by eapply list_elem_of_lookup_2.
      * exfalso. apply (Hmin (length pre) x); [|done|done].
        by rewrite list_lookup_middle.
  - apply list_find_None in E. rewrite Forall_forall in E.
    exfalso. apply (E x); [|done]. apply elem_of_app. right. left.
Qed.

Lemma filter_from_firstOccurrences {A} (pre l : list (string * A)) :
  filter_from
    (λ (transfer : string * A) index,
       bool_decide (Z.of_nat index
                    = findIndex (λ t : string * A, t.1 = transfer.1) (pre ++ l)%list))
    (length pre) l
  = firstOccurrences pre.*1 l.
Proof.
  revert pre. induction l as [|x l IH]; intros pre; [done|]. simpl.
  specialize (IH (pre ++ [x])%list).
  rewrite <- app_assoc, length_app, Nat.add_1_r, fmap_app in IH. simpl in IH.
  rewrite IH.
  pose proof (findIndex_first pre l x) as Hfirst.
  case_bool_decide as H1; case_bool_decide as H2; try done.
  - exfalso. symmetry in H1. by apply Hfirst in H1.
  - exfalso. apply H1. symmetry. by apply Hfirst.
Qed.

Lemma uniqueTransfers_firstOccurrences allTransfers :
  uniqueTransfers allTransfers = firstOccurrences [] allTransfers.
Proof. apply (filter_from_firstOccurrences [] allTransfers). Qed.

Lemma elem_of_firstOccurrences {A} seen (l : list (string * A)) x :
  x ∈ firstOccurrences seen l → x ∈ l ∧ x.1 ∉ seen.
Proof.
  revert seen. induction l as [|y l IH]; intros seen; simpl.
  - by intros ?%not_elem_of_nil.
  - case_bool_decide as Hy.
    + intros Hx. apply IH in Hx as [Hx Hs]. split; [by right|].
      intros Hin. apply Hs, elem_of_app. by left.
    + intros Hx. apply elem_of_cons in Hx as [->|Hx]; [split; [left|done]|].
      apply IH in Hx as [Hx Hs]. split; [by right|].
      intros Hin. apply Hs, elem_of_app. by left.
Qed.

Lemma firstOccurrences_NoDup {A} seen (l : list (string * A)) :
  NoDup (firstOccurrences seen l).*1.
Proof.
  revert seen. induction l as [|y l IH]; intros seen; simpl; [constructor|].
  case_bool_decide as Hy; [apply IH|].
  rewrite fmap_cons. apply NoDup_cons. split; [|apply IH].
  intros Hin. apply list_elem_of_fmap in Hin as (z & Hz & Hin).
  apply elem_of_firstOccurrences in Hin as [_ Hs]. apply Hs, elem_of_app. right.
  rewrite Hz. left.
Qed.

Lemma firstOccurrences_ids {A} seen (l : list (string * A)) id :
  id ∈ l.*1 → id ∉ seen → id ∈ (firstOccurrences seen l).*1.
Proof.
  revert seen. induction l as [|y l IH]; intros seen; simpl.
  - by intros ?%not_elem_of_nil.
  - rewrite elem_of_cons. intros Hin Hs.
    destruct (decide (id = y.1)) as [->|Hne].
    + rewrite bool_decide_eq_false_2 by done. rewrite fmap_cons. left.
    + destruct Hin as [?|Hin]; [done|].
      assert (Hs' : id ∉ (seen ++ [y.1])%list).
      { rewrite elem_of_app, list_elem_of_singleton. by intros [?|?]. }
      case_bool_decide; [by apply IH|]. rewrite fmap_cons. right. by apply IH.
Qed.

Lemma firstOccurrences_sublist {A} seen (l : list (string * A)) :
  firstOccurrences seen l `sublist_of` l.
Proof.
  revert seen. induction l as [|y l IH]; intros seen; simpl; [done|].
  case_bool_decide.
  - apply sublist_cons, IH.
  - apply sublist_skip, IH.
Qed.

Lemma firstOccurrences_first {A} seen (l : list (string * A)) i x :
  l !! i = Some x → x.1 ∉ seen →
  (∀ j y, l !! j = Some y → (j < i)%nat → y.1 ≠ x.1) →
  x ∈ firstOccurrences seen l.
Proof.
  revert seen i. induction l as [|y l IH]; intros seen i Hi Hs Hfirst; [done|].
  simpl. destruct i as [|i].
  - injection Hi as ->. rewrite bool_decide_eq_false_2 by done. left.
  - assert (Hne : y.1 ≠ x.1) by (apply (Hfirst 0%nat y); [done|lia]).
    assert (Hx : x ∈ firstOccurrences (seen ++ [y.1])%list l).
    { apply (IH _ i); [done| |].
      - rewrite elem_of_app, list_elem_of_singleton. by intros [?|?].
      - intros j z Hj Hlt. apply (Hfirst (S j) z); [done|lia]. }
    case_bool_decide; [done|by right].
Qed.

(** X11. Deduplicating the transfers keeps, in their order, the first
    transfer of every id and drops the later ones: the result is a sublist
    of the list, no id occurs twice in it, and every id of the list occurs
    in it. *)
Theorem uniqueTransfers_keeps_each_id_once allTransfers :
  uniqueTransfers allTransfers `sublist_of` allTransfers ∧
  NoDup (uniqueTransfers allTransfers).*1 ∧
  (∀ id, id ∈ (uniqueTransfers allTransfers).*1 ↔ id ∈ allTransfers.*1) ∧
  (∀ i x, allTransfers !! i = Some x →
          (∀ j y, allTransfers !! j = Some y → (j < i)%nat → y.1 ≠ x.1) →
          x ∈ uniqueTransfers allTransfers).
Proof.
  rewrite uniqueTransfers_firstOccurrences. split; [|split; [|split]].
  - apply firstOccurrences_sublist.
  - apply firstOccurrences_NoDup.
  - intros id. split.
    + intros Hin. apply list_elem_of_fmap in Hin as (x & -> & Hin).
      apply elem_of_firstOccurrences in Hin as [Hin _].
      apply list_elem_of_fmap. by exists x.
    + intros Hin. apply firstOccurrences_ids; [done|]. by intros ?%not_elem_of_nil.
  - intros i x Hi Hfirst. apply (firstOccurrences_first [] _ i); [done| |done].
    by intros ?%not_elem_of_nil.
Qed.

Lemma uniqueTransfers_elem_of allTransfers x :
  (∀ y z, y ∈ allTransfers → z ∈ allTransfers → y.1 = z.1 → y = z) →
  x ∈ uniqueTransfers allTransfers ↔ x ∈ allTransfers.
Proof.
  intros Hfun. rewrite uniqueTransfers_firstOccurrences. split.
  - by intros [? _]%elem_of_firstOccurrences.
  - intros Hx.
    assert (Hid : x.1 ∈ (firstOccurrences [] allTransfers).*1).
    { apply firstOccurrences_ids; [|by intros ?%not_elem_of_nil].
      apply list_elem_of_fmap. by exists x. }
    apply list_elem_of_fmap in Hid as (y & Hy & Hin).
    assert (y = x) as <-; [|done].
    apply Hfun; [|done|done]. by apply elem_of_firstOccurrences in Hin as [? _].
Qed.

(** X12. A sector admin whose account has a sector is shown every transfer
    of the store that goes to or comes from that sector, each one once, and
    no other transfer; the transfers the page then offers for confirmation
    are the pending ones that go to the sector. An account without a sector
    loads nothing, and a super admin is shown every transfer of the store. *)
Theorem sector_admin_sees_own_transfers user fermeId c :
  user_fermeId user = Some fermeId → fermeId ≠ "" →
  ∃ transfers,
    loadTransfers false user c = Some transfers ∧
    NoDup transfers.*1 ∧
    (∀ id t, (id, t) ∈ transfers ↔
             c !! id = Some t ∧
             (StockTransfer.toSecteurId t = fermeId
              ∨ StockTransfer.fromSecteurId t = fermeId)) ∧
    (∀ id t, (id, t) ∈ pendingIncomingTransfers user transfers ↔
             c !! id = Some t ∧ StockTransfer.status t = pending
             ∧ StockTransfer.toSecteurId t = fermeId) ∧
    (∀ other, user_fermeId other = None ∨ user_fermeId other = Some "" →
              loadTransfers false other c = None) ∧
    (∀ admin, loadTransfers true admin c = Some (map_to_list c)).
Proof.
  intros Hu Hne. unfold loadTransfers. rewrite Hu.
  change (default "" (Some fermeId)) with fermeId.
  assert (Ht : truthy fermeId = true).
  { unfold truthy. by rewrite bool_decide_eq_false_2. }
  rewrite Ht. cbn [negb andb]. eexists. split; [done|].
  set (all := (filter _ (map_to_list c) ++ filter _ (map_to_list c))%list).
  assert (Hall : ∀ id t, (id, t) ∈ all ↔
            c !! id = Some t ∧ (StockTransfer.toSecteurId t = fermeId
                                ∨ StockTransfer.fromSecteurId t = fermeId)).
  { intros id t. unfold all.
    rewrite elem_of_app, !list_elem_of_filter, !elem_of_map_to_list. simpl. tauto. }
  assert (Hfun : ∀ y z, y ∈ all → z ∈ all → y.1 = z.1 → y = z).
  { intros [i1 t1] [i2 t2] H1 H2 Heq. simpl in Heq. subst i2.
    apply Hall in H1 as [H1 _]. apply Hall in H2 as [H2 _]. congruence. }
  assert (Hin : ∀ id t, (id, t) ∈ uniqueTransfers all ↔
            c !! id = Some t ∧ (StockTransfer.toSecteurId t = fermeId
                                ∨ StockTransfer.fromSecteurId t = fermeId)).
  { intros id t. rewrite uniqueTransfers_elem_of by done. apply Hall. }
  split; [|split; [|split; [|split]]].
  - rewrite uniqueTransfers_firstOccurrences. apply firstOccurrences_NoDup.
  - exact Hin.
  - intros id t. unfold pendingIncomingTransfers.
    rewrite list_elem_of_filter, Hin, Hu. simpl. split.
    + intros [[Hs Hto] [Hc _]]. injection Hto as Hto. done.
    + intros (Hc & Hs & Hto). subst fermeId. split; [done|]. split; [done|by left].
  - intros other [Ho|Ho]; rewrite Ho; reflexivity.
  - intros admin. by rewrite andb_false_r.
Qed.

(** ** Sheet names *)

Lemma substring_length_le m s : (String.length (substring 0 m s) ≤ m)%nat.
Proof.
  revert s. induction m as [|m IH]; intros [|c s]; simpl; try lia.
  specialize (IH s). lia.
Qed.

Lemma substring_short m s : (String.length s ≤ m)%nat → substring 0 m s = s.
Proof.
  revert s. induction m as [|m IH]; intros [|c s]; simpl; try done; try lia.
  intros Hle. f_equal. apply IH. lia.
Qed.

Lemma substring_chars m s c : c ∈ chars (substring 0 m s) → c ∈ chars s.
Proof.
  revert s. induction m as [|m IH]; intros [|a s]; simpl; try done.
  - by intros ?%not_elem_of_nil.
  - rewrite !elem_of_cons. intros [->|Hin]; [by left|right; by apply IH].
Qed.

Lemma removeAll_chars class s c :
  c ∈ chars (removeAll class s) ↔ c ∈ chars s ∧ class c = false.
Proof.
  induction s as [|a s IH]; simpl.
  - split; [by intros ?%not_elem_of_nil|by intros [?%not_elem_of_nil _]].
  - destruct (class a) eqn:Ha; simpl; rewrite !elem_of_cons, ?IH.
    + split; [tauto|]. intros [[->|Hin] Hc]; [congruence|done].
    + split; [|tauto]. intros [->|[Hin Hc]]; [split; [by left|done]|]. tauto.
Qed.

Lemma removeAll_clean class s :
  (∀ c, c ∈ chars s → class c = false) → removeAll class s = s.
Proof.
  induction s as [|a s IH]; simpl; [done|]. intros Hall.
  rewrite (Hall a) by left. f_equal. apply IH. intros c Hc. apply Hall. by right.
Qed.

Lemma removeAll_length class s : (String.length (removeAll class s) ≤ String.length s)%nat.
Proof. induction s as [|a s IH]; simpl; [lia|]. destruct (class a); simpl; lia. Qed.

(** X13. The name given to a farm's sheet is at most 31 characters long
    and holds none of the characters [ ] \ / ? * : ; a farm name that is
    already such a name is kept as it is, so cleaning a second time changes
    nothing; and a forbidden character is dropped without a trace, so farm
    names that differ in such characters only get the same sheet name. *)
Theorem sheetName_is_clean nom :
  (String.length (sheetName nom) ≤ 31)%nat ∧
  (∀ c, c ∈ chars (sheetName nom) → c ∈ chars nom ∧ sheetForbidden c = false) ∧
  ((String.length nom ≤ 31)%nat → (∀ c, c ∈ chars nom → sheetForbidden c = false) →
   sheetName nom = nom) ∧
  sheetName (sheetName nom) = sheetName nom ∧
  (∀ c nom', sheetForbidden c = true →
             sheetName (nom +:+ String c nom') = sheetName (nom +:+ nom')).
Proof.
  assert (Hin : ∀ c, c ∈ chars (sheetName nom) → c ∈ chars nom ∧ sheetForbidden c = false).
  { intros c Hc. by apply substring_chars, removeAll_chars in Hc. }
  assert (Hkeep : ∀ s, (String.length s ≤ 31)%nat →
                       (∀ c, c ∈ chars s → sheetForbidden c = false) → sheetName s = s).
  { intros s Hlen Hclean. unfold sheetName.
    rewrite removeAll_clean by done. by apply substring_short. }
  split; [apply substring_length_le|]. split; [exact Hin|]. split; [apply Hkeep|].
  split.
  - apply Hkeep; [apply substring_length_le|]. intros c Hc. by apply Hin in Hc as [_ ?].
  - intros c nom' Hc. unfold sheetName. f_equal.
    clear Hin Hkeep. induction nom as [|a nom IH].
    + rewrite !string_app_empty. simpl. by rewrite Hc.
    + rewrite !string_app_cons. simpl. destruct (sheetForbidden a); [|f_equal]; apply IH.
Qed.

(** ** The aggregates of a farm's statistics *)

Lemma len_filter_le {A} (P : A → Prop) `{!∀ x, Decision (P x)} (l : list A) :
  0 ≤ len (filter P l) ≤ len l.
Proof. unfold len. pose proof (length_filter P l). lia. Qed.

Lemma len_filter_split {A} (P Q : A → Prop) `{!∀ x, Decision (P x)}
    `{!∀ x, Decision (Q x)} (l : list A) :
  (∀ x, Q x ↔ ¬ P x) → len (filter P l) + len (filter Q l) = len l.
Proof.
  intros HPQ. unfold len. induction l as [|x l IH]; [done|].
  destruct (decide (P x)) as [HP|HP].
  - rewrite (filter_cons_True P) by done.
    rewrite (filter_cons_False Q) by (rewrite HPQ; tauto). simpl. lia.
  - rewrite (filter_cons_False P) by done.
    rewrite (filter_cons_True Q) by (by rewrite HPQ). simpl. lia.
Qed.

Lemma len_fmap {A B} (f : A → B) (l : list A) : len (f <$> l) = len l.
Proof. unfold len. by rewrite length_fmap. Qed.

Lemma Math_round_bounds x : (0 <= x)%Q → (x <= 100)%Q → 0 ≤ Math_round x ≤ 100.
Proof.
  intros H0 H100. unfold Math_round. split.
  - change 0 with (Qfloor 0). apply Qfloor_resp_le.
    apply Qle_trans with x; [done|].
    rewrite <- (Qplus_0_r x) at 1. apply Qplus_le_r. done.
  - change 100 with (Qfloor (100 + (1 # 2))). apply Qfloor_resp_le.
    by apply Qplus_le_l.
Qed.

Lemma percent_nonneg a b : 0 ≤ a → 0 < b → (0 <= percent a b)%Q.
Proof.
  intros Ha Hb. unfold percent. apply Qmult_le_0_compat; [|done].
  apply Qle_shift_div_l.
  - replace 0%Q with (inject_Z 0) by done. by rewrite <- Zlt_Qlt.
  - rewrite Qmult_0_l. replace 0%Q with (inject_Z 0) by done. by rewrite <- Zle_Qle.
Qed.

Lemma roomStat_workersCount_nonneg workers rooms fermeId room :
  0 ≤ RoomStat.workersCount
        (roomStat (FermeStats.workersByRoom (getFermeStats workers rooms fermeId)) room).
Proof.
  unfold roomStat, getFermeStats.
  cbn [RoomStat.workersCount FermeStats.workersByRoom].
  rewrite statCount_fold, lookup_empty. simpl. unfold len. lia.
Qed.

(** X14. In the statistics of a farm the men and the women add up to the
    farm's active workers, the rooms for men and the rooms for women to its
    rooms; the occupied rooms, the rooms over capacity and the workers
    without a room are counted among these; a farm with issues needs
    attention, and a well utilized farm needs attention exactly when it has
    issues. *)
Theorem fermeStats_counts_add_up workers rooms fermeId :
  let s := getFermeStats workers rooms fermeId in
  FermeStats.totalOuvriers s
  = len (filter (λ w, Worker.fermeId w = fermeId ∧ Worker.statut w = actif) workers) ∧
  FermeStats.maleWorkers s + FermeStats.femaleWorkers s = FermeStats.totalOuvriers s ∧
  FermeStats.maleRooms s + FermeStats.femaleRooms s = FermeStats.totalChambres s ∧
  0 ≤ FermeStats.chambresOccupees s ≤ FermeStats.totalChambres s ∧
  0 ≤ FermeStats.chambresVides s ≤ FermeStats.totalChambres s ∧
  0 ≤ FermeStats.overcapacityRooms s ≤ FermeStats.totalChambres s ∧
  0 ≤ FermeStats.workersWithoutRooms s ≤ FermeStats.totalOuvriers s ∧
  (FermeStats.hasIssues s = true → FermeStats.needsAttention s = true) ∧
  (FermeStats.isWellUtilized s = true →
   FermeStats.needsAttention s = FermeStats.hasIssues s).
Proof.
  intros s. subst s. unfold getFermeStats.
  cbn [FermeStats.totalOuvriers FermeStats.maleWorkers FermeStats.femaleWorkers
       FermeStats.maleRooms FermeStats.femaleRooms FermeStats.totalChambres
       FermeStats.chambresOccupees FermeStats.chambresVides
       FermeStats.overcapacityRooms FermeStats.workersWithoutRooms
       FermeStats.hasIssues FermeStats.needsAttention FermeStats.isWellUtilized].
  set (fermeWorkers := filter _ workers).
  set (fermeRooms := filter _ rooms).
  set (roomStats := roomStat _ <$> fermeRooms).
  pose proof (len_filter_le (λ stat, RoomStat.isOccupied stat = true) roomStats) as Hocc.
  pose proof (len_filter_le (λ stat, RoomStat.isOvercapacity stat = true) roomStats) as Hover.
  pose proof (len_filter_le
                (λ w, truthy (Worker.chambre w) = false ∨ Worker.chambre w = "")
                fermeWorkers) as Hwithout.
  assert (Hstats : len roomStats = len fermeRooms) by apply len_fmap.
  split; [done|]. split; [|split; [|split; [|split; [|split; [|split; [|split]]]]]].
  - apply len_filter_split. intros w. destruct (Worker.sexe w); intuition congruence.
  - apply len_filter_split. intros [id r]. simpl. destruct (Room.genre r); intuition congruence.
  - lia.
  - lia.
  - lia.
  - lia.
  - intros ->. done.
  - intros [_ H90]%andb_true_iff.
    set (avg := if bool_decide (_ > 0) then _ else _) in *.
    assert (H95 : Qle_bool avg 95 = true).
    { apply Qle_bool_iff. apply Qle_bool_iff in H90.
      apply Qle_trans with 90%Q; [done|]. done. }
    rewrite H95. simpl. by rewrite orb_false_r.
Qed.

Lemma capacities_sum workersByRoom (fermeRooms : list (string * Room.t)) :
  (∀ room, room ∈ fermeRooms →
           0 ≤ Room.capaciteTotale room.2
           ∧ 0 ≤ RoomStat.workersCount (roomStat workersByRoom room)) →
  0 ≤ foldr (λ stat sum, RoomStat.capacityUsed stat + sum) 0
        (roomStat workersByRoom <$> fermeRooms)
    ≤ foldr (λ (room : string * Room.t) sum, Room.capaciteTotale room.2 + sum) 0 fermeRooms.
Proof.
  induction fermeRooms as [|room l IH]; intros Hall; [simpl; lia|].
  destruct (Hall room) as [Hcap Hn]; [left|].
  assert (IH' := IH (λ r Hr, Hall r (list_elem_of_further _ _ _ Hr))).
  rewrite fmap_cons. cbn [foldr].
  assert (Hmin : RoomStat.capacityUsed (roomStat workersByRoom room)
                 = Z.min (RoomStat.workersCount (roomStat workersByRoom room))
                         (Room.capaciteTotale room.2)) by done.
  rewrite Hmin. lia.
Qed.

Lemma overcapacity_occupied workersByRoom (fermeRooms : list (string * Room.t)) :
  (∀ room, room ∈ fermeRooms → 0 ≤ Room.capaciteTotale room.2) →
  len (filter (λ stat, RoomStat.isOvercapacity stat = true)
              (roomStat workersByRoom <$> fermeRooms))
  ≤ len (filter (λ stat, RoomStat.isOccupied stat = true)
                (roomStat workersByRoom <$> fermeRooms)).
Proof.
  unfold len. induction fermeRooms as [|room l IH]; intros Hall; [done|].
  assert (IH' := IH (λ r Hr, Hall r (list_elem_of_further _ _ _ Hr))).
  assert (Hcap := Hall room (list_elem_of_here _ _)).
  rewrite fmap_cons.
  destruct (decide (RoomStat.isOvercapacity (roomStat workersByRoom room) = true))
    as [Hover|Hover].
  - rewrite (filter_cons_True (λ stat, RoomStat.isOvercapacity stat = true)) by done.
    rewrite (filter_cons_True (λ stat, RoomStat.isOccupied stat = true)).
    + simpl. lia.
    + unfold roomStat in Hover |- *. cbn [RoomStat.isOvercapacity RoomStat.isOccupied] in *.
      apply bool_decide_eq_true in Hover. apply bool_decide_eq_true. lia.
  - rewrite (filter_cons_False (λ stat, RoomStat.isOvercapacity stat = true)) by done.
    destruct (decide (RoomStat.isOccupied (roomStat workersByRoom room) = true)).
    + rewrite (filter_cons_True (λ stat, RoomStat.isOccupied stat = true)) by done.
      simpl. lia.
    + rewrite (filter_cons_False (λ stat, RoomStat.isOccupied stat = true)) by done. lia.
Qed.

(** X15. When no room of the farm has a negative capacity, the occupied
    places of the farm lie between 0 and its total capacity, so the free
    places are not negative; the occupancy rate of the farm is a whole
    number between 0 and 100, and it is 0 for a farm without capacity; and
    every room over capacity is counted as occupied. *)
Theorem fermeStats_occupancy_bounds workers rooms fermeId :
  (∀ room, room ∈ rooms → Room.fermeId room.2 = fermeId →
           0 ≤ Room.capaciteTotale room.2) →
  let s := getFermeStats workers rooms fermeId in
  0 ≤ FermeStats.totalOccupied s ≤ FermeStats.totalCapacity s ∧
  0 ≤ FermeStats.placesDisponibles s ≤ FermeStats.totalCapacity s ∧
  0 ≤ FermeStats.tauxOccupation s ≤ 100 ∧
  (FermeStats.totalCapacity s = 0 → FermeStats.tauxOccupation s = 0) ∧
  FermeStats.overcapacityRooms s ≤ FermeStats.chambresOccupees s.
Proof.
  intros Hcap s.
  assert (Hsum : 0 ≤ FermeStats.totalOccupied s ≤ FermeStats.totalCapacity s).
  { subst s. unfold getFermeStats.
    cbn [FermeStats.totalOccupied FermeStats.totalCapacity].
    rewrite (foldl_sum RoomStat.capacityUsed),
      (foldl_sum (λ room : string * Room.t, Room.capaciteTotale room.2)).
    rewrite !Z.add_0_l. apply capacities_sum. intros room Hin.
    apply list_elem_of_filter in Hin as [Hf Hin]. split; [by apply Hcap|].
    apply (roomStat_workersCount_nonneg workers [] fermeId). }
  assert (Hover : FermeStats.overcapacityRooms s ≤ FermeStats.chambresOccupees s).
  { subst s. unfold getFermeStats.
    cbn [FermeStats.overcapacityRooms FermeStats.chambresOccupees].
    apply overcapacity_occupied. intros room Hin.
    apply list_elem_of_filter in Hin as [Hf Hin]. by apply Hcap. }
  revert Hsum Hover. subst s. unfold getFermeStats.
  cbn [FermeStats.totalOccupied FermeStats.totalCapacity FermeStats.placesDisponibles
       FermeStats.tauxOccupation FermeStats.overcapacityRooms FermeStats.chambresOccupees].
  set (totalCapacity := foldl _ 0 (filter _ rooms)).
  set (totalOccupied := foldl _ 0 (roomStat _ <$> _)).
  intros Hsum Hover. split; [done|]. split; [lia|]. split; [|split; [|done]].
  - case_bool_decide as Hpos.
    + apply Math_round_bounds; [apply percent_nonneg; lia|apply percent_le_100; lia].
    + done.
  - intros H0. rewrite bool_decide_eq_false_2 by lia. done.
Qed.

(** ** Every worker is accounted for *)

Lemma assigned_delete (m : gmap string Z) k :
  assigned m = default 0 (m !! k) + assigned (delete k m).
Proof.
  unfold assigned. destruct (m !! k) as [n|] eqn:Hk; simpl.
  - apply (map_fold_delete_L (λ _ n sum, n + sum)); [|done]. intros; lia.
  - by rewrite delete_id.
Qed.

Lemma assigned_insert (m : gmap string Z) k n :
  assigned (<[k := n]> m) = n + assigned (delete k m).
Proof.
  rewrite <- insert_delete_eq. unfold assigned.
  apply (map_fold_insert_L (λ _ n sum, n + sum)); [intros; lia|].
  apply lookup_delete_eq.
Qed.

Lemma assigned_bump (m : gmap string Z) k :
  assigned (<[k := default 0 (m !! k) + 1]> m) = assigned m + 1.
Proof. rewrite assigned_insert, (assigned_delete m k). lia. Qed.

Lemma assigned_empty : assigned ∅ = 0.
Proof. apply map_fold_empty. Qed.

Lemma statCount_assigned workers (acc : gmap string Z) :
  assigned (foldl (λ (acc : gmap string Z) worker,
                     if truthy (Worker.chambre worker) then
                       let roomKey := statKey (Worker.chambre worker) (workerGender worker) in
                       <[roomKey := default 0 (acc !! roomKey) + 1]> acc
                     else acc) acc workers)
  = assigned acc + len (filter (λ w, Worker.chambre w ≠ "") workers).
Proof.
  unfold len. revert acc. induction workers as [|w ws IH]; intros acc.
  - simpl. lia.
  - cbn [foldl]. rewrite IH. unfold truthy. case_bool_decide as Hc; cbn [negb].
    + rewrite filter_cons_False by tauto. done.
    + cbv zeta. rewrite assigned_bump, filter_cons_True by done. simpl. lia.
Qed.

Lemma statCount_positive workers (acc : gmap string Z) key n :
  (∀ k v, acc !! k = Some v → 1 ≤ v) →
  foldl (λ (acc : gmap string Z) worker,
           if truthy (Worker.chambre worker) then
             let roomKey := statKey (Worker.chambre worker) (workerGender worker) in
             <[roomKey := default 0 (acc !! roomKey) + 1]> acc
           else acc) acc workers !! key = Some n →
  1 ≤ n.
Proof.
  revert acc. induction workers as [|w ws IH]; intros acc Hacc; [apply Hacc|].
  cbn [foldl]. apply IH. destruct (truthy _); [|done]. cbv zeta.
  intros k v. destruct (decide (statKey (Worker.chambre w) (workerGender w) = k)) as [<-|Hne].
  - rewrite lookup_insert_eq. intros [= <-].
    destruct (acc !! _) as [v0|] eqn:E; simpl; [|lia]. apply Hacc in E. lia.
  - rewrite lookup_insert_ne by done. apply Hacc.
Qed.

Lemma assigned_nonneg (m : gmap string Z) :
  (∀ k v, m !! k = Some v → 0 ≤ v) → 0 ≤ assigned m.
Proof.
  unfold assigned.
  apply (map_fold_weak_ind (λ sum m', (∀ k v, m' !! k = Some v → 0 ≤ v) → 0 ≤ sum)).
  - done.
  - intros k v m' sum Hk IH Hall.
    assert (0 ≤ v) by (apply (Hall k); by rewrite lookup_insert_eq).
    assert (0 ≤ sum); [|lia].
    apply IH. intros k' v' Hk'. apply (Hall k').
    rewrite lookup_insert_ne; [done|]. intros ->. congruence.
Qed.

(** The counts of rooms with different keys are taken from different
    entries of the table. *)
Lemma countedInRooms_le (m : gmap string Z) (fermeRooms : list (string * Room.t)) :
  (∀ k v, m !! k = Some v → 0 ≤ v) →
  NoDup ((λ r : string * Room.t, (Room.numero r.2, Room.genre r.2)) <$> fermeRooms) →
  countedInRooms (roomStat m <$> fermeRooms) ≤ assigned m ∧
  ((∀ k, is_Some (m !! k) →
         ∃ room, room ∈ fermeRooms ∧ statKey (Room.numero room.2) (Room.genre room.2) = k) →
   countedInRooms (roomStat m <$> fermeRooms) = assigned m).
Proof.
  unfold countedInRooms.
  revert m. induction fermeRooms as [|room l IH]; intros m Hpos Hnd.
  - simpl. split.
    + by apply assigned_nonneg.
    + intros Hall. destruct (decide (m = ∅)) as [->|Hne]; [by rewrite assigned_empty|].
      apply map_choose in Hne as (k & v & Hk).
      destruct (Hall k) as (room & Hin & _); [by eexists|]. by apply not_elem_of_nil in Hin.
  - rewrite fmap_cons in Hnd. apply NoDup_cons in Hnd as [Hfresh Hnd].
    set (k := statKey (Room.numero room.2) (Room.genre room.2)).
    assert (Hsame : ∀ r, r ∈ l →
              RoomStat.workersCount (roomStat m r)
              = RoomStat.workersCount (roomStat (delete k m) r)).
    { intros r Hr. unfold roomStat. cbn [RoomStat.workersCount].
      rewrite lookup_delete_ne; [done|]. unfold k. intros Heq.
      apply statKey_inj in Heq as [Hn Hg]. apply Hfresh.
      apply list_elem_of_fmap. exists r. split; [|done]. by rewrite Hn, Hg. }
    assert (Hrest : foldr (λ stat sum, RoomStat.workersCount stat + sum) 0 (roomStat m <$> l)
                    = foldr (λ stat sum, RoomStat.workersCount stat + sum) 0
                            (roomStat (delete k m) <$> l)).
    { clear IH Hnd Hfresh. induction l as [|r l IHl]; [done|].
      rewrite !fmap_cons. cbn [foldr]. rewrite Hsame by left.
      rewrite IHl; [done|]. intros r' Hr'. apply Hsame. by right. }
    rewrite fmap_cons. cbn [foldr]. rewrite Hrest.
    assert (Hhead : RoomStat.workersCount (roomStat m room) = default 0 (m !! k)) by done.
    rewrite Hhead, (assigned_delete m k).
    destruct (IH (delete k m)) as [IH1 IH2]; [|done|].
    { intros k' v Hk'. apply lookup_delete_Some in Hk' as [_ Hk']. by eapply Hpos. }
    split; [lia|]. intros Hall. rewrite IH2; [done|].
    intros k' [v Hk']. apply lookup_delete_Some in Hk' as [Hne Hk'].
    destruct (Hall k') as (r & Hr & Hkey); [by eexists|].
    apply elem_of_cons in Hr as [->|Hr]; [done|]. by exists r.
Qed.

Lemma fermeStats_assigned workers rooms fermeId :
  let s := getFermeStats workers rooms fermeId in
  FermeStats.workersWithoutRooms s + assigned (FermeStats.workersByRoom s)
  = FermeStats.totalOuvriers s.
Proof.
  intros s. subst s. unfold getFermeStats.
  cbn [FermeStats.workersWithoutRooms FermeStats.workersByRoom FermeStats.totalOuvriers].
  rewrite statCount_assigned, assigned_empty, Z.add_0_l.
  apply len_filter_split. intros w. unfold truthy.
  destruct (decide (Worker.chambre w = "")) as [Heq|Hne].
  - split; [done|]. intros H. exfalso. apply H. by right.
  - split; [|done]. intros _ [Hb|?]; [|done].
    by rewrite bool_decide_eq_false_2 in Hb.
Qed.

Lemma fermeStats_table_positive workers rooms fermeId key n :
  FermeStats.workersByRoom (getFermeStats workers rooms fermeId) !! key = Some n → 1 ≤ n.
Proof.
  unfold getFermeStats. cbn [FermeStats.workersByRoom].
  apply statCount_positive. intros k v. by rewrite lookup_empty.
Qed.

Lemma fermeStats_table_count workers rooms fermeId key :
  default 0 (FermeStats.workersByRoom (getFermeStats workers rooms fermeId) !! key)
  = len (filter (λ w, (Worker.fermeId w = fermeId ∧ Worker.statut w = actif)
                      ∧ Worker.chambre w ≠ ""
                      ∧ statKey (Worker.chambre w) (workerGender w) = key) workers).
Proof.
  unfold getFermeStats. cbn [FermeStats.workersByRoom].
  rewrite statCount_fold, lookup_empty. simpl.
  rewrite list_filter_filter. unfold len. change (0 + ?x) with x.
  do 2 f_equal. apply list_filter_iff. intros w. tauto.
Qed.

(** X16. The statistics of a farm account for every active worker of the
    farm once: the workers without a room and the workers in the table of
    counts by room add up to the farm's active workers; the table holds no
    room with a count of 0, and its count for a room number and a gender is
    the number of the farm's active workers with that number and gender. *)
Theorem fermeStats_accounts_for_workers workers rooms fermeId :
  let s := getFermeStats workers rooms fermeId in
  FermeStats.workersWithoutRooms s + assigned (FermeStats.workersByRoom s)
  = FermeStats.totalOuvriers s ∧
  (∀ key n, FermeStats.workersByRoom s !! key = Some n → 1 ≤ n) ∧
  (∀ chambre g,
     default 0 (FermeStats.workersByRoom s !! statKey chambre g)
     = len (filter (λ w, (Worker.fermeId w = fermeId ∧ Worker.statut w = actif)
                         ∧ Worker.chambre w ≠ "" ∧ Worker.chambre w = chambre
                         ∧ workerGender w = g) workers)).
Proof.
  intros s. split; [apply fermeStats_assigned|]. split.
  - intros key n. apply fermeStats_table_positive.
  - intros chambre g. subst s. rewrite fermeStats_table_count.
    unfold len. do 2 f_equal. apply list_filter_iff. intros w. rewrite statKey_inj. tauto.
Qed.

(** X17. When the rooms of a farm differ in number or in gender, the
    statistics count no worker in two rooms: the counts of the farm's rooms
    add up to at most the farm's active workers that have a room number, and
    to exactly that many when every such worker's number and gender are
    those of a room of the farm. *)
Theorem fermeStats_counts_no_worker_twice workers rooms fermeId :
  NoDup ((λ r : string * Room.t, (Room.numero r.2, Room.genre r.2))
         <$> roomsOf fermeId rooms) →
  let s := getFermeStats workers rooms fermeId in
  countedInRooms (FermeStats.roomStats s)
  ≤ FermeStats.totalOuvriers s - FermeStats.workersWithoutRooms s ∧
  ((∀ w, w ∈ workers → Worker.fermeId w = fermeId → Worker.statut w = actif →
         Worker.chambre w ≠ "" →
         ∃ room, room ∈ roomsOf fermeId rooms ∧ Room.numero room.2 = Worker.chambre w
                 ∧ Room.genre room.2 = workerGender w) →
   countedInRooms (FermeStats.roomStats s)
   = FermeStats.totalOuvriers s - FermeStats.workersWithoutRooms s).
Proof.
  intros Hnd s.
  pose proof (fermeStats_assigned workers rooms fermeId) as Hsum.
  pose proof (fermeStats_table_positive workers rooms fermeId) as Hpos.
  cbv zeta in Hsum. fold s in Hsum, Hpos.
  assert (Hstats : FermeStats.roomStats s
                   = roomStat (FermeStats.workersByRoom s) <$> roomsOf fermeId rooms) by done.
  rewrite Hstats.
  destruct (countedInRooms_le (FermeStats.workersByRoom s) (roomsOf fermeId rooms))
    as [Hle Heq]; [|done|].
  { intros k v Hk. apply Hpos in Hk. lia. }
  split; [lia|]. intros Hrooms. rewrite Heq; [lia|].
  intros k [n Hk]. apply Hpos in Hk as Hn.
  assert (Hex : ∃ w, w ∈ workers ∧ (Worker.fermeId w = fermeId ∧ Worker.statut w = actif)
                     ∧ Worker.chambre w ≠ ""
                     ∧ statKey (Worker.chambre w) (workerGender w) = k).
  { pose proof (fermeStats_table_count workers rooms fermeId k) as Hcount.
    fold s in Hcount. rewrite Hk in Hcount. simpl in Hcount.
    destruct (filter _ workers) as [|w ws] eqn:Hfilter.
    - unfold len in Hcount. simpl in Hcount. lia.
    - assert (Hw : w ∈ filter
                 (λ w, (Worker.fermeId w = fermeId ∧ Worker.statut w = actif)
                       ∧ Worker.chambre w ≠ ""
                       ∧ statKey (Worker.chambre w) (workerGender w) = k) workers)
        by (rewrite Hfilter; left).
      apply list_elem_of_filter in Hw as [Hw Hin]. by exists w. }
  destruct Hex as (w & Hw & [Hf Ha] & Hc & Hkey).
  destruct (Hrooms w) as (room & Hroom & Hnum & Hg); [done..|].
  exists room. split; [done|]. by rewrite Hnum, Hg.
Qed.

(** ** What a pass of the synchronisation sends *)

Lemma elem_of_correctionFor now workers room id p :
  correctionFor now (workersByRoom workers) room = Some (id, p) ↔
  id = room.1 ∧
  Room.occupantsActuels room.2 ≠ len (keyOccupants workers room.2) ∧
  p = RoomPatch.mk (len (keyOccupants workers room.2))
                   (Worker.id <$> keyOccupants workers room.2) now.
Proof.
  unfold correctionFor. rewrite workersByRoom_room. fold (len (keyOccupants workers room.2)).
  case_bool_decide as Hd.
  - split; [by intros [= <- <-]|]. by intros (-> & _ & ->).
  - split; [done|]. by intros (_ & ? & _).
Qed.

(** X18. Whatever the store does with the writes (also when it refuses
    them), a pass of the synchronisation sends one correction for every
    loaded room whose stored count differs from the number of its workers,
    in the order of the rooms, and none for the other rooms, even when their
    list of occupants is out of date. A correction carries that number, the
    ids of these workers in the order of the workers (so the list is as long
    as the count), and the time of the pass. Without [updateRoom] nothing
    is sent and the store is left as it is. *)
Theorem sync_sends_whatever_the_store_does (updateRoom : UpdateRoom) now workers rooms store :
  let sent := (syncRoomOccupancy (Some updateRoom) now workers rooms store).2 in
  sent.*1 = (filter (λ room : string * Room.t,
                       Room.occupantsActuels room.2 ≠ len (keyOccupants workers room.2))
                    rooms).*1 ∧
  (∀ id p, (id, p) ∈ sent →
           RoomPatch.updatedAt p = now ∧
           len (RoomPatch.listeOccupants p) = RoomPatch.occupantsActuels p ∧
           ∃ r, (id, r) ∈ rooms ∧
                Room.occupantsActuels r ≠ RoomPatch.occupantsActuels p ∧
                RoomPatch.occupantsActuels p = len (keyOccupants workers r) ∧
                RoomPatch.listeOccupants p = Worker.id <$> keyOccupants workers r) ∧
  syncRoomOccupancy None now workers rooms store = (store, []).
Proof.
  intros sent. subst sent. unfold syncRoomOccupancy.
  rewrite syncRoom_fold_corrections. cbn [snd app].
  split; [|split; [|done]].
  - induction rooms as [|room rooms IH]; [done|].
    cbn [omap list_omap]. change (list_omap ?f ?l) with (omap f l).
    destruct (correctionFor now (workersByRoom workers) room) as [[id p]|] eqn:E.
    + apply elem_of_correctionFor in E as (-> & Hne & ->).
      rewrite filter_cons_True by done. rewrite !fmap_cons. by rewrite IH.
    + rewrite filter_cons_False; [done|]. intros Hne.
      assert (Hsome : is_Some (correctionFor now (workersByRoom workers) room)).
      { apply correctionFor_Some. by rewrite workersByRoom_room. }
      rewrite E in Hsome. by destruct Hsome.
  - intros id p Hin. apply list_elem_of_omap in Hin as ([id' r] & Hin & E).
    apply elem_of_correctionFor in E as (-> & Hne & ->). simpl in *.
    split; [done|]. split; [by rewrite len_fmap|]. by exists r.
Qed.

Lemma keyOccupants_statOccupants workers r :
  dash_free (Room.fermeId r) →
  Forall (λ w, dash_free (Worker.fermeId w)) workers →
  Room.fermeId r ≠ "" →
  keyOccupants workers r = statOccupants workers r.
Proof.
  intros Hr Hws Hf. unfold keyOccupants, statOccupants.
  rewrite Forall_forall in Hws.
  apply filter_iff_elem. intros w Hw. simpl.
  rewrite (workerKey_roomKey w r) by auto.
  split.
  - intros [(? & ? & ?) (? & ? & ?)]. done.
  - intros (? & ? & Hc & ? & Hfw). rewrite Hfw. done.
Qed.

(** X19. The synchronisation and the statistics count the same workers:
    for a room of a farm with an id, when no farm id contains a dash, the
    number of occupants a pass of the synchronisation finds for the room is
    the number of workers the statistics of the room's farm give it, so a
    correction sent for the room carries the count the statistics show, and
    the statistics flag the room as over capacity exactly when that count
    exceeds its capacity. *)
Theorem sync_and_stats_count_alike workers rooms id r :
  dash_free (Room.fermeId r) →
  Forall (λ w, dash_free (Worker.fermeId w)) workers →
  Room.fermeId r ≠ "" →
  let groups := workersByRoom workers in
  let stats := getFermeStats workers rooms (Room.fermeId r) in
  let stat := roomStat (FermeStats.workersByRoom stats) (id, r) in
  len (default [] (groups !! roomKey r)) = RoomStat.workersCount stat ∧
  (∀ now p, correctionFor now groups (id, r) = Some (id, p) →
            RoomPatch.occupantsActuels p = RoomStat.workersCount stat) ∧
  ((id, r) ∈ rooms → stat ∈ FermeStats.roomStats stats) ∧
  (RoomStat.isOvercapacity stat = true ↔
   Room.capaciteTotale r < len (default [] (groups !! roomKey r))).
Proof.
  intros Hr Hws Hf groups stats stat.
  assert (Hcount : len (default [] (groups !! roomKey r)) = RoomStat.workersCount stat).
  { subst groups stat stats. rewrite workersByRoom_room.
    rewrite keyOccupants_statOccupants by done.
    unfold roomStat. cbn [RoomStat.workersCount snd].
    rewrite (getFermeStats_workersByRoom workers rooms [] (Room.fermeId r)).
    symmetry. by apply statCount_room. }
  split; [exact Hcount|]. split; [|split].
  - intros now p E. apply elem_of_correctionFor in E as (_ & _ & ->).
    cbn [RoomPatch.occupantsActuels snd]. rewrite <- Hcount.
    subst groups. by rewrite workersByRoom_room.
  - intros Hin. subst stat stats. rewrite getFermeStats_roomStats.
    apply list_elem_of_fmap. exists (id, r). split; [done|].
    apply list_elem_of_filter. done.
  - rewrite Hcount. subst stat. unfold roomStat.
    cbn [RoomStat.isOvercapacity RoomStat.workersCount snd].
    rewrite bool_decide_eq_true. lia.
Qed.

(** ** A new farm and its rooms *)

Lemma filter_all {A} (P : A → Prop) `{!∀ x, Decision (P x)} (l : list A) :
  Forall P l → filter P l = l.
Proof.
  induction 1 as [|x l Hx _ IH]; [done|]. by rewrite filter_cons_True, IH.
Qed.

Lemma filter_none {A} (P : A → Prop) `{!∀ x, Decision (P x)} (l : list A) :
  Forall (λ x, ¬ P x) l → filter P l = [].
Proof.
  induction 1 as [|x l Hx _ IH]; [done|]. by rewrite filter_cons_False, IH.
Qed.

Lemma len_app {A} (l1 l2 : list A) : len (l1 ++ l2)%list = len l1 + len l2.
Proof. unfold len. rewrite length_app. lia. Qed.

Lemma places_app l1 l2 : places (l1 ++ l2)%list = places l1 + places l2.
Proof. unfold places. induction l1 as [|r l1 IH]; simpl; [done|]. rewrite IH. lia. Qed.

(** The numbers of the form within the safe integers. *)
Lemma double_add_safe x y : safe_integer (x + y) → double_add x y = x + y.
Proof. apply round_to_double_safe. Qed.

Lemma double_mul_safe x y : safe_integer (x * y) → double_mul x y = x * y.
Proof. apply round_to_double_safe. Qed.

Lemma double_add_zero x y : double_add x y = 0 ↔ x + y = 0.
Proof. apply round_to_double_zero. Qed.

Lemma pushChambers_len fermeId genre count capacite startNumber :
  0 ≤ count → len (pushChambers fermeId genre count capacite startNumber) = count.
Proof. intros Hc. unfold pushChambers, len. rewrite length_fmap, length_seqZ. lia. Qed.

Lemma places_const (l : list Room.t) capacite :
  Forall (λ room, Room.capaciteTotale room = capacite) l →
  places l = len l * capacite.
Proof.
  unfold places, len. induction 1 as [|r l Hr _ IH]; [done|].
  cbn [foldr length]. rewrite IH, Hr. lia.
Qed.

Lemma elem_of_pushChambers fermeId genre count capacite startNumber room :
  room ∈ pushChambers fermeId genre count capacite startNumber ↔
  ∃ i, 0 ≤ i < count ∧
       room = Room.mk (pretty (double_add startNumber i)) fermeId genre capacite 0 [] None.
Proof.
  unfold pushChambers. rewrite list_elem_of_fmap. split.
  - intros (i & -> & Hi). apply elem_of_seqZ in Hi. exists i. split; [lia|done].
  - intros (i & Hi & ->). exists i. split; [done|]. apply elem_of_seqZ. lia.
Qed.

Lemma pushChambers_places fermeId genre count capacite startNumber :
  0 ≤ count →
  places (pushChambers fermeId genre count capacite startNumber) = count * capacite.
Proof.
  intros Hc. rewrite (places_const _ capacite).
  - by rewrite pushChambers_len.
  - apply Forall_forall. intros room Hin.
    apply elem_of_pushChambers in Hin as (i & _ & ->). done.
Qed.

Lemma pushChambers_NoDup fermeId genre count capacite startNumber :
  safe_integer startNumber → safe_integer (startNumber + count) →
  NoDup (Room.numero <$> pushChambers fermeId genre count capacite startNumber).
Proof.
  intros Hs Hc. unfold pushChambers. rewrite <- list_fmap_compose.
  apply NoDup_fmap_2_strong; [|apply NoDup_seqZ].
  intros i j Hi Hj Heq. apply elem_of_seqZ in Hi, Hj.
  simpl in Heq. apply pretty_Z_inj in Heq.
  unfold safe_integer in Hs, Hc.
  rewrite !double_add_safe in Heq by (unfold safe_integer; lia). lia.
Qed.

Lemma createChambers_eq chamberConfig fermeId :
  0 ≤ ChamberConfig.chambresHommes chamberConfig →
  0 ≤ ChamberConfig.chambresFemmes chamberConfig →
  createChambers chamberConfig fermeId
  = (pushChambers fermeId hommes (ChamberConfig.chambresHommes chamberConfig)
       (ChamberConfig.capaciteHommes chamberConfig)
       (ChamberConfig.startNumberHommes chamberConfig)
     ++ pushChambers fermeId femmes (ChamberConfig.chambresFemmes chamberConfig)
          (ChamberConfig.capaciteFemmes chamberConfig)
          (ChamberConfig.startNumberFemmes chamberConfig))%list.
Proof.
  intros Hh Hf. unfold createChambers.
  assert (Hempty : ∀ g count c s, 0 ≤ count → ¬ count > 0 → pushChambers fermeId g count c s = []).
  { intros g count c s H0 Hn. assert (count = 0) as -> by lia. done. }
  case_bool_decide as H1; case_bool_decide as H2; try done.
  - by rewrite (Hempty femmes _ _ _ Hf H2).
  - by rewrite (Hempty hommes _ _ _ Hh H1).
  - by rewrite (Hempty femmes _ _ _ Hf H2), (Hempty hommes _ _ _ Hh H1).
Qed.

Lemma elem_of_createChambers chamberConfig fermeId room :
  room ∈ createChambers chamberConfig fermeId ↔
  (∃ i, 0 ≤ i < ChamberConfig.chambresHommes chamberConfig ∧
        room = Room.mk (pretty (double_add (ChamberConfig.startNumberHommes chamberConfig) i))
                 fermeId hommes (ChamberConfig.capaciteHommes chamberConfig) 0 [] None) ∨
  (∃ i, 0 ≤ i < ChamberConfig.chambresFemmes chamberConfig ∧
        room = Room.mk (pretty (double_add (ChamberConfig.startNumberFemmes chamberConfig) i))
                 fermeId femmes (ChamberConfig.capaciteFemmes chamberConfig) 0 [] None).
Proof.
  unfold createChambers. rewrite elem_of_app.
  assert (Hside : ∀ g count c s,
            room ∈ (if bool_decide (count > 0) then pushChambers fermeId g count c s else [])
            ↔ ∃ i, 0 ≤ i < count
                   ∧ room = Room.mk (pretty (double_add s i)) fermeId g c 0 [] None).
  { intros g count c s. case_bool_decide as Hc; [apply elem_of_pushChambers|].
    split; [by intros ?%not_elem_of_nil|]. intros (i & Hi & _). lia. }
  by rewrite !Hside.
Qed.

Lemma pushChambers_if fermeId g count c s :
  safe_integer s → safe_integer (s + count) →
  let l := if bool_decide (count > 0) then pushChambers fermeId g count c s else [] in
  NoDup ((λ room, (Room.numero room, Room.genre room)) <$> l) ∧
  ∀ n g', (n, g') ∈ (λ room, (Room.numero room, Room.genre room)) <$> l → g' = g.
Proof.
  intros Hs Hc l. subst l. destruct (bool_decide (count > 0)).
  - split.
    + eapply (NoDup_fmap_1 fst). rewrite <- list_fmap_compose.
      by apply pushChambers_NoDup.
    + intros n g' Hin. apply list_elem_of_fmap in Hin as (r & [= -> ->] & Hr).
      by apply elem_of_pushChambers in Hr as (i & _ & ->).
  - split; [constructor|]. by intros n g' ?%not_elem_of_nil.
Qed.

Lemma createChambers_NoDup chamberConfig fermeId :
  safe_integer (ChamberConfig.startNumberHommes chamberConfig) →
  safe_integer (ChamberConfig.startNumberHommes chamberConfig
                + ChamberConfig.chambresHommes chamberConfig) →
  safe_integer (ChamberConfig.startNumberFemmes chamberConfig) →
  safe_integer (ChamberConfig.startNumberFemmes chamberConfig
                + ChamberConfig.chambresFemmes chamberConfig) →
  NoDup ((λ room, (Room.numero room, Room.genre room))
         <$> createChambers chamberConfig fermeId).
Proof.
  intros Hsh Hch Hsf Hcf. unfold createChambers. rewrite fmap_app.
  destruct (pushChambers_if fermeId hommes (ChamberConfig.chambresHommes chamberConfig)
              (ChamberConfig.capaciteHommes chamberConfig)
              (ChamberConfig.startNumberHommes chamberConfig) Hsh Hch) as [Hnd1 Hg1].
  destruct (pushChambers_if fermeId femmes (ChamberConfig.chambresFemmes chamberConfig)
              (ChamberConfig.capaciteFemmes chamberConfig)
              (ChamberConfig.startNumberFemmes chamberConfig) Hsf Hcf) as [Hnd2 Hg2].
  apply NoDup_app. split; [done|]. split; [|done].
  intros [n g] Hin1 Hin2. apply Hg1 in Hin1. apply Hg2 in Hin2. congruence.
Qed.

Lemma createChambers_genre chamberConfig fermeId :
  0 ≤ ChamberConfig.chambresHommes chamberConfig →
  0 ≤ ChamberConfig.chambresFemmes chamberConfig →
  len (filter (λ room, Room.genre room = hommes) (createChambers chamberConfig fermeId))
  = ChamberConfig.chambresHommes chamberConfig ∧
  len (filter (λ room, Room.genre room = femmes) (createChambers chamberConfig fermeId))
  = ChamberConfig.chambresFemmes chamberConfig.
Proof.
  intros Hh Hf. rewrite createChambers_eq by done. rewrite !filter_app, !len_app.
  assert (Hall : ∀ g count c s,
            filter (λ room, Room.genre room = g) (pushChambers fermeId g count c s)
            = pushChambers fermeId g count c s).
  { intros g count c s. apply filter_all, Forall_forall. intros room Hin.
    by apply elem_of_pushChambers in Hin as (i & _ & ->). }
  assert (Hnone : ∀ g g' count c s, g ≠ g' →
            filter (λ room, Room.genre room = g) (pushChambers fermeId g' count c s) = []).
  { intros g g' count c s Hne. apply filter_none, Forall_forall. intros room Hin.
    apply elem_of_pushChambers in Hin as (i & _ & ->). simpl. congruence. }
  rewrite !Hall, !Hnone by done. rewrite !pushChambers_len by done.
  unfold len. simpl. lia.
Qed.

Lemma handleSubmit_accepted chamberConfig formData fermeId fermeData chambers :
  ChamberConfig.createChambers chamberConfig = true →
  fermeId ≠ "" →
  handleSubmit chamberConfig formData fermeId = Save fermeData chambers →
  chambers = createChambers chamberConfig fermeId ∧
  fermeData = Ferme.mk (Ferme.nom formData)
                (double_add (ChamberConfig.chambresHommes chamberConfig)
                            (ChamberConfig.chambresFemmes chamberConfig))
                (double_add
                   (double_mul (ChamberConfig.chambresHommes chamberConfig)
                               (ChamberConfig.capaciteHommes chamberConfig))
                   (double_mul (ChamberConfig.chambresFemmes chamberConfig)
                               (ChamberConfig.capaciteFemmes chamberConfig)))
                (Ferme.admins formData) ∧
  ChamberConfig.chambresHommes chamberConfig
  + ChamberConfig.chambresFemmes chamberConfig ≠ 0 ∧
  (ChamberConfig.chambresHommes chamberConfig > 0 →
   ChamberConfig.capaciteHommes chamberConfig > 0) ∧
  (ChamberConfig.chambresFemmes chamberConfig > 0 →
   ChamberConfig.capaciteFemmes chamberConfig > 0).
Proof.
  intros Hcreate Hid. unfold handleSubmit. rewrite Hcreate. cbn [andb].
  assert (Ht : truthy fermeId = true) by (unfold truthy; by rewrite bool_decide_eq_false_2).
  rewrite Ht.
  case_bool_decide as Hzero; [done|]. rewrite double_add_zero in Hzero.
  destruct (bool_decide (ChamberConfig.chambresHommes chamberConfig > 0)
            && bool_decide (ChamberConfig.capaciteHommes chamberConfig ≤ 0)) eqn:Hch; [done|].
  destruct (bool_decide (ChamberConfig.chambresFemmes chamberConfig > 0)
            && bool_decide (ChamberConfig.capaciteFemmes chamberConfig ≤ 0)) eqn:Hcf; [done|].
  intros [= <- <-].
  apply andb_false_iff in Hch, Hcf.
  rewrite !bool_decide_eq_false in Hch, Hcf.
  repeat split; try done; lia.
Qed.

Lemma createChambers_len chamberConfig fermeId :
  0 ≤ ChamberConfig.chambresHommes chamberConfig →
  0 ≤ ChamberConfig.chambresFemmes chamberConfig →
  len (createChambers chamberConfig fermeId)
  = ChamberConfig.chambresHommes chamberConfig + ChamberConfig.chambresFemmes chamberConfig.
Proof. intros Hh Hf. rewrite createChambers_eq, len_app, !pushChambers_len by done. done. Qed.

Lemma createChambers_places chamberConfig fermeId :
  0 ≤ ChamberConfig.chambresHommes chamberConfig →
  0 ≤ ChamberConfig.chambresFemmes chamberConfig →
  places (createChambers chamberConfig fermeId)
  = ChamberConfig.chambresHommes chamberConfig * ChamberConfig.capaciteHommes chamberConfig
    + ChamberConfig.chambresFemmes chamberConfig * ChamberConfig.capaciteFemmes chamberConfig.
Proof.
  intros Hh Hf. rewrite createChambers_eq, places_app, !pushChambers_places by done. done.
Qed.

Lemma createChambers_rooms chamberConfig fermeId :
  (ChamberConfig.chambresHommes chamberConfig > 0 →
   ChamberConfig.capaciteHommes chamberConfig > 0) →
  (ChamberConfig.chambresFemmes chamberConfig > 0 →
   ChamberConfig.capaciteFemmes chamberConfig > 0) →
  Forall (λ room, Room.fermeId room = fermeId ∧ 1 ≤ Room.capaciteTotale room
                  ∧ Room.occupantsActuels room = 0 ∧ Room.listeOccupants room = []
                  ∧ Room.updatedAt room = None)
         (createChambers chamberConfig fermeId).
Proof.
  intros Hch Hcf. apply Forall_forall. intros room Hin.
  apply elem_of_createChambers in Hin as [(i & Hi & ->)|(i & Hi & ->)];
    cbn [Room.fermeId Room.capaciteTotale Room.occupantsActuels Room.listeOccupants
         Room.updatedAt]; repeat split; try done; lia.
Qed.

(** The totals of an accepted form within the safe integers. *)
Lemma accepted_totals_safe h f ch cf :
  0 ≤ h → 0 ≤ f → (h > 0 → ch > 0) → (f > 0 → cf > 0) →
  safe_integer (h * ch + f * cf) →
  double_add h f = h + f ∧
  double_add (double_mul h ch) (double_mul f cf) = h * ch + f * cf.
Proof.
  unfold safe_integer. intros Hh Hf Hch Hcf Hs.
  assert (h ≤ h * ch) by (destruct (decide (h = 0)) as [->|]; [lia|nia]).
  assert (f ≤ f * cf) by (destruct (decide (f = 0)) as [->|]; [lia|nia]).
  rewrite double_add_safe by (unfold safe_integer; lia).
  rewrite !double_mul_safe by (unfold safe_integer; lia).
  rewrite double_add_safe by (unfold safe_integer; lia). done.
Qed.

(** X20, within the safe integers. When the form of a new farm asks for
    rooms and is accepted, and the numbers of the rooms and the number of
    places are at most [2 ^ 53] in absolute value, the totals saved with
    the farm are those of the rooms created for it: the farm's number of
    rooms is the number of rooms created, as many for men and for women as
    asked, and the farm's number of places is the sum of their capacities.
    At least one room is created; every room belongs to the new farm, has a
    capacity of at least 1, no occupant and an empty list of occupants; and
    no two rooms have the same number and gender. *)
Theorem new_farm_totals_match_rooms chamberConfig formData fermeId fermeData chambers :
  ChamberConfig.createChambers chamberConfig = true →
  0 ≤ ChamberConfig.chambresHommes chamberConfig →
  0 ≤ ChamberConfig.chambresFemmes chamberConfig →
  safe_integer (ChamberConfig.startNumberHommes chamberConfig) →
  safe_integer (ChamberConfig.startNumberHommes chamberConfig
                + ChamberConfig.chambresHommes chamberConfig) →
  safe_integer (ChamberConfig.startNumberFemmes chamberConfig) →
  safe_integer (ChamberConfig.startNumberFemmes chamberConfig
                + ChamberConfig.chambresFemmes chamberConfig) →
  safe_integer (ChamberConfig.chambresHommes chamberConfig
                * ChamberConfig.capaciteHommes chamberConfig
                + ChamberConfig.chambresFemmes chamberConfig
                  * ChamberConfig.capaciteFemmes chamberConfig) →
  fermeId ≠ "" →
  handleSubmit chamberConfig formData fermeId = Save fermeData chambers →
  Ferme.nom fermeData = Ferme.nom formData ∧
  Ferme.admins fermeData = Ferme.admins formData ∧
  Ferme.totalChambres fermeData = len chambers ∧
  Ferme.totalOuvriers fermeData = places chambers ∧
  1 ≤ len chambers ∧
  len (filter (λ room, Room.genre room = hommes) chambers)
  = ChamberConfig.chambresHommes chamberConfig ∧
  len (filter (λ room, Room.genre room = femmes) chambers)
  = ChamberConfig.chambresFemmes chamberConfig ∧
  Forall (λ room, Room.fermeId room = fermeId ∧ 1 ≤ Room.capaciteTotale room
                  ∧ Room.occupantsActuels room = 0 ∧ Room.listeOccupants room = []
                  ∧ Room.updatedAt room = None) chambers ∧
  NoDup ((λ room, (Room.numero room, Room.genre room)) <$> chambers).
Proof.
  intros Hcreate Hh Hf Hsh Hnh Hsf Hnf Hplaces Hid Hsave.
  apply handleSubmit_accepted in Hsave as (-> & -> & Hzero & Hch & Hcf); [|done..].
  cbn [Ferme.nom Ferme.admins Ferme.totalChambres Ferme.totalOuvriers].
  destruct (accepted_totals_safe _ _ _ _ Hh Hf Hch Hcf Hplaces) as [-> ->].
  destruct (createChambers_genre chamberConfig fermeId Hh Hf) as [Hmen Hwomen].
  rewrite createChambers_len, createChambers_places by done.
  split; [done|]. split; [done|]. split; [done|]. split; [done|].
  split; [lia|]. split; [done|]. split; [done|].
  split; [by apply createChambers_rooms|by apply createChambers_NoDup].
Qed.

(** X21. The form of a new farm is refused with an alert, and nothing is
    saved, exactly when rooms are to be created and either no room is asked
    for, or rooms for men are asked for with a capacity of 0 or less, or
    rooms for women are. When no rooms are to be created, the farm is saved
    with the totals typed into the form, and no room is created; no room is
    created either when the store returns an empty id for the farm. *)
Theorem new_farm_refused_or_saved chamberConfig formData fermeId :
  let h := ChamberConfig.chambresHommes chamberConfig in
  let f := ChamberConfig.chambresFemmes chamberConfig in
  ((∃ message, handleSubmit chamberConfig formData fermeId = Alert message) ↔
   ChamberConfig.createChambers chamberConfig = true ∧
   (h + f = 0 ∨ (h > 0 ∧ ChamberConfig.capaciteHommes chamberConfig ≤ 0)
    ∨ (f > 0 ∧ ChamberConfig.capaciteFemmes chamberConfig ≤ 0))) ∧
  (ChamberConfig.createChambers chamberConfig = false →
   handleSubmit chamberConfig formData fermeId = Save formData []) ∧
  (∀ fermeData chambers,
     handleSubmit chamberConfig formData "" = Save fermeData chambers → chambers = []).
Proof.
  intros h f. subst h f. destruct formData as [nom tc to ad].
  unfold handleSubmit. rewrite (bool_decide_ext _ _ (double_add_zero _ _)).
  destruct (ChamberConfig.createChambers chamberConfig); cbn [andb].
  - split; [|split; [done|]].
    + repeat case_bool_decide; cbn [andb]; split;
        try (intros [m Hm]; discriminate Hm); try (intros _; by eexists);
        try (intros [_ [?|[[? ?]|[? ?]]]]; lia);
        try (intros _; split; [done|]; lia).
    + intros fermeData chambers. repeat case_bool_decide; cbn [andb]; try done.
      all: by intros [= _ <-].
  - split; [|split; [done|]].
    + split; [by intros [m Hm]|by intros [? _]].
    + by intros fermeData chambers [= _ <-].
Qed.

(** ** A new farm in the statistics and in the synchronisation *)

Lemma len_filter_snd {A B} (P : B → Prop) `{!∀ x, Decision (P x)} (l : list (A * B)) :
  len (filter (λ r : A * B, P r.2) l) = len (filter P l.*2).
Proof.
  unfold len. induction l as [|[a b] l IH]; [done|]. rewrite fmap_cons. simpl.
  destruct (decide (P b)).
  - rewrite (filter_cons_True (λ r : A * B, P r.2)) by done.
    rewrite (filter_cons_True P) by done. simpl. lia.
  - rewrite (filter_cons_False (λ r : A * B, P r.2)) by done.
    rewrite (filter_cons_False P) by done. done.
Qed.

Lemma places_snd (l : list (string * Room.t)) :
  foldl (λ sum (room : string * Room.t), sum + Room.capaciteTotale room.2) 0 l
  = places l.*2.
Proof.
  rewrite (foldl_sum (λ room : string * Room.t, Room.capaciteTotale room.2)).
  unfold places. rewrite Z.add_0_l. induction l as [|r l IH]; [done|].
  rewrite fmap_cons. simpl. by rewrite IH.
Qed.

Lemma Math_round_percent_zero b : Math_round (percent 0 b) = 0.
Proof.
  unfold Math_round, percent.
  assert (Hq : (inject_Z 0 / inject_Z b * 100 + (1 # 2) == 1 # 2)%Q).
  { unfold Qdiv. rewrite !Qmult_0_l. apply Qplus_0_l. }
  by rewrite Hq.
Qed.

Lemma empty_rooms_stats (fermeRooms : list (string * Room.t)) :
  Forall (λ room : string * Room.t, 1 ≤ Room.capaciteTotale room.2) fermeRooms →
  filter (λ stat, RoomStat.isOccupied stat = true) (roomStat ∅ <$> fermeRooms) = [] ∧
  filter (λ stat, RoomStat.isOvercapacity stat = true) (roomStat ∅ <$> fermeRooms) = [] ∧
  foldl (λ sum stat, sum + RoomStat.capacityUsed stat) 0 (roomStat ∅ <$> fermeRooms) = 0.
Proof.
  intros Hcap. split; [|split].
  - apply filter_none, Forall_forall. intros stat Hin.
    apply list_elem_of_fmap in Hin as (room & -> & _). done.
  - apply filter_none, Forall_forall. intros stat Hin.
    apply list_elem_of_fmap in Hin as (room & -> & Hin).
    rewrite Forall_forall in Hcap. apply Hcap in Hin.
    unfold roomStat. cbn [RoomStat.isOvercapacity]. rewrite lookup_empty. simpl.
    rewrite bool_decide_eq_false_2 by lia. done.
  - rewrite (foldl_sum RoomStat.capacityUsed), Z.add_0_l.
    induction Hcap as [|room l Hroom _ IH]; [done|].
    rewrite fmap_cons. cbn [foldr]. rewrite IH.
    unfold roomStat. cbn [RoomStat.capacityUsed]. rewrite lookup_empty. simpl. lia.
Qed.

(** X22, within the safe integers. A farm whose rooms have just been
    created from the form, with a number of places of at most [2 ^ 53],
    and to which no active worker belongs yet, shows in its statistics the
    totals saved with the farm: as many rooms, for men and for women, and
    as many places; none of them occupied, an occupancy rate of 0 and no
    issue. And when no farm id contains a dash, a pass of the
    synchronisation sends no correction for its rooms. *)
Theorem new_farm_starts_empty chamberConfig formData fermeId fermeData chambers
    workers rooms :
  ChamberConfig.createChambers chamberConfig = true →
  0 ≤ ChamberConfig.chambresHommes chamberConfig →
  0 ≤ ChamberConfig.chambresFemmes chamberConfig →
  safe_integer (ChamberConfig.chambresHommes chamberConfig
                * ChamberConfig.capaciteHommes chamberConfig
                + ChamberConfig.chambresFemmes chamberConfig
                  * ChamberConfig.capaciteFemmes chamberConfig) →
  fermeId ≠ "" →
  handleSubmit chamberConfig formData fermeId = Save fermeData chambers →
  (roomsOf fermeId rooms).*2 = chambers →
  (∀ w, w ∈ workers → Worker.statut w = actif → Worker.fermeId w ≠ fermeId) →
  let s := getFermeStats workers rooms fermeId in
  FermeStats.totalChambres s = Ferme.totalChambres fermeData ∧
  FermeStats.totalCapacity s = Ferme.totalOuvriers fermeData ∧
  FermeStats.maleRooms s = ChamberConfig.chambresHommes chamberConfig ∧
  FermeStats.femaleRooms s = ChamberConfig.chambresFemmes chamberConfig ∧
  FermeStats.totalOuvriers s = 0 ∧
  FermeStats.chambresOccupees s = 0 ∧
  FermeStats.totalOccupied s = 0 ∧
  FermeStats.placesDisponibles s = Ferme.totalOuvriers fermeData ∧
  FermeStats.tauxOccupation s = 0 ∧
  FermeStats.hasIssues s = false ∧
  (dash_free fermeId → Forall (λ w, dash_free (Worker.fermeId w)) workers →
   ∀ now room, room ∈ roomsOf fermeId rooms →
               correctionFor now (workersByRoom workers) room = None).
Proof.
  intros Hcreate Hh Hf Hsafe Hid Hsave Hrooms Hworkers s.
  apply handleSubmit_accepted in Hsave as (-> & -> & Hzero & Hch & Hcf); [|done..].
  cbn [Ferme.totalChambres Ferme.totalOuvriers].
  destruct (accepted_totals_safe _ _ _ _ Hh Hf Hch Hcf Hsafe) as [-> ->].
  assert (Hnone : filter (λ w, Worker.fermeId w = fermeId ∧ Worker.statut w = actif) workers
                  = []).
  { apply filter_none, Forall_forall. intros w Hw [Hfw Ha]. by apply (Hworkers w). }
  pose proof (createChambers_rooms chamberConfig fermeId Hch Hcf) as Hall.
  rewrite <- Hrooms in Hall.
  assert (Hcap : Forall (λ room : string * Room.t, 1 ≤ Room.capaciteTotale room.2)
                        (roomsOf fermeId rooms)).
  { rewrite Forall_fmap in Hall. eapply Forall_impl; [exact Hall|].
    intros room (_ & ? & _). done. }
  destruct (empty_rooms_stats _ Hcap) as (Hocc & Hover & Hused).
  destruct (createChambers_genre chamberConfig fermeId Hh Hf) as [Hmen Hwomen].
  rewrite <- Hrooms in Hmen, Hwomen.
  pose proof (createChambers_len chamberConfig fermeId Hh Hf) as Hlen.
  pose proof (createChambers_places chamberConfig fermeId Hh Hf) as Hplaces.
  rewrite <- Hrooms in Hlen, Hplaces. rewrite len_fmap in Hlen.
  subst s. unfold getFermeStats. rewrite Hnone. cbn [foldl].
  fold (roomsOf fermeId rooms).
  cbn [FermeStats.totalChambres FermeStats.totalCapacity FermeStats.maleRooms
       FermeStats.femaleRooms FermeStats.totalOuvriers FermeStats.chambresOccupees
       FermeStats.totalOccupied FermeStats.placesDisponibles FermeStats.tauxOccupation
       FermeStats.hasIssues].
  rewrite Hocc, Hover, Hused, places_snd, Hplaces.
  pose proof (len_filter_snd (λ r, Room.genre r = hommes) (roomsOf fermeId rooms)) as Hm.
  pose proof (len_filter_snd (λ r, Room.genre r = femmes) (roomsOf fermeId rooms)) as Hw.
  cbv beta in Hm, Hw. rewrite Hm, Hw, Hmen, Hwomen.
  split; [done|]. split; [done|]. split; [done|]. split; [done|].
  split; [done|]. split; [done|]. split; [done|]. split; [lia|].
  split; [by case_bool_decide; [apply Math_round_percent_zero|]|].
  split; [done|].
  intros Hdash Hdashes now [id r] Hin.
  apply eq_None_not_Some. rewrite correctionFor_Some. intros Hne. apply Hne. clear Hne.
  cbn [snd]. rewrite workersByRoom_room.
  assert (Hr : Room.fermeId r = fermeId ∧ Room.occupantsActuels r = 0).
  { rewrite Forall_fmap, Forall_forall in Hall.
    destruct (Hall (id, r) Hin) as (? & _ & ? & _). done. }
  destruct Hr as [Hfr Hor].
  rewrite keyOccupants_statOccupants; [|by rewrite Hfr|done|by rewrite Hfr].
  rewrite Hor. unfold statOccupants. rewrite filter_none; [done|].
  apply Forall_forall. intros w Hin' (Ha & _ & _ & _ & Hfw).
  apply (Hworkers w Hin' Ha). by rewrite Hfw.
Qed.

(** ** Deleting a farm *)

Lemma deleteRooms_lookup fails fermeRooms rooms id :
  (deleteRooms fails fermeRooms rooms).1 !! id = None
  ∨ (deleteRooms fails fermeRooms rooms).1 !! id = rooms !! id.
Proof.
  revert rooms. induction fermeRooms as [|room rest IH]; intros rooms; [by right|].
  cbn [deleteRooms]. unfold deleteDoc. destruct (fails room.1); [by right|].
  destruct (IH (delete room.1 rooms)) as [H|H]; [by left|].
  rewrite H. destruct (decide (room.1 = id)) as [->|Hne].
  - left. apply lookup_delete_eq.
  - right. by apply lookup_delete_ne.
Qed.

Lemma deleteRooms_other fails fermeRooms rooms id :
  id ∉ fermeRooms.*1 → (deleteRooms fails fermeRooms rooms).1 !! id = rooms !! id.
Proof.
  revert rooms. induction fermeRooms as [|room rest IH]; intros rooms Hid; [done|].
  rewrite fmap_cons in Hid. apply not_elem_of_cons in Hid as [Hne Hid].
  cbn [deleteRooms]. unfold deleteDoc. destruct (fails room.1); [done|].
  rewrite IH by done. by apply lookup_delete_ne.
Qed.

Lemma deleteRooms_all fails fermeRooms rooms :
  (∀ id, id ∈ fermeRooms.*1 → fails id = None) →
  (deleteRooms fails fermeRooms rooms).2 = None ∧
  ∀ id, id ∈ fermeRooms.*1 → (deleteRooms fails fermeRooms rooms).1 !! id = None.
Proof.
  revert rooms. induction fermeRooms as [|room rest IH]; intros rooms Hok.
  - split; [done|]. by intros id ?%not_elem_of_nil.
  - cbn [deleteRooms]. unfold deleteDoc. rewrite Hok by (rewrite fmap_cons; left).
    destruct (IH (delete room.1 rooms)) as [IH1 IH2].
    { intros id Hid. apply Hok. rewrite fmap_cons. by right. }
    split; [done|]. intros id Hid. rewrite fmap_cons in Hid.
    destruct (decide (id ∈ rest.*1)) as [Hin|Hnotin]; [by apply IH2|].
    apply elem_of_cons in Hid as [->|?]; [|done].
    rewrite deleteRooms_other by done. apply lookup_delete_eq.
Qed.

(** X23. When the deletion of a farm is confirmed and the store accepts
    to delete its rooms, every loaded room of the farm is gone from the
    store afterwards, the rooms of other farms are as they were, and the
    farm is deleted by the one call to [deleteDocument] that follows; if
    that call throws, the farm stays although its rooms are gone, and the
    alert reports the error. When the loaded rooms are those of the store,
    no room of the farm is left. *)
Theorem delete_farm_cascades deleteDocument confirm fails rooms fermeId fermeName db :
  confirm (confirmMessage fermeName (len (roomsOf fermeId rooms))) = true →
  (∀ id r, (id, r) ∈ rooms → Room.fermeId r = fermeId → fails id = None) →
  let after := handleDelete deleteDocument confirm fails rooms fermeId fermeName db in
  (∀ id r, (id, r) ∈ rooms → Room.fermeId r = fermeId →
           FarmDb.rooms after.1 !! id = None) ∧
  (∀ id, id ∉ (roomsOf fermeId rooms).*1 →
         FarmDb.rooms after.1 !! id = FarmDb.rooms db !! id) ∧
  match deleteDocument fermeId (FarmDb.fermes db) with
  | inr fermes' =>
      FarmDb.fermes after.1 = fermes' ∧
      after.2 = Some (deletedMessage fermeName (len (roomsOf fermeId rooms)))
  | inl error =>
      FarmDb.fermes after.1 = FarmDb.fermes db ∧
      after.2 = Some (deleteErrorMessage error)
  end ∧
  ((∀ id r, FarmDb.rooms db !! id = Some r → (id, r) ∈ rooms) →
   ∀ id r, FarmDb.rooms after.1 !! id = Some r → Room.fermeId r ≠ fermeId).
Proof.
  intros Hconfirm Hok after.
  assert (Hok' : ∀ id, id ∈ (roomsOf fermeId rooms).*1 → fails id = None).
  { intros id Hid. apply list_elem_of_fmap in Hid as ([id' r] & -> & Hin).
    apply list_elem_of_filter in Hin as [Hf Hin]. by apply (Hok id' r). }
  destruct (deleteRooms_all fails (roomsOf fermeId rooms) (FarmDb.rooms db) Hok')
    as [Hnone Hgone].
  assert (Hafter : FarmDb.rooms after.1
                   = (deleteRooms fails (roomsOf fermeId rooms) (FarmDb.rooms db)).1
                   ∧ match deleteDocument fermeId (FarmDb.fermes db) with
                     | inr fermes' =>
                         FarmDb.fermes after.1 = fermes' ∧
                         after.2 = Some (deletedMessage fermeName
                                           (len (roomsOf fermeId rooms)))
                     | inl error =>
                         FarmDb.fermes after.1 = FarmDb.fermes db ∧
                         after.2 = Some (deleteErrorMessage error)
                     end).
  { subst after. unfold handleDelete. fold (roomsOf fermeId rooms).
    rewrite Hconfirm.
    destruct (deleteRooms fails (roomsOf fermeId rooms) (FarmDb.rooms db))
      as [rooms' err] eqn:Hdel. simpl in Hnone. subst err.
    case_bool_decide as Hcount.
    - destruct (deleteDocument fermeId (FarmDb.fermes db)); done.
    - assert (Hnil : roomsOf fermeId rooms = []).
      { destruct (roomsOf fermeId rooms); [done|]. unfold len in Hcount. simpl in Hcount. lia. }
      rewrite Hnil in Hdel. injection Hdel as <-.
      destruct (deleteDocument fermeId (FarmDb.fermes db)); done. }
  destruct Hafter as [Hrooms Hfermes]. rewrite Hrooms.
  assert (Hloaded : ∀ id r, (id, r) ∈ rooms → Room.fermeId r = fermeId →
            (deleteRooms fails (roomsOf fermeId rooms) (FarmDb.rooms db)).1 !! id = None).
  { intros id r Hin Hf. apply Hgone. apply list_elem_of_fmap. exists (id, r).
    split; [done|]. by apply list_elem_of_filter. }
  split; [exact Hloaded|]. split; [intros id; apply deleteRooms_other|].
  split; [exact Hfermes|].
  intros Hsync id r Hl Hf.
  destruct (deleteRooms_lookup fails (roomsOf fermeId rooms) (FarmDb.rooms db) id)
    as [H|H]; [congruence|].
  rewrite H in Hl. apply Hsync in Hl as Hin.
  rewrite (Hloaded id r Hin Hf) in H. congruence.
Qed.

(** X24. Whatever the store does, deleting a farm adds no room and
    touches no room of another farm. Nothing at all is changed, and no
    alert is shown, when the deletion is not confirmed. When the store
    refuses to delete a room, the rooms before it in the list are gone, the
    deletion stops there, the farm is not deleted and the alert reports the
    error. *)
Theorem delete_farm_leaves_the_rest deleteDocument confirm fails rooms fermeId fermeName db :
  let after := handleDelete deleteDocument confirm fails rooms fermeId fermeName db in
  (∀ id, FarmDb.rooms after.1 !! id = None
         ∨ FarmDb.rooms after.1 !! id = FarmDb.rooms db !! id) ∧
  (∀ id, id ∉ (roomsOf fermeId rooms).*1 →
         FarmDb.rooms after.1 !! id = FarmDb.rooms db !! id) ∧
  (confirm (confirmMessage fermeName (len (roomsOf fermeId rooms))) = false →
   after = (db, None)) ∧
  (confirm (confirmMessage fermeName (len (roomsOf fermeId rooms))) = true →
   ∀ done_ room rest error,
     roomsOf fermeId rooms = (done_ ++ room :: rest)%list →
     (∀ id, id ∈ done_.*1 → fails id = None) →
     fails room.1 = Some error →
     FarmDb.fermes after.1 = FarmDb.fermes db ∧
     after.2 = Some (deleteErrorMessage error) ∧
     (∀ id, id ∈ done_.*1 → FarmDb.rooms after.1 !! id = None) ∧
     (∀ id, id ∉ done_.*1 → FarmDb.rooms after.1 !! id = FarmDb.rooms db !! id)).
Proof.
  intros after.
  assert (Hrooms : FarmDb.rooms after.1 = FarmDb.rooms db
                   ∨ FarmDb.rooms after.1
                     = (deleteRooms fails (roomsOf fermeId rooms) (FarmDb.rooms db)).1).
  { subst after. unfold handleDelete. fold (roomsOf fermeId rooms).
    destruct (confirm _); [|by left].
    case_bool_decide.
    - right. destruct (deleteRooms fails (roomsOf fermeId rooms) (FarmDb.rooms db))
        as [rooms' [e|]]; [done|].
      destruct (deleteDocument fermeId (FarmDb.fermes db)); done.
    - left. destruct (deleteDocument fermeId (FarmDb.fermes db)); done. }
  split; [|split; [|split]].
  - intros id. destruct Hrooms as [->| ->]; [by right|apply deleteRooms_lookup].
  - intros id Hid. destruct Hrooms as [->| ->]; [done|by apply deleteRooms_other].
  - intros Hno. subst after. unfold handleDelete. fold (roomsOf fermeId rooms).
    by rewrite Hno.
  - intros Hyes done_ room rest error Hsplit Hok Hfail.
    assert (Hrun : deleteRooms fails (roomsOf fermeId rooms) (FarmDb.rooms db)
                   = ((deleteRooms fails done_ (FarmDb.rooms db)).1, Some error)).
    { rewrite Hsplit. clear Hsplit Hrooms. generalize (FarmDb.rooms db).
      induction done_ as [|d done_ IH]; intros docs.
      - cbn [app deleteRooms]. unfold deleteDoc. by rewrite Hfail.
      - cbn [app deleteRooms]. unfold deleteDoc.
        rewrite Hok by (rewrite fmap_cons; left).
        apply IH. intros id Hid. apply Hok. rewrite fmap_cons. by right. }
    assert (Hafter : after = (FarmDb.mk (FarmDb.fermes db)
                                (deleteRooms fails done_ (FarmDb.rooms db)).1,
                              Some (deleteErrorMessage error))).
    { subst after. unfold handleDelete. fold (roomsOf fermeId rooms).
      rewrite Hyes, Hrun. rewrite bool_decide_eq_true_2; [done|].
      rewrite Hsplit. unfold len. rewrite length_app. simpl. lia. }
    rewrite Hafter. cbn [fst snd FarmDb.fermes FarmDb.rooms].
    split; [done|]. split; [done|]. split.
    + by apply deleteRooms_all.
    + intros id Hid. by apply deleteRooms_other.
Qed.

(** ** The article filter and the summary of the PDF report *)

Lemma Set_add_fold s xs :
  NoDup s →
  NoDup (foldl Set_add s xs) ∧ ∀ x, x ∈ foldl Set_add s xs ↔ x ∈ s ∨ x ∈ xs.
Proof.
  revert s. induction xs as [|y xs IH]; intros s Hnd.
  - split; [done|]. intros x. rewrite elem_of_nil. tauto.
  - cbn [foldl]. unfold Set_add at 2 4. case_bool_decide as Hy.
    + destruct (IH s Hnd) as [IH1 IH2]. split; [done|].
      intros x. rewrite IH2, elem_of_cons. split; [tauto|].
      intros [?|[->|?]]; tauto.
    + destruct (IH (s ++ [y])%list) as [IH1 IH2].
      { apply NoDup_app. split; [done|]. split; [|apply NoDup_singleton].
        intros x Hx ->%list_elem_of_singleton. done. }
      split; [done|]. intros x.
      rewrite IH2, elem_of_app, list_elem_of_singleton, elem_of_cons. tauto.
Qed.

Lemma Array_from_Set_NoDup xs : NoDup (Array_from_Set xs).
Proof. apply Set_add_fold. constructor. Qed.

Lemma elem_of_Array_from_Set xs x : x ∈ Array_from_Set xs ↔ x ∈ xs.
Proof.
  unfold Array_from_Set. destruct (Set_add_fold [] xs) as [_ H]; [constructor|].
  rewrite H, elem_of_nil. tauto.
Qed.

Lemma Set_size_le xs : 0 ≤ Set_size xs ≤ len xs.
Proof.
  unfold Set_size, len. split; [lia|]. apply inj_le, submseteq_length, NoDup_submseteq.
  - apply Array_from_Set_NoDup.
  - intros x. apply elem_of_Array_from_Set.
Qed.

(** X25. The filter of the stock list offers every article of the loaded
    rows once, in ascending order, and nothing else. Choosing an article
    shows the rows of that article, at least one when the article is an
    offered one; but the choice "all" shows every row, also when "all" is
    the name of an article. Every row is shown under its own article. *)
Theorem article_filter_covers_rows stocks :
  NoDup (availableArticles stocks) ∧
  Sorted code_unit_le (availableArticles stocks) ∧
  (∀ article, article ∈ availableArticles stocks ↔
              ∃ row, row ∈ stocks ∧ StockItem.item row.2 = article) ∧
  (∀ article, article ∈ availableArticles stocks → filteredStocks article stocks ≠ []) ∧
  (∀ article row,
     row ∈ filteredStocks article stocks ↔
     row ∈ stocks ∧ (article = "all" ∨ StockItem.item row.2 = article)) ∧
  (∀ row, row ∈ stocks → row ∈ filteredStocks (StockItem.item row.2) stocks) ∧
  filteredStocks "all" stocks = stocks.
Proof.
  assert (Hin : ∀ article, article ∈ availableArticles stocks ↔
                  ∃ row, row ∈ stocks ∧ StockItem.item row.2 = article).
  { intros article. unfold availableArticles.
    rewrite merge_sort_Permutation, elem_of_Array_from_Set, list_elem_of_fmap.
    split; intros (row & ? & ?); by exists row. }
  assert (Hrow : ∀ row, row ∈ stocks → row ∈ filteredStocks (StockItem.item row.2) stocks).
  { intros row Hr. unfold filteredStocks. case_bool_decide; [done|].
    by apply list_elem_of_filter. }
  split; [|split; [|split; [exact Hin|split; [|split; [|split; [exact Hrow|done]]]]]].
  - unfold availableArticles. rewrite merge_sort_Permutation. apply Array_from_Set_NoDup.
  - apply Sorted_merge_sort. apply _.
  - intros article Ha. apply Hin in Ha as (row & Hr & <-).
    apply Hrow in Hr. intros Hnil. rewrite Hnil in Hr. by apply not_elem_of_nil in Hr.
  - intros article row. unfold filteredStocks. case_bool_decide as Hall.
    + split; [intros Hr; split; [done|by left]|by intros [? _]].
    + rewrite list_elem_of_filter. split; [intros [? ?]; split; [done|by right]|].
      intros [Hr [?|Hitem]]; [done|by split].
Qed.

(** X26. In the summary of the PDF report the transfers in wait and the
    confirmed transfers add up to the loaded transfers; the number of kinds
    of articles is the number of articles the filter offers; kinds and
    sectors are at most as many as the rows, and at least 1 when there is a
    row; the number of pieces is the sum of the rows' quantities. When the
    rows are different and there is one row at most per sector and article,
    there are at most kinds times sectors rows. *)
Theorem pdf_summary_counts stocks transfers stockAdditions :
  NoDup stocks → loaded_unique stocks →
  let s := summaryStatistics stocks transfers stockAdditions in
  Summary.pendingTransfers s + Summary.completedTransfers s = len transfers ∧
  Summary.uniqueItems s = len (availableArticles stocks) ∧
  0 ≤ Summary.uniqueItems s ≤ Summary.articles s ∧
  0 ≤ Summary.activeSectors s ≤ Summary.articles s ∧
  (stocks ≠ [] → 1 ≤ Summary.uniqueItems s ∧ 1 ≤ Summary.activeSectors s) ∧
  Summary.totalItems s = js_sum ((λ row : string * StockItem.t, StockItem.quantity row.2)
                                 <$> stocks) ∧
  Summary.articles s ≤ Summary.uniqueItems s * Summary.activeSectors s ∧
  0 ≤ Summary.pendingAdditions s ≤ len stockAdditions.
Proof.
  intros Hnd Hunique s. subst s. unfold summaryStatistics.
  cbn [Summary.pendingTransfers Summary.completedTransfers Summary.uniqueItems
       Summary.articles Summary.activeSectors Summary.totalItems Summary.pendingAdditions].
  set (items := (λ s : string * StockItem.t, StockItem.item s.2) <$> stocks).
  set (sectors := (λ s : string * StockItem.t, StockItem.secteurId s.2) <$> stocks).
  assert (Hi : len items = len stocks) by apply len_fmap.
  assert (Hs : len sectors = len stocks) by apply len_fmap.
  pose proof (Set_size_le items) as Hile. pose proof (Set_size_le sectors) as Hsle.
  assert (Hpos : ∀ xs : list string, xs ≠ [] → 1 ≤ Set_size xs).
  { intros [|x xs] Hne; [done|]. unfold Set_size, len.
    assert (Hx : x ∈ Array_from_Set (x :: xs)) by (apply elem_of_Array_from_Set; left).
    destruct (Array_from_Set (x :: xs)); [by apply not_elem_of_nil in Hx|]. simpl. lia. }
  split; [|split; [|split; [lia|split; [lia|split; [|split; [|split]]]]]].
  - apply len_filter_split. intros [id t]. simpl.
    destruct (StockTransfer.status t); intuition congruence.
  - unfold Set_size, availableArticles, len. fold items.
    by rewrite merge_sort_Permutation.
  - intros Hne. split; apply Hpos; unfold items, sectors; by destruct stocks.
  - apply totalItems_js_sum.
  - unfold Set_size, len. rewrite <- Nat2Z.inj_mul. apply inj_le.
    rewrite <- length_prod.
    rewrite <- (length_fmap (λ row : string * StockItem.t,
                               (StockItem.item row.2, StockItem.secteurId row.2)) stocks).
    apply submseteq_length, NoDup_submseteq.
    + apply NoDup_fmap_2_strong; [|done].
      intros x y Hx Hy [= Hitem Hsect]. by apply Hunique.
    + intros [i sct] Hin. apply list_elem_of_fmap in Hin as (row & [= -> ->] & Hrow).
      apply list_elem_of_In, in_prod_iff. rewrite <- !list_elem_of_In.
      rewrite !elem_of_Array_from_Set. unfold items, sectors.
      split; apply list_elem_of_fmap; by exists row.
  - apply len_filter_le.
Qed.

(** ** The additions a user sees *)

Lemma elem_of_loadAdditions isSuperAdmin user c id a :
  (id, a) ∈ loadAdditions isSuperAdmin user c ↔
  c !! id = Some a ∧
  if isSuperAdmin then StockAddition.addedBy a = default "" (user_uid user)
  else StockAddition.secteurId a = default "" (user_fermeId user)
       ∧ StockAddition.status a = pending.
Proof.
  unfold loadAdditions. destruct isSuperAdmin;
    rewrite list_elem_of_filter, elem_of_map_to_list; simpl; tauto.
Qed.

(** X27. An addition a super admin creates for a sector is offered for
    confirmation to the admins of that sector and to no admin of another
    sector, and the super admin sees it among their additions. Once it is
    confirmed, no sector admin's list holds it any more, while the super
    admin's list holds it as confirmed. A sector admin's list holds pending
    additions only, so everything in it is offered. *)
Theorem addition_offered_to_its_sector (parseInt : string → number) admin uid form e db :
  AddStockForm.item form ≠ "" → AddStockForm.quantity form ≠ "" →
  js_le (parseInt (AddStockForm.quantity form)) (Num 0) = false →
  user_uid admin = Some uid →
  let created := (handleAddStockSubmit parseInt true admin form e db).1 in
  (∀ user,
     (∃ a, (autoId e, a) ∈ pendingAdditions (loadAdditions false user (stock_additions created)))
     ↔ default "" (user_fermeId user) = AddStockForm.secteurId form) ∧
  (∃ a, (autoId e, a) ∈ loadAdditions true admin (stock_additions created)
        ∧ StockAddition.status a = pending) ∧
  (∀ a e',
     let confirmed_ := (handleConfirmAddition (autoId e) a e' created).1 in
     (∀ user b, (autoId e, b) ∉ loadAdditions false user (stock_additions confirmed_)) ∧
     (∃ b, (autoId e, b) ∈ loadAdditions true admin (stock_additions confirmed_)
           ∧ StockAddition.status b = confirmed)) ∧
  (∀ user c, pendingAdditions (loadAdditions false user c) = loadAdditions false user c).
Proof.
  intros Hi Hq Hle Huid created.
  assert (Hcreated : stock_additions created !! autoId e
            = Some (StockAddition.mk (AddStockForm.secteurId form) (AddStockForm.item form)
                      (parseInt (AddStockForm.quantity form)) (AddStockForm.unit form)
                      pending uid (serverTimestamp e) None)).
  { subst created. rewrite handleAddStockSubmit_run by done. rewrite Huid. simpl.
    apply lookup_insert_eq. }
  split; [|split; [|split]].
  - intros user. unfold pendingAdditions. split.
    + intros (a & Ha). apply list_elem_of_filter in Ha as [_ Ha].
      apply elem_of_loadAdditions in Ha as [Hl [Hs _]].
      rewrite Hcreated in Hl. injection Hl as <-. done.
    + intros Hs. eexists. apply list_elem_of_filter.
      split; [|apply elem_of_loadAdditions; split; [exact Hcreated|]].
      * reflexivity.
      * simpl. by rewrite Hs.
  - eexists. split; [apply elem_of_loadAdditions; split; [exact Hcreated|]|done].
    simpl. by rewrite Huid.
  - intros a e' confirmed_.
    assert (Hconf : stock_additions confirmed_ !! autoId e
              = Some (StockAddition.mk (AddStockForm.secteurId form) (AddStockForm.item form)
                        (parseInt (AddStockForm.quantity form)) (AddStockForm.unit form)
                        confirmed uid (serverTimestamp e) (Some (serverTimestamp e')))).
    { subst confirmed_. rewrite (handleConfirmAddition_run _ _ _ _ _ Hcreated). simpl.
      apply lookup_insert_eq. }
    split.
    + intros user b Hb. apply elem_of_loadAdditions in Hb as [Hl [_ Hp]].
      rewrite Hconf in Hl. injection Hl as <-. done.
    + eexists. split; [apply elem_of_loadAdditions; split; [exact Hconf|]|done].
      simpl. by rewrite Huid.
  - intros user c. unfold pendingAdditions. apply filter_all, Forall_forall.
    intros [id a] Ha. apply elem_of_loadAdditions in Ha as [_ [_ Hp]]. done.
Qed.

(** ** Closed facts about loaded lists *)

Lemma loaded_unique_NoDup loaded :
  NoDup ((λ kd : string * StockItem.t, (StockItem.secteurId kd.2, StockItem.item kd.2))
           <$> loaded) →
  loaded_unique loaded.
Proof.
  intros Hnd x y Hx Hy Hs Hi.
  apply list_elem_of_lookup in Hx as [n1 H1], Hy as [n2 H2].
  assert (n1 = n2) as ->.
  { eapply NoDup_lookup; [exact Hnd| |].
    - rewrite list_lookup_fmap, H1. reflexivity.
    - rewrite list_lookup_fmap, H2. simpl. by rewrite Hs, Hi. }
  congruence.
Qed.

Lemma no_row_empty_query c s i : getDocs_stocks c s i = [] → no_row c s i.
Proof.
  intros E. destruct (getDocs_stocks_cases c s i) as [[_ H]|(id & d & rest & E' & _)];
    [done|congruence].
Qed.

(** * The further properties on the examples *)

(** The rows of a given list are one per sector and item. *)
Ltac unique_loaded := apply loaded_unique_NoDup, (bool_decide_unpack _); vm_compute; exact I.

(** A decidable closed fact, such as membership in a given list. *)
Ltac decided := apply (bool_decide_unpack _); vm_compute; exact I.

(** No row of a given store is of the sector and the item. *)
Ltac no_such_row := apply no_row_empty_query; vm_compute; reflexivity.

Lemma confirmation_without_record_writes_nothing_witness :
  handleConfirmTransfer "t9" Run.transfer1 Run.env4 Run.db3
  = (Run.db3, Erreur "Impossible de confirmer le transfert") ∧
  (handleConfirmTransfer "t1" Run.transfer1 Run.env4 Run.db3).2
  = Succes "Transfert confirmé" ∧
  handleConfirmAddition "a9" Run.addition1 Run.env4 Run.dbB
  = (Run.dbB, Erreur "Impossible de confirmer l'ajout") ∧
  (handleConfirmAddition "a1" Run.addition1 Run.env4 Run.dbB).2 = Succes "Ajout confirmé".
Proof.
  destruct (confirmation_without_record_writes_nothing "t9" Run.env4 Run.db3) as [Ht9 _].
  destruct (confirmation_without_record_writes_nothing "t1" Run.env4 Run.db3) as [Ht1 _].
  destruct (confirmation_without_record_writes_nothing "a9" Run.env4 Run.dbB) as [_ Ha9].
  destruct (confirmation_without_record_writes_nothing "a1" Run.env4 Run.dbB) as [_ Ha1].
  split; [|split; [|split]].
  - apply (Ht9 Run.transfer1). by_evaluation.
  - apply (Ht1 Run.transfer1). exists Run.transfer1. by_evaluation.
  - apply (Ha9 Run.addition1). by_evaluation.
  - apply (Ha1 Run.addition1). exists Run.addition1. by_evaluation.
Defined.

Lemma confirmTransfer_touches_only_its_rows_witness :
  stocks Run.db3 !! autoId Run.env4 = None ∧
  let db' := (handleConfirmTransfer "t1" Run.transfer1 Run.env4 Run.db3).1 in
  stock_additions db' = stock_additions Run.db3 ∧
  stock_transfers db' !! "t2" = stock_transfers Run.db3 !! "t2" ∧
  is_Some (stocks db' !! "stock-A").
Proof.
  split; [by_evaluation|].
  destruct (confirmTransfer_touches_only_its_rows "t1" Run.transfer1 Run.env4 Run.db3)
    as (_ & Hkeep & _ & Hadd & Hother).
  - by_evaluation.
  - split; [exact Hadd|]. split.
    + apply Hother. discriminate.
    + apply Hkeep. exists Run.rowA. by_evaluation.
Defined.

Lemma confirmTransfer_without_sender_row_witness :
  no_row (stocks Run.dbB) "A" "ciment" ∧
  let r := handleConfirmTransfer "t1" Run.transfer1 Run.env5 Run.dbB in
  r.2 = Succes "Transfert confirmé" ∧
  balance (stocks r.1) "B" "ciment" = js_add (balance (stocks Run.dbB) "B" "ciment") (Num 10) ∧
  no_row (stocks r.1) "A" "ciment".
Proof.
  split; [no_such_row|].
  destruct (confirmTransfer_without_sender_row "t1" Run.transfer1 Run.env5 Run.dbB)
    as (Hok & _ & Hcredit & Hsender).
  - exists Run.transfer1. by_evaluation.
  - unique_rows.
  - no_such_row.
  - split; [exact Hok|]. split; [exact Hcredit|]. apply Hsender. discriminate.
Defined.

Lemma createTransfer_adds_one_pending_transfer_witness :
  let r := handleTransferSubmit js_parseInt false Run.adminA Run.transferForm
             (stockQuery false "all" Run.adminA (stocks Run.db1)) Run.env2 Run.db1 in
  r.2 = Succes "Transfert créé" ∧
  stocks r.1 = stocks Run.db1 ∧
  stock_transfers r.1 !! "t1" = Some Run.transfer1 ∧
  (("t1", Run.transfer1) ∈ pendingIncomingTransfers Run.adminB
                             (map_to_list (stock_transfers r.1))) ∧
  (("t1", Run.transfer1) ∉ pendingIncomingTransfers Run.adminA
                             (map_to_list (stock_transfers r.1))).
Proof.
  destruct (createTransfer_adds_one_pending_transfer js_parseInt false Run.adminA
              Run.transferForm (stockQuery false "all" Run.adminA (stocks Run.db1))
              Run.env2 Run.db1 "A" 10 ("stock-A", Run.rowA) 10)
    as (Hok & Hstocks & _ & Hnew & _ & Hoffer).
  - discriminate.
  - discriminate.
  - discriminate.
  - discriminate.
  - reflexivity.
  - discriminate.
  - by_evaluation.
  - lia.
  - unique_loaded.
  - decided.
  - reflexivity.
  - reflexivity.
  - reflexivity.
  - lia.
  - split; [exact Hok|]. split; [exact Hstocks|]. split; [exact Hnew|]. split.
    + apply (Hoffer Run.adminB). reflexivity.
    + intros Hin. apply (Hoffer Run.adminA) in Hin. discriminate.
Defined.

(** A given element is in a given list. *)
Ltac listed := vm_compute; repeat constructor.

Lemma offered_items_can_be_requested_witness :
  More.offered ∈ availableItems false Run.adminA Run.transferForm More.rows ∧
  (handleTransferSubmit js_parseInt false Run.adminA Run.transferForm More.rows
     Run.env2 Run.db1).2 = Succes "Transfert créé".
Proof.
  split; [listed|].
  apply (offered_items_can_be_requested js_parseInt false Run.adminA Run.transferForm
           More.rows Run.env2 Run.db1 "A" 10 More.offered).
  - listed.
  - unique_loaded.
  - reflexivity.
  - reflexivity.
  - discriminate.
  - discriminate.
  - discriminate.
  - discriminate.
  - discriminate.
  - by_evaluation.
  - lia.
  - reflexivity.
Defined.

Lemma addStock_by_sector_admin_witness :
  let r := handleAddStockSubmit js_parseInt false Run.adminA Run.addForm Run.env1 emptyDb in
  r.2 = Succes "Stock ajouté" ∧
  balance (stocks r.1) "A" "ciment" = js_add (balance (stocks emptyDb) "A" "ciment") (Num 10) ∧
  stock_transfers r.1 = stock_transfers emptyDb.
Proof.
  destruct (addStock_by_sector_admin js_parseInt Run.adminA Run.addForm Run.env1 emptyDb
              "A" 10) as (Hok & Hbalance & _ & Htransfers & _).
  - discriminate.
  - discriminate.
  - discriminate.
  - reflexivity.
  - by_evaluation.
  - lia.
  - unique_rows.
  - split; [exact Hok|]. split; [exact Hbalance|exact Htransfers].
Defined.

Lemma addition_in_two_steps_equals_direct_witness :
  let db1 := (handleAddStockSubmit js_parseInt true More.superS More.sForm More.envS
                emptyDb).1 in
  stocks db1 = stocks emptyDb ∧
  stocks (handleConfirmAddition "a1"
            (StockAddition.mk "B" "ciment" (js_parseInt "5") "sac" pending "uid-S" 250 None)
            Run.env4 db1).1
  = stocks (handleAddStockSubmit js_parseInt false Run.adminB More.sForm Run.env4 emptyDb).1.
Proof.
  destruct (addition_in_two_steps_equals_direct js_parseInt More.superS Run.adminB "uid-S"
              More.sForm More.envS Run.env4 emptyDb) as (Hsame & _ & Hdirect).
  - discriminate.
  - discriminate.
  - discriminate.
  - by_evaluation.
  - reflexivity.
  - reflexivity.
  - split; [exact Hsame|exact Hdirect].
Defined.

Lemma unreadable_quantity_is_not_refused_witness :
  js_parseInt "beaucoup" = NaN ∧
  (let r := handleAddStockSubmit js_parseInt false Run.adminA More.unreadableForm
              Run.env1 emptyDb in
   r.2 = Succes "Stock ajouté" ∧ balance (stocks r.1) "A" "ciment" = NaN) ∧
  (let r := handleTransferSubmit js_parseInt false Run.adminA More.unreadableTransfer
              More.rows Run.env2 Run.db1 in
   r.2 = Succes "Transfert créé" ∧
   (StockTransfer.quantity <$> stock_transfers r.1 !! "t1") = Some NaN).
Proof.
  split; [by_evaluation|].
  destruct (unreadable_quantity_is_not_refused js_parseInt Run.env1 emptyDb) as [Hadd _].
  destruct (unreadable_quantity_is_not_refused js_parseInt Run.env2 Run.db1) as [_ Htransfer].
  split.
  - apply (Hadd Run.adminA More.unreadableForm "A").
    + discriminate.
    + discriminate.
    + discriminate.
    + reflexivity.
    + by_evaluation.
    + unique_rows.
  - apply (Htransfer false Run.adminA More.unreadableTransfer More.rows "A"
             ("s2", StockItem.mk "A" "ciment" (Num 10) "sac" "2024-05-01T09:00:00.000Z")).
    + discriminate.
    + discriminate.
    + discriminate.
    + discriminate.
    + reflexivity.
    + discriminate.
    + by_evaluation.
    + listed.
    + reflexivity.
    + reflexivity.
Defined.

Lemma stock_summary_totals_witness :
  let t := StockTotal.mk "ciment" (Num 15) "sac" in
  t ∈ totalStockSummary true More.rows ∧
  StockTotal.totalQuantity t
  = js_sum ((λ s : string * StockItem.t, StockItem.quantity s.2)
            <$> rowsOfItemUnit "ciment" "sac" More.rows).
Proof.
  intros t.
  assert (Hin : t ∈ totalStockSummary true More.rows) by listed.
  split; [exact Hin|].
  destruct (stock_summary_totals More.rows) as (_ & _ & Htotals).
  destruct (Htotals t Hin) as (Hsum & _ & Hrows).
  rewrite Hsum, Hrows; [reflexivity|].
  repeat constructor; repeat split; discriminate.
Defined.

Lemma stock_summary_keeps_grand_total_witness :
  js_sum (StockTotal.totalQuantity <$> totalStockSummary true More.rows)
  = totalItems More.rows ∧
  totalItems More.rows = Num 18.
Proof.
  destruct (stock_summary_keeps_grand_total More.rows) as (Hkept & Htotal & _).
  - repeat constructor; discriminate.
  - in_safe_range.
  - split; [exact Hkept|]. rewrite Htotal. by_evaluation.
Defined.

Lemma uniqueTransfers_keeps_each_id_once_witness :
  uniqueTransfers More.twice `sublist_of` More.twice ∧
  NoDup (uniqueTransfers More.twice).*1 ∧
  ("t1", Run.transfer1) ∈ uniqueTransfers More.twice.
Proof.
  destruct (uniqueTransfers_keeps_each_id_once More.twice) as (Hsub & Hnd & _ & Hfirst).
  split; [exact Hsub|]. split; [exact Hnd|].
  apply (Hfirst 1%nat); [reflexivity|].
  intros j y Hj Hlt. assert (j = 0%nat) as -> by lia.
  injection Hj as <-. discriminate.
Defined.

Lemma sector_admin_sees_own_transfers_witness :
  ∃ transfers,
    loadTransfers false Run.adminA (stock_transfers Run.db3) = Some transfers ∧
    NoDup transfers.*1 ∧
    ("t1", Run.transfer1) ∈ transfers ∧
    pendingIncomingTransfers Run.adminA transfers = [].
Proof.
  destruct (sector_admin_sees_own_transfers Run.adminA "A" (stock_transfers Run.db3))
    as (transfers & Hload & Hnd & Hin & Hoffer & _).
  - reflexivity.
  - discriminate.
  - exists transfers. split; [exact Hload|]. split; [exact Hnd|]. split.
    + apply Hin. split; [by_evaluation|]. right. reflexivity.
    + destruct (pendingIncomingTransfers Run.adminA transfers) as [|[id t] l] eqn:E;
        [reflexivity|].
      assert (Hhead : (id, t) ∈ (id, t) :: l) by left.
      apply Hoffer in Hhead as (Hl & _ & Hto).
      assert (Hall : map_Forall (λ _ t, StockTransfer.toSecteurId t ≠ "A")
                                (stock_transfers Run.db3)) by decided.
      exfalso. exact (Hall id t Hl Hto).
Defined.

Lemma sheetName_is_clean_witness :
  sheetName "Ferme Nord" = "Ferme Nord" ∧
  sheetName ("Nord" +:+ String "/" "Sud") = sheetName ("Nord" +:+ "Sud") ∧
  (String.length (sheetName "Ferme: Nord/Sud [2024]") ≤ 31)%nat.
Proof.
  destruct (sheetName_is_clean "Ferme Nord") as (_ & _ & Hkeep & _).
  destruct (sheetName_is_clean "Nord") as (_ & _ & _ & _ & Hdrop).
  destruct (sheetName_is_clean "Ferme: Nord/Sud [2024]") as (Hlen & _).
  split; [|split; [|exact Hlen]].
  - apply Hkeep; [simpl; lia|].
    intros c Hc. vm_compute in Hc.
    repeat (apply elem_of_cons in Hc as [->|Hc]; [reflexivity|]).
    by apply not_elem_of_nil in Hc.
  - apply Hdrop. reflexivity.
Defined.

(** ** The farms of the examples *)

Lemma fermeStats_counts_add_up_witness :
  let s := getFermeStats Farm.workers Farm.rooms "F1" in
  FermeStats.maleWorkers s + FermeStats.femaleWorkers s = FermeStats.totalOuvriers s ∧
  FermeStats.maleRooms s + FermeStats.femaleRooms s = FermeStats.totalChambres s ∧
  FermeStats.needsAttention s = false.
Proof.
  destruct (fermeStats_counts_add_up Farm.workers Farm.rooms "F1")
    as (_ & Hworkers & Hrooms & _).
  split; [exact Hworkers|]. split; [exact Hrooms|by_evaluation].
Defined.

Lemma fermeStats_occupancy_bounds_witness :
  let s := getFermeStats Farm.workers Farm.rooms "F1" in
  0 ≤ FermeStats.totalOccupied s ≤ FermeStats.totalCapacity s ∧
  0 ≤ FermeStats.tauxOccupation s ≤ 100 ∧
  FermeStats.tauxOccupation s = 50.
Proof.
  destruct (fermeStats_occupancy_bounds Farm.workers Farm.rooms "F1")
    as (Hocc & _ & Hrate & _).
  - intros room Hin _.
    repeat (apply elem_of_cons in Hin as [->|Hin]; [simpl; lia|]).
    by apply not_elem_of_nil in Hin.
  - split; [exact Hocc|]. split; [exact Hrate|by_evaluation].
Defined.

Lemma fermeStats_accounts_for_workers_witness :
  let s := getFermeStats (Farm.karim :: Farm.workers) Farm.rooms "F1" in
  FermeStats.workersWithoutRooms s + assigned (FermeStats.workersByRoom s) = 4 ∧
  default 0 (FermeStats.workersByRoom s !! statKey "101" hommes) = 2.
Proof.
  destruct (fermeStats_accounts_for_workers (Farm.karim :: Farm.workers) Farm.rooms "F1")
    as (Hsum & _ & Hcount).
  split; [exact Hsum|]. rewrite (Hcount "101" hommes). by_evaluation.
Defined.

Lemma fermeStats_counts_no_worker_twice_witness :
  let s := getFermeStats Farm.workers Farm.rooms "F1" in
  countedInRooms (FermeStats.roomStats s)
  = FermeStats.totalOuvriers s - FermeStats.workersWithoutRooms s.
Proof.
  destruct (fermeStats_counts_no_worker_twice Farm.workers Farm.rooms "F1") as [_ Heq].
  - decided.
  - apply Heq. intros w Hw _ _ _.
    repeat (apply elem_of_cons in Hw as [->|Hw];
            [first [exists ("rH", Farm.roomH); split; [listed|split; reflexivity]
                   |exists ("rF", Farm.roomF); split; [listed|split; reflexivity]]|]).
    by apply not_elem_of_nil in Hw.
Defined.

Lemma sync_sends_whatever_the_store_does_witness :
  let sent := (syncRoomOccupancy (Some (λ _ _ _, None)) 77 Farm.workers Farm.rooms
                 Farm.store).2 in
  sent.*1 = ["rH"] ∧
  ∀ id p, (id, p) ∈ sent →
          len (RoomPatch.listeOccupants p) = RoomPatch.occupantsActuels p.
Proof.
  destruct (sync_sends_whatever_the_store_does (λ _ _ _, None) 77 Farm.workers Farm.rooms
              Farm.store) as (Hids & Hsent & _).
  cbv zeta. split.
  - etransitivity; [exact Hids|]. by_evaluation.
  - intros id p Hin. by destruct (Hsent id p Hin) as (_ & ? & _).
Defined.

Lemma sync_and_stats_count_alike_witness :
  let stat := roomStat (FermeStats.workersByRoom
                          (getFermeStats Farm.workers Farm.rooms "F1"))
                       ("rH", Farm.roomH) in
  len (default [] (workersByRoom Farm.workers !! roomKey Farm.roomH))
  = RoomStat.workersCount stat ∧
  stat ∈ FermeStats.roomStats (getFermeStats Farm.workers Farm.rooms "F1").
Proof.
  destruct (sync_and_stats_count_alike Farm.workers Farm.rooms "rH" Farm.roomH)
    as (Hcount & _ & Hin & _).
  - repeat split; discriminate.
  - apply Farm_dash_free.
  - discriminate.
  - split; [exact Hcount|]. apply Hin. listed.
Defined.

Lemma new_farm_totals_match_rooms_witness :
  handleSubmit More.chamberConfig More.formData "F9" = Save More.fermeData More.chambers ∧
  Ferme.totalChambres More.fermeData = len More.chambers ∧
  Ferme.totalOuvriers More.fermeData = places More.chambers ∧
  NoDup ((λ room, (Room.numero room, Room.genre room)) <$> More.chambers).
Proof.
  split; [by_evaluation|].
  destruct (new_farm_totals_match_rooms More.chamberConfig More.formData "F9"
              More.fermeData More.chambers)
    as (_ & _ & Hrooms & Hplaces & _ & _ & _ & _ & Hnd).
  - reflexivity.
  - simpl; lia.
  - simpl; lia.
  - in_safe_range.
  - in_safe_range.
  - in_safe_range.
  - in_safe_range.
  - in_safe_range.
  - discriminate.
  - by_evaluation.
  - split; [exact Hrooms|]. split; [exact Hplaces|exact Hnd].
Defined.

(** Beyond the safe integers X20 fails on the code: numbered from
    [2 ^ 53], the two rooms for men get the same number, since
    [2 ^ 53 + 1] is no double. *)
Lemma rooms_share_a_number_from_2_53 :
  ∃ fermeData chambers,
    handleSubmit More.bigStart More.formData "F9" = Save fermeData chambers ∧
    Room.numero <$> chambers = ["9007199254740992"; "9007199254740992"] ∧
    Room.genre <$> chambers = [hommes; hommes] ∧
    ¬ NoDup ((λ room, (Room.numero room, Room.genre room)) <$> chambers).
Proof.
  eexists _, _. split; [by_evaluation|]. split; [by_evaluation|].
  split; [by_evaluation|]. intros Hnd. vm_compute in Hnd.
  apply NoDup_cons in Hnd as [Hin _]. apply Hin. left.
Qed.

Lemma new_farm_refused_or_saved_witness :
  ∃ message, handleSubmit More.noChambers More.formData "F9" = Alert message.
Proof.
  destruct (new_farm_refused_or_saved More.noChambers More.formData "F9") as [[_ Hrefused] _].
  apply Hrefused. split; [reflexivity|]. left. reflexivity.
Defined.

Lemma new_farm_starts_empty_witness :
  (roomsOf "F9" More.rooms).*2 = More.chambers ∧
  let s := getFermeStats Farm.workers More.rooms "F9" in
  FermeStats.totalChambres s = 3 ∧ FermeStats.totalCapacity s = 11 ∧
  FermeStats.tauxOccupation s = 0 ∧
  ∀ room, room ∈ roomsOf "F9" More.rooms →
          correctionFor 77 (workersByRoom Farm.workers) room = None.
Proof.
  split; [by_evaluation|].
  destruct (new_farm_starts_empty More.chamberConfig More.formData "F9" More.fermeData
              More.chambers Farm.workers More.rooms)
    as (Hrooms & Hplaces & _ & _ & _ & _ & _ & _ & Hrate & _ & Hsync).
  - reflexivity.
  - simpl; lia.
  - simpl; lia.
  - in_safe_range.
  - discriminate.
  - by_evaluation.
  - by_evaluation.
  - intros w Hw _.
    repeat (apply elem_of_cons in Hw as [->|Hw]; [discriminate|]).
    by apply not_elem_of_nil in Hw.
  - split; [exact Hrooms|]. split; [exact Hplaces|]. split; [exact Hrate|].
    apply Hsync; [repeat split; discriminate|apply Farm_dash_free].
Defined.

(** Beyond the safe integers X22 fails on the code: six rooms of
    [2 ^ 53 + 2] places each are saved with [6 * 2 ^ 53 + 16] places, the
    double nearest to the product, which is not what the statistics add
    up from the rooms. *)
Lemma saved_places_differ_from_statistics :
  let rooms := zip ["r1"; "r2"; "r3"; "r4"; "r5"; "r6"] (createChambers More.bigRooms "F9") in
  ∃ fermeData,
    handleSubmit More.bigRooms More.formData "F9" = Save fermeData rooms.*2 ∧
    Ferme.totalOuvriers fermeData = 6 * 2 ^ 53 + 16 ∧
    FermeStats.totalCapacity (getFermeStats [] rooms "F9") ≠ Ferme.totalOuvriers fermeData.
Proof.
  eexists. split; [by_evaluation|]. split; [by_evaluation|].
  intros Heq. vm_compute in Heq. discriminate.
Qed.

Lemma delete_farm_cascades_witness :
  let after := handleDelete More.deleteFerme More.yes More.accepts Farm.rooms
                 "F1" "Ferme 1" More.farmDb in
  FarmDb.rooms after.1 !! "rH" = None ∧
  FarmDb.rooms after.1 !! "r1" = FarmDb.rooms More.farmDb !! "r1" ∧
  FarmDb.fermes after.1 = delete "F1" (FarmDb.fermes More.farmDb) ∧
  after.2 = Some (deletedMessage "Ferme 1" 2).
Proof.
  destruct (delete_farm_cascades More.deleteFerme More.yes More.accepts Farm.rooms
              "F1" "Ferme 1" More.farmDb) as (Hgone & Hother & Hferme & _).
  - reflexivity.
  - intros id r _ _. reflexivity.
  - split; [apply (Hgone "rH" Farm.roomH); [listed|reflexivity]|].
    split; [apply Hother; vm_compute; intros Hin|exact Hferme].
    repeat (apply elem_of_cons in Hin as [Hin|Hin]; [discriminate|]).
    by apply not_elem_of_nil in Hin.
Defined.

Lemma delete_farm_leaves_the_rest_witness :
  let after := handleDelete More.deleteFerme More.yes More.refusesF Farm.rooms
                 "F1" "Ferme 1" More.farmDb in
  FarmDb.fermes after.1 = FarmDb.fermes More.farmDb ∧
  after.2 = Some (deleteErrorMessage (ErrorObject "permission-denied")) ∧
  FarmDb.rooms after.1 !! "rH" = None ∧
  FarmDb.rooms after.1 !! "rF" = Some Farm.roomF.
Proof.
  destruct (delete_farm_leaves_the_rest More.deleteFerme More.yes More.refusesF Farm.rooms
              "F1" "Ferme 1" More.farmDb) as (_ & _ & _ & Hstop).
  destruct (Hstop eq_refl [("rH", Farm.roomH)] ("rF", Farm.roomF) []
              (ErrorObject "permission-denied")) as (Hferme & Halert & Hgone & Hkept).
  - by_evaluation.
  - intros id Hid. apply list_elem_of_singleton in Hid as ->. reflexivity.
  - reflexivity.
  - split; [exact Hferme|]. split; [exact Halert|]. split.
    + apply Hgone. left.
    + rewrite Hkept; [by_evaluation|].
      intros Hin. apply list_elem_of_singleton in Hin. discriminate.
Defined.

(** ** The lists of the stock page *)

Lemma article_filter_covers_rows_witness :
  availableArticles More.rows = ["ciment"; "fer"] ∧
  Sorted code_unit_le (availableArticles More.rows) ∧
  filteredStocks "fer" More.rows ≠ [].
Proof.
  destruct (article_filter_covers_rows More.rows) as (_ & Hsorted & _ & Hshown & _).
  split; [by_evaluation|]. split; [exact Hsorted|].
  apply Hshown. listed.
Defined.

Lemma pdf_summary_counts_witness :
  let s := summaryStatistics More.rows (map_to_list (stock_transfers Run.db3)) [] in
  Summary.pendingTransfers s + Summary.completedTransfers s = 2 ∧
  Summary.uniqueItems s = 2 ∧ Summary.activeSectors s = 2 ∧
  Summary.articles s ≤ Summary.uniqueItems s * Summary.activeSectors s.
Proof.
  destruct (pdf_summary_counts More.rows (map_to_list (stock_transfers Run.db3)) [])
    as (Htransfers & _ & _ & _ & _ & _ & Hproduct & _).
  - decided.
  - unique_loaded.
  - split; [rewrite Htransfers; by_evaluation|].
    split; [by_evaluation|]. split; [by_evaluation|exact Hproduct].
Defined.

Lemma addition_offered_to_its_sector_witness :
  let created := (handleAddStockSubmit js_parseInt true More.superS More.sForm More.envS
                    emptyDb).1 in
  (∃ a, ("a1", a) ∈ pendingAdditions (loadAdditions false Run.adminB
                                         (stock_additions created))) ∧
  ¬ (∃ a, ("a1", a) ∈ pendingAdditions (loadAdditions false Run.adminA
                                           (stock_additions created))) ∧
  ∀ b, ("a1", b) ∉ loadAdditions false Run.adminB
                     (stock_additions
                        (handleConfirmAddition "a1" Run.addition1 Run.env4 created).1).
Proof.
  destruct (addition_offered_to_its_sector js_parseInt More.superS "uid-S" More.sForm
              More.envS emptyDb) as (Hoffer & _ & Hconfirmed & _).
  - discriminate.
  - discriminate.
  - by_evaluation.
  - reflexivity.
  - split; [apply (Hoffer Run.adminB); reflexivity|]. split.
    + intros Hin. apply (Hoffer Run.adminA) in Hin. discriminate.
    + intros b. destruct (Hconfirmed Run.addition1 Run.env4) as [Hgone _].
      apply (Hgone Run.adminB b).
Defined.
